(** * MiniOS: scheduler, memory manager, heap allocator and IPC manager

    A shallow embedding of the four core subsystems of the simulated
    microkernel (src/scheduler/scheduler.cpp, src/mm/memory_manager.cpp,
    src/ipc/ipc.cpp and their headers), followed by the properties their
    specification states about them.

    Conventions of the embedding:
    - fixed-width unsigned integers are [Z] with the wrap-around written
      out ([wrap32], [wrap64]);
    - [std::map] is a [gmap], [std::deque] / [std::queue] / [std::vector]
      are lists, [std::bitset<N>] is a [list bool] of length [N];
    - a pointer into a container is the key it points at; [nullptr] and
      [std::nullopt] are [None];
    - a call whose C++ behaviour is undefined (dereferencing a null or
      wild pointer) or that does not return has no result: the operations
      that can do so live in [option];
    - log output and time stamps that no operation reads are left out. *)

From stdpp Require Import gmap list strings sorting.

Open Scope Z_scope.

(** ** kernel/types.hpp *)

Definition wrap32 (x : Z) : Z := x mod 2 ^ 32.
Definition wrap64 (x : Z) : Z := x mod 2 ^ 64.

Definition INVALID_TASK_ID : Z := 0xFFFFFFFF.
Definition PAGE_SIZE : Z := 4096.
Definition TIME_QUANTUM_MS : Z := 100.

Inductive TaskState := Created | Ready | Running | Blocked | Waiting | Terminated.
Inductive TaskPriority := Idle | Low | Normal | High | RealTime.

#[global] Instance TaskState_eq_dec : EqDecision TaskState.
Proof. solve_decision. Defined.
#[global] Instance TaskPriority_eq_dec : EqDecision TaskPriority.
Proof. solve_decision. Defined.

Definition priority_rank (p : TaskPriority) : nat :=
  match p with Idle => 0 | Low => 1 | Normal => 2 | High => 3 | RealTime => 4 end%nat.

Definition priority_of_rank (n : nat) : TaskPriority :=
  match n with
  | 0 => Idle | 1 => Low | 2 => Normal | 3 => High | _ => RealTime
  end%nat.

#[global] Instance TaskPriority_countable : Countable TaskPriority.
Proof.
  refine (inj_countable' priority_rank priority_of_rank _).
  intros p; destruct p; reflexivity.
Defined.

(** MemoryProtection is an [enum class : uint8_t] used as a bit field. *)
Definition MemoryProtection := Z.
Definition Prot_None : MemoryProtection := 0.
Definition Prot_Read : MemoryProtection := 1.
Definition Prot_Write : MemoryProtection := 2.
Definition Prot_Execute : MemoryProtection := 4.
Definition Prot_ReadWrite : MemoryProtection := Z.lor Prot_Read Prot_Write.

(** ** Scheduler (scheduler/tcb.hpp, scheduler/scheduler.hpp, scheduler.cpp) *)

Module Sched.

Inductive SchedulerType := RoundRobin | Priority.

#[global] Instance SchedulerType_eq_dec : EqDecision SchedulerType.
Proof. solve_decision. Defined.

(** The task control block. The register context, the stack bytes and the
    two time stamps are written but never read by the scheduler and are
    not part of the record. *)
Record TaskControlBlock := mkTCB {
  id : Z;
  name : string;
  state : TaskState;
  priority : TaskPriority;
  stackSize : Z;
  parentId : Z;
  children : list Z;
  cpuTimeMs : Z;
  timeSliceRemaining : Z;
  memoryUsage : Z;
  allocatedPages : list Z;
  openFiles : list Z;
  exitCode : Z
}.

Definition TaskControlBlock_new (taskId : Z) (taskName : string)
    (prio : TaskPriority) : TaskControlBlock :=
  {| id := taskId; name := taskName; state := Created; priority := prio;
     stackSize := PAGE_SIZE * 4; parentId := INVALID_TASK_ID; children := [];
     cpuTimeMs := 0; timeSliceRemaining := TIME_QUANTUM_MS;
     memoryUsage := 0; allocatedPages := []; openFiles := []; exitCode := 0 |}.

Definition set_state (st : TaskState) (t : TaskControlBlock) : TaskControlBlock :=
  mkTCB (id t) (name t) st (priority t) (stackSize t) (parentId t)
        (children t) (cpuTimeMs t) (timeSliceRemaining t) (memoryUsage t)
        (allocatedPages t) (openFiles t) (exitCode t).

Definition set_timeSliceRemaining (n : Z) (t : TaskControlBlock) : TaskControlBlock :=
  mkTCB (id t) (name t) (state t) (priority t) (stackSize t) (parentId t)
        (children t) (cpuTimeMs t) n (memoryUsage t)
        (allocatedPages t) (openFiles t) (exitCode t).

Definition set_cpuTimeMs (n : Z) (t : TaskControlBlock) : TaskControlBlock :=
  mkTCB (id t) (name t) (state t) (priority t) (stackSize t) (parentId t)
        (children t) n (timeSliceRemaining t) (memoryUsage t)
        (allocatedPages t) (openFiles t) (exitCode t).

(** The scheduler object. [taskFunctions_] holds closures that scheduler.cpp
    stores and never calls; it is not part of the record. *)
Record Scheduler := mkScheduler {
  type_ : SchedulerType;
  nextTaskId_ : Z;
  currentTaskId_ : Z;
  tasks_ : gmap Z TaskControlBlock;
  readyQueue_ : list Z;
  priorityQueues_ : gmap TaskPriority (list Z);
  tickCount_ : Z;
  schedulerRunning_ : bool
}.

Definition Scheduler_new (type : SchedulerType) : Scheduler :=
  {| type_ := type; nextTaskId_ := 1; currentTaskId_ := INVALID_TASK_ID;
     tasks_ := ∅; readyQueue_ := []; priorityQueues_ := ∅;
     tickCount_ := 0; schedulerRunning_ := false |}.

Definition with_type (ty : SchedulerType) (s : Scheduler) : Scheduler :=
  mkScheduler ty (nextTaskId_ s) (currentTaskId_ s) (tasks_ s) (readyQueue_ s)
              (priorityQueues_ s) (tickCount_ s) (schedulerRunning_ s).

Definition with_nextTaskId (n : Z) (s : Scheduler) : Scheduler :=
  mkScheduler (type_ s) n (currentTaskId_ s) (tasks_ s) (readyQueue_ s)
              (priorityQueues_ s) (tickCount_ s) (schedulerRunning_ s).

Definition with_currentTaskId (c : Z) (s : Scheduler) : Scheduler :=
  mkScheduler (type_ s) (nextTaskId_ s) c (tasks_ s) (readyQueue_ s)
              (priorityQueues_ s) (tickCount_ s) (schedulerRunning_ s).

Definition with_tasks (ts : gmap Z TaskControlBlock) (s : Scheduler) : Scheduler :=
  mkScheduler (type_ s) (nextTaskId_ s) (currentTaskId_ s) ts (readyQueue_ s)
              (priorityQueues_ s) (tickCount_ s) (schedulerRunning_ s).

Definition with_readyQueue (q : list Z) (s : Scheduler) : Scheduler :=
  mkScheduler (type_ s) (nextTaskId_ s) (currentTaskId_ s) (tasks_ s) q
              (priorityQueues_ s) (tickCount_ s) (schedulerRunning_ s).

Definition with_priorityQueues (pq : gmap TaskPriority (list Z)) (s : Scheduler)
    : Scheduler :=
  mkScheduler (type_ s) (nextTaskId_ s) (currentTaskId_ s) (tasks_ s)
              (readyQueue_ s) pq (tickCount_ s) (schedulerRunning_ s).

Definition with_tickCount (n : Z) (s : Scheduler) : Scheduler :=
  mkScheduler (type_ s) (nextTaskId_ s) (currentTaskId_ s) (tasks_ s)
              (readyQueue_ s) (priorityQueues_ s) n (schedulerRunning_ s).

(** [std::map] iterates its keys in ascending order. *)
Definition priorities_ascending : list TaskPriority :=
  [Idle; Low; Normal; High; RealTime].

(** [deque.erase(std::find(...))]: drops the first occurrence. *)
Fixpoint erase_first (x : Z) (q : list Z) : list Z :=
  match q with
  | [] => []
  | y :: q' => if decide (y = x) then q' else y :: erase_first x q'
  end.

Definition getCurrentTask (s : Scheduler) : option TaskControlBlock :=
  if decide (currentTaskId_ s = INVALID_TASK_ID) then None
  else tasks_ s !! currentTaskId_ s.

Definition getTask (s : Scheduler) (i : Z) : option TaskControlBlock :=
  tasks_ s !! i.

Definition setSchedulerType (s : Scheduler) (type : SchedulerType) : Scheduler :=
  if decide (type_ s ≠ type) then with_type type s else s.

Definition getReadyQueueSize (s : Scheduler) : Z :=
  match type_ s with
  | RoundRobin => Z.of_nat (length (readyQueue_ s))
  | Priority =>
      map_fold (λ _ queue total, wrap64 (total + Z.of_nat (length queue)))
               0 (priorityQueues_ s)
  end.

Definition selectRoundRobin (s : Scheduler) : Z :=
  match readyQueue_ s with
  | [] => INVALID_TASK_ID
  | front :: _ => front
  end.

(** The loop of [selectPriority], from RealTime down to Idle. *)
Fixpoint selectPriority_from (ps : list TaskPriority)
    (pq : gmap TaskPriority (list Z)) : Z :=
  match ps with
  | [] => INVALID_TASK_ID
  | p :: ps' =>
      match pq !! p with
      | Some (front :: _) => front
      | _ => selectPriority_from ps' pq
      end
  end.

Definition selectPriority (s : Scheduler) : Z :=
  selectPriority_from (reverse priorities_ascending) (priorityQueues_ s).

Definition selectNextTask (s : Scheduler) : Z :=
  match type_ s with
  | RoundRobin => selectRoundRobin s
  | Priority => selectPriority s
  end.

Definition addToReadyQueue (s : Scheduler) (i : Z) : Scheduler :=
  match tasks_ s !! i with
  | None => s
  | Some tcb =>
      match type_ s with
      | RoundRobin =>
          if decide (i ∈ readyQueue_ s) then s
          else with_readyQueue (readyQueue_ s ++ [i]) s
      | Priority =>
          (* operator[] default-constructs an absent queue *)
          let queue := default [] (priorityQueues_ s !! priority tcb) in
          let queue' := if decide (i ∈ queue) then queue else queue ++ [i] in
          with_priorityQueues (<[priority tcb := queue']> (priorityQueues_ s)) s
      end
  end.

(** The loop of [removeFromReadyQueue] under the priority discipline: the
    first queue (in key order) that holds the id loses its first
    occurrence, and the loop stops. *)
Fixpoint removeFromPriorityQueues (i : Z) (keys : list TaskPriority)
    (pq : gmap TaskPriority (list Z)) : gmap TaskPriority (list Z) :=
  match keys with
  | [] => pq
  | k :: keys' =>
      match pq !! k with
      | Some queue =>
          if decide (i ∈ queue) then <[k := erase_first i queue]> pq
          else removeFromPriorityQueues i keys' pq
      | None => removeFromPriorityQueues i keys' pq
      end
  end.

Definition removeFromReadyQueue (s : Scheduler) (i : Z) : Scheduler :=
  match type_ s with
  | RoundRobin => with_readyQueue (erase_first i (readyQueue_ s)) s
  | Priority =>
      with_priorityQueues
        (removeFromPriorityQueues i priorities_ascending (priorityQueues_ s)) s
  end.

(** Writes through a [TaskControlBlock*] obtained from [tasks_]. *)
Definition update_task (i : Z) (f : TaskControlBlock → TaskControlBlock)
    (s : Scheduler) : Scheduler :=
  with_tasks (alter f i (tasks_ s)) s.

Definition createTask (s : Scheduler) (taskName : string) (prio : TaskPriority)
    : Z * Scheduler :=
  let i := nextTaskId_ s in
  let s1 := with_nextTaskId (wrap32 (i + 1)) s in
  let tcb := set_state Ready (TaskControlBlock_new i taskName prio) in
  let s2 := with_tasks (<[i := tcb]> (tasks_ s1)) s1 in
  (i, addToReadyQueue s2 i).

(** [schedule] dereferences [nextTcb] unchecked: when the selected id has no
    TCB the call has no defined result. *)
Definition schedule (s : Scheduler) : option Scheduler :=
  let nextTask := selectNextTask s in
  if decide (nextTask = INVALID_TASK_ID) then Some s
  else if decide (nextTask = currentTaskId_ s) then Some s
  else
    let currentTcb := getCurrentTask s in
    let nextTcb := getTask s nextTask in
    let s1 :=
      match currentTcb with
      | Some cur =>
          if decide (state cur = Running)
          then addToReadyQueue (update_task (currentTaskId_ s) (set_state Ready) s)
                               (currentTaskId_ s)
          else s
      | None => s
      end in
    match nextTcb with
    | None => None
    | Some _ =>
        let s2 := with_currentTaskId nextTask s1 in
        let s3 := update_task nextTask
                    (λ t, set_timeSliceRemaining TIME_QUANTUM_MS (set_state Running t))
                    s2 in
        Some (removeFromReadyQueue s3 nextTask)
    end.

Definition terminateTask (s : Scheduler) (i : Z) : option (bool * Scheduler) :=
  match tasks_ s !! i with
  | None => Some (false, s)
  | Some _ =>
      let s1 := removeFromReadyQueue (update_task i (set_state Terminated) s) i in
      if decide (currentTaskId_ s1 = i) then
        s2 ← schedule (with_currentTaskId INVALID_TASK_ID s1); Some (true, s2)
      else Some (true, s1)
  end.

Definition blockTask (s : Scheduler) (i : Z) : option (bool * Scheduler) :=
  match tasks_ s !! i with
  | None => Some (false, s)
  | Some tcb =>
      if decide (state tcb ≠ Running ∧ state tcb ≠ Ready) then Some (false, s)
      else
        let s1 := removeFromReadyQueue (update_task i (set_state Blocked) s) i in
        if decide (currentTaskId_ s1 = i) then
          s2 ← schedule s1; Some (true, s2)
        else Some (true, s1)
  end.

Definition unblockTask (s : Scheduler) (i : Z) : bool * Scheduler :=
  match tasks_ s !! i with
  | None => (false, s)
  | Some tcb =>
      if decide (state tcb ≠ Blocked) then (false, s)
      else (true, addToReadyQueue (update_task i (set_state Ready) s) i)
  end.

Definition tick (s : Scheduler) : option Scheduler :=
  let s1 := with_tickCount (wrap64 (tickCount_ s + 1)) s in
  match getCurrentTask s1 with
  | None => schedule s1
  | Some current =>
      let c := currentTaskId_ s1 in
      let s2 :=
        if decide (timeSliceRemaining current > 0) then
          update_task c (λ t, set_cpuTimeMs (wrap64 (cpuTimeMs t + 1))
                               (set_timeSliceRemaining (timeSliceRemaining t - 1) t))
                      s1
        else s1 in
      match getCurrentTask s2 with
      | Some current' =>
          if decide (timeSliceRemaining current' = 0) then schedule s2 else Some s2
      | None => Some s2
      end
  end.

Definition yield (s : Scheduler) : option Scheduler :=
  match getCurrentTask s with
  | Some _ =>
      schedule (update_task (currentTaskId_ s) (set_timeSliceRemaining 0) s)
  | None => Some s
  end.

End Sched.

(** ** Memory manager (mm/memory_manager.hpp, memory_manager.cpp) *)

Module MM.

Definition TOTAL_PHYSICAL_FRAMES : Z := 1024.

Record PageTableEntry := mkPTE {
  frameNumber : Z;
  present : bool;
  dirty : bool;
  accessed : bool;
  protection : MemoryProtection
}.

Record PageTable := mkPageTable {
  entries : gmap Z PageTableEntry;
  ownerId : Z
}.

(** [physicalMemory_] is a byte vector the manager allocates once and never
    reads or writes; only the address of its first byte is used. The frame
    bitmap is a [std::bitset<TOTAL_PHYSICAL_FRAMES>]. *)
Record MemoryManager := mkMM {
  physicalMemory_data : Z;
  frameAllocationMap_ : list bool;
  pageTables_ : gmap Z PageTable;
  totalAllocatedPages_ : Z;
  pageFaultCount_ : Z
}.

Definition MemoryManager_new (arenaBase : Z) : MemoryManager :=
  {| physicalMemory_data := arenaBase;
     frameAllocationMap_ := replicate (Z.to_nat TOTAL_PHYSICAL_FRAMES) false;
     pageTables_ := ∅;
     totalAllocatedPages_ := 0;
     pageFaultCount_ := 0 |}.

Definition with_frameMap (fm : list bool) (m : MemoryManager) : MemoryManager :=
  mkMM (physicalMemory_data m) fm (pageTables_ m) (totalAllocatedPages_ m)
       (pageFaultCount_ m).

Definition with_pageTables (pts : gmap Z PageTable) (m : MemoryManager)
    : MemoryManager :=
  mkMM (physicalMemory_data m) (frameAllocationMap_ m) pts
       (totalAllocatedPages_ m) (pageFaultCount_ m).

Definition with_totalAllocatedPages (n : Z) (m : MemoryManager) : MemoryManager :=
  mkMM (physicalMemory_data m) (frameAllocationMap_ m) (pageTables_ m) n
       (pageFaultCount_ m).

Definition with_pageFaultCount (n : Z) (m : MemoryManager) : MemoryManager :=
  mkMM (physicalMemory_data m) (frameAllocationMap_ m) (pageTables_ m)
       (totalAllocatedPages_ m) n.

Definition with_entries (es : gmap Z PageTableEntry) (pt : PageTable) : PageTable :=
  mkPageTable es (ownerId pt).

Definition set_accessed (b : bool) (e : PageTableEntry) : PageTableEntry :=
  mkPTE (frameNumber e) (present e) (dirty e) b (protection e).

Definition set_protection (pr : MemoryProtection) (e : PageTableEntry)
    : PageTableEntry :=
  mkPTE (frameNumber e) (present e) (dirty e) (accessed e) pr.

(** Ascending scan for the first clear bit, which is then set. *)
Definition allocateFrame (m : MemoryManager) : option Z * MemoryManager :=
  match list_find (λ b : bool, b = false) (frameAllocationMap_ m) with
  | Some (i, _) =>
      (Some (Z.of_nat i), with_frameMap (<[i := true]> (frameAllocationMap_ m)) m)
  | None => (None, m)
  end.

Definition freeFrame (m : MemoryManager) (frame : Z) : bool * MemoryManager :=
  if decide (frame >= TOTAL_PHYSICAL_FRAMES) then (false, m)
  else (true, with_frameMap (<[Z.to_nat frame := false]> (frameAllocationMap_ m)) m).

Definition isFrameFree (m : MemoryManager) (frame : Z) : bool :=
  if decide (frame >= TOTAL_PHYSICAL_FRAMES) then false
  else negb (default false (frameAllocationMap_ m !! Z.to_nat frame)).

Definition createAddressSpace (m : MemoryManager) (taskId : Z)
    : bool * MemoryManager :=
  match pageTables_ m !! taskId with
  | Some _ => (false, m)
  | None => (true, with_pageTables (<[taskId := mkPageTable ∅ taskId]> (pageTables_ m)) m)
  end.

(** [std::map] visits its entries in ascending key order. *)
Definition key_le (a b : Z * PageTableEntry) : Prop := a.1 ≤ b.1.

#[global] Instance key_le_dec (a b : Z * PageTableEntry) : Decision (key_le a b) :=
  decide (a.1 ≤ b.1).

Definition entries_in_key_order (es : gmap Z PageTableEntry)
    : list (Z * PageTableEntry) :=
  merge_sort key_le (map_to_list es).

(** The loop of [destroyAddressSpace] over the entries of one table. *)
Definition freeFramesOf (es : gmap Z PageTableEntry) (m : MemoryManager)
    : MemoryManager :=
  foldl (λ acc pe, if present pe.2 then (freeFrame acc (frameNumber pe.2)).2 else acc)
        m (entries_in_key_order es).

Definition destroyAddressSpace (m : MemoryManager) (taskId : Z)
    : bool * MemoryManager :=
  match pageTables_ m !! taskId with
  | None => (false, m)
  | Some pt =>
      let m1 := freeFramesOf (entries pt) m in
      (true, with_pageTables (delete taskId (pageTables_ m1)) m1)
  end.

Definition allocatePage (m : MemoryManager) (taskId virtualPage : Z)
    (prot : MemoryProtection) : option Z * MemoryManager :=
  match pageTables_ m !! taskId with
  | None => (None, m)
  | Some pageTable =>
      match entries pageTable !! virtualPage with
      | Some (mkPTE _ true _ _ _) => (None, m)
      | _ =>
          match allocateFrame m with
          | (None, _) => (None, m)
          | (Some frame, m1) =>
              let entry := mkPTE frame true false false prot in
              let pageTable' :=
                with_entries (<[virtualPage := entry]> (entries pageTable)) pageTable in
              let m2 := with_pageTables (<[taskId := pageTable']> (pageTables_ m1)) m1 in
              let m3 := with_totalAllocatedPages (wrap64 (totalAllocatedPages_ m2 + 1)) m2 in
              (Some (physicalMemory_data m + frame * PAGE_SIZE), m3)
          end
      end
  end.

Definition freePage (m : MemoryManager) (taskId virtualPage : Z)
    : bool * MemoryManager :=
  match pageTables_ m !! taskId with
  | None => (false, m)
  | Some pageTable =>
      match entries pageTable !! virtualPage with
      | Some (mkPTE frame true _ _ _) =>
          let m1 := (freeFrame m frame).2 in
          let pageTable' := with_entries (delete virtualPage (entries pageTable)) pageTable in
          let m2 := with_pageTables (<[taskId := pageTable']> (pageTables_ m1)) m1 in
          (true, with_totalAllocatedPages (wrap64 (totalAllocatedPages_ m2 - 1)) m2)
      | _ => (false, m)
      end
  end.

Definition translateAddress (m : MemoryManager) (taskId virtualPage : Z)
    : option Z * MemoryManager :=
  match pageTables_ m !! taskId with
  | None => (None, m)
  | Some pageTable =>
      match entries pageTable !! virtualPage with
      | Some (mkPTE frame true _ _ _) =>
          let pageTable' :=
            with_entries (alter (set_accessed true) virtualPage (entries pageTable))
                         pageTable in
          (Some frame, with_pageTables (<[taskId := pageTable']> (pageTables_ m)) m)
      | _ => (None, m)
      end
  end.

Definition handlePageFault (m : MemoryManager) (taskId virtualPage : Z)
    : bool * MemoryManager :=
  let m1 := with_pageFaultCount (wrap64 (pageFaultCount_ m + 1)) m in
  let '(result, m2) := allocatePage m1 taskId virtualPage Prot_ReadWrite in
  (bool_decide (is_Some result), m2).

Definition setProtection (m : MemoryManager) (taskId virtualPage : Z)
    (prot : MemoryProtection) : bool * MemoryManager :=
  match pageTables_ m !! taskId with
  | None => (false, m)
  | Some pageTable =>
      match entries pageTable !! virtualPage with
      | None => (false, m)
      | Some _ =>
          let pageTable' :=
            with_entries (alter (set_protection prot) virtualPage (entries pageTable))
                         pageTable in
          (true, with_pageTables (<[taskId := pageTable']> (pageTables_ m)) m)
      end
  end.

Definition getProtection (m : MemoryManager) (taskId virtualPage : Z)
    : option MemoryProtection :=
  pageTable ← pageTables_ m !! taskId;
  entry ← entries pageTable !! virtualPage;
  Some (protection entry).

(** [bitset::count]. *)
Definition count (fm : list bool) : Z :=
  Z.of_nat (length (filter (λ b : bool, b = true) fm)).

Definition getFreeFrameCount (m : MemoryManager) : Z :=
  TOTAL_PHYSICAL_FRAMES - count (frameAllocationMap_ m).

Definition getUsedFrameCount (m : MemoryManager) : Z :=
  count (frameAllocationMap_ m).

(** The public operations, as a caller can issue them. *)
Inductive Call :=
  | CreateAddressSpace (taskId : Z)
  | DestroyAddressSpace (taskId : Z)
  | AllocatePage (taskId virtualPage : Z) (prot : MemoryProtection)
  | FreePage (taskId virtualPage : Z)
  | TranslateAddress (taskId virtualPage : Z)
  | HandlePageFault (taskId virtualPage : Z)
  | SetProtection (taskId virtualPage : Z) (prot : MemoryProtection)
  | GetProtection (taskId virtualPage : Z).

Definition perform (m : MemoryManager) (c : Call) : MemoryManager :=
  match c with
  | CreateAddressSpace t => (createAddressSpace m t).2
  | DestroyAddressSpace t => (destroyAddressSpace m t).2
  | AllocatePage t p prot => (allocatePage m t p prot).2
  | FreePage t p => (freePage m t p).2
  | TranslateAddress t p => (translateAddress m t p).2
  | HandlePageFault t p => (handlePageFault m t p).2
  | SetProtection t p prot => (setProtection m t p prot).2
  | GetProtection t p => m
  end.

(** The state after a sequence of calls on a freshly constructed manager. *)
Definition after (arenaBase : Z) (calls : list Call) : MemoryManager :=
  foldl perform (MemoryManager_new arenaBase) calls.

(** Some PTE of task [t] at virtual page [p] is present and holds frame [i]. *)
Definition references (m : MemoryManager) (i : nat) (t p : Z) : Prop :=
  ∃ pt e, pageTables_ m !! t = Some pt ∧ entries pt !! p = Some e ∧
          frameNumber e = Z.of_nat i ∧ present e = true.

Definition bit_set (m : MemoryManager) (i : nat) : Prop :=
  frameAllocationMap_ m !! i = Some true.

End MM.

(** ** Heap allocator (mm/memory_manager.hpp, memory_manager.cpp) *)

Module Heap.

(** [BlockHeader] is { size_t; bool; BlockHeader*; BlockHeader* }: 32 bytes
    under the LP64 layout the simulator is built for. *)
Definition sizeof_BlockHeader : Z := 32.

(** Pointers are byte offsets from [heap_.data()]; [None] is [nullptr]. *)
Record BlockHeader := mkBlock {
  size : Z;
  isFree : bool;
  next : option Z;
  prev : option Z
}.

(** The arena [heap_] is seen through two views: the block headers that
    were written into it, keyed by the offset they live at, and the other
    bytes (an offset that was never written reads 0, the vector being
    zero-initialised). A header that [coalesce] unlinks stays in memory. *)
Record HeapAllocator := mkHeap {
  heap_headers : gmap Z BlockHeader;
  heap_bytes : gmap Z Z;
  heapSize_ : Z;
  freeList_ : option Z;
  allocatedBytes_ : Z
}.

Definition HeapAllocator_new (heapSize : Z) : HeapAllocator :=
  {| heap_headers :=
       {[ 0 := mkBlock (wrap64 (heapSize - sizeof_BlockHeader)) true None None ]};
     heap_bytes := ∅;
     heapSize_ := heapSize;
     freeList_ := Some 0;
     allocatedBytes_ := 0 |}.

Definition with_headers (hs : gmap Z BlockHeader) (h : HeapAllocator) : HeapAllocator :=
  mkHeap hs (heap_bytes h) (heapSize_ h) (freeList_ h) (allocatedBytes_ h).

Definition with_bytes (bs : gmap Z Z) (h : HeapAllocator) : HeapAllocator :=
  mkHeap (heap_headers h) bs (heapSize_ h) (freeList_ h) (allocatedBytes_ h).

Definition with_allocatedBytes (n : Z) (h : HeapAllocator) : HeapAllocator :=
  mkHeap (heap_headers h) (heap_bytes h) (heapSize_ h) (freeList_ h) n.

Definition set_size (n : Z) (b : BlockHeader) : BlockHeader :=
  mkBlock n (isFree b) (next b) (prev b).
Definition set_isFree (f : bool) (b : BlockHeader) : BlockHeader :=
  mkBlock (size b) f (next b) (prev b).
Definition set_next (p : option Z) (b : BlockHeader) : BlockHeader :=
  mkBlock (size b) (isFree b) p (prev b).
Definition set_prev (p : option Z) (b : BlockHeader) : BlockHeader :=
  mkBlock (size b) (isFree b) (next b) p.

(** A write through a [BlockHeader*]: undefined when nothing lives there. *)
Definition store (p : Z) (f : BlockHeader → BlockHeader) (h : HeapAllocator)
    : option HeapAllocator :=
  b ← heap_headers h !! p;
  Some (with_headers (<[p := f b]> (heap_headers h)) h).

(** [(size + 7) & ~7] on [size_t]. *)
Definition align8 (sz : Z) : Z := Z.land (wrap64 (sz + 7)) (Z.lnot 7).

(** The [while] loop of [findFreeBlock]. A walk that takes more steps than
    there are headers is going round a cycle and never returns. *)
Fixpoint findFreeBlock_from (fuel : nat) (hs : gmap Z BlockHeader)
    (current : option Z) (sz : Z) : option (option Z) :=
  match current with
  | None => Some None
  | Some c =>
      match fuel with
      | O => None
      | S fuel' =>
          b ← hs !! c;
          if isFree b && bool_decide (size b >= sz) then Some (Some c)
          else findFreeBlock_from fuel' hs (next b) sz
      end
  end.

Definition findFreeBlock (h : HeapAllocator) (sz : Z) : option (option Z) :=
  findFreeBlock_from (base.size (heap_headers h)) (heap_headers h) (freeList_ h) sz.

Definition splitBlock (h : HeapAllocator) (block sz : Z) : option HeapAllocator :=
  b ← heap_headers h !! block;
  let newBlock := block + sizeof_BlockHeader + sz in
  let nb := mkBlock (wrap64 (size b - sz - sizeof_BlockHeader)) true (next b)
                    (Some block) in
  let h1 := with_headers (<[newBlock := nb]> (heap_headers h)) h in
  b1 ← heap_headers h1 !! block;
  h2 ← match next b1 with
       | Some n => store n (set_prev (Some newBlock)) h1
       | None => Some h1
       end;
  h3 ← store block (set_size sz) h2;
  store block (set_next (Some newBlock)) h3.

Definition allocate (h : HeapAllocator) (request : Z)
    : option (option Z * HeapAllocator) :=
  if decide (request = 0) then Some (None, h)
  else
    let sz := align8 request in
    found ← findFreeBlock h sz;
    match found with
    | None => Some (None, h)
    | Some block =>
        b ← heap_headers h !! block;
        h1 ← (if decide (size b > wrap64 (sz + sizeof_BlockHeader + 8))
              then splitBlock h block sz else Some h);
        h2 ← store block (set_isFree false) h1;
        b2 ← heap_headers h2 !! block;
        Some (Some (block + sizeof_BlockHeader),
              with_allocatedBytes (wrap64 (allocatedBytes_ h2 + size b2)) h2)
    end.

Definition coalesce (h : HeapAllocator) (block : Z) : option HeapAllocator :=
  b ← heap_headers h !! block;
  h1 ← match next b with
       | None => Some h
       | Some n =>
           nb ← heap_headers h !! n;
           if isFree nb then
             ha ← store block
                    (λ x, set_size (wrap64 (size x + (sizeof_BlockHeader + size nb))) x) h;
             ba ← heap_headers ha !! block;
             na ← next ba;
             nba ← heap_headers ha !! na;
             hb ← store block (set_next (next nba)) ha;
             b' ← heap_headers hb !! block;
             match next b' with
             | Some n' => store n' (set_prev (Some block)) hb
             | None => Some hb
             end
           else Some h
       end;
  b1 ← heap_headers h1 !! block;
  match prev b1 with
  | None => Some h1
  | Some p =>
      pb ← heap_headers h1 !! p;
      if isFree pb then
        ha ← store p
               (λ x, set_size (wrap64 (size x + (sizeof_BlockHeader + size b1))) x) h1;
        b2 ← heap_headers ha !! block;
        hb ← store p (set_next (next b2)) ha;
        b3 ← heap_headers hb !! block;
        match next b3 with
        | Some n' => store n' (set_prev (prev b3)) hb
        | None => Some hb
        end
      else Some h1
  end.

Definition free (h : HeapAllocator) (ptr : option Z) : option HeapAllocator :=
  match ptr with
  | None => Some h
  | Some p =>
      let block := p - sizeof_BlockHeader in
      b ← heap_headers h !! block;
      if isFree b then Some h
      else
        h1 ← store block (set_isFree true) h;
        b1 ← heap_headers h1 !! block;
        coalesce (with_allocatedBytes (wrap64 (allocatedBytes_ h1 - size b1)) h1) block
  end.

(** [std::memcpy] of [n] bytes between two non-overlapping payload areas. *)
Definition memcpy (h : HeapAllocator) (dst src n : Z) : HeapAllocator :=
  with_bytes
    (foldl (λ bs k, <[dst + k := default 0 (heap_bytes h !! (src + k))]> bs)
           (heap_bytes h) (seqZ 0 n))
    h.

Definition reallocate (h : HeapAllocator) (ptr : option Z) (newSize : Z)
    : option (option Z * HeapAllocator) :=
  match ptr with
  | None => allocate h newSize
  | Some p =>
      if decide (newSize = 0) then h' ← free h ptr; Some (None, h')
      else
        let block := p - sizeof_BlockHeader in
        b ← heap_headers h !! block;
        if decide (size b >= newSize) then Some (ptr, h)
        else
          r ← allocate h newSize;
          match r.1 with
          | Some newPtr =>
              b' ← heap_headers r.2 !! block;
              h' ← free (memcpy r.2 newPtr p (size b')) ptr;
              Some (Some newPtr, h')
          | None => Some (None, r.2)
          end
  end.

Definition getFreeMemory (h : HeapAllocator) : Z :=
  wrap64 (wrap64 (heapSize_ h - allocatedBytes_ h) - sizeof_BlockHeader).
Definition getUsedMemory (h : HeapAllocator) : Z := allocatedBytes_ h.
Definition getTotalMemory (h : HeapAllocator) : Z := heapSize_ h.

End Heap.

(** ** IPC manager (ipc/ipc.hpp, ipc.cpp) *)

Module IPC.

Definition MAX_MESSAGE_SIZE : Z := 4096.

Inductive MessageType := Data | Signal | Request | Response | Notification.

#[global] Instance MessageType_eq_dec : EqDecision MessageType.
Proof. solve_decision. Defined.

(** The creation time stamp of a message is never read and is left out. *)
Record Message := mkMessage {
  id : Z;
  senderId : Z;
  receiverId : Z;
  type : MessageType;
  payload : list Z;
  isBlocking : bool
}.

Definition Message_new (msgId sender receiver : Z) (t : MessageType) : Message :=
  {| id := msgId; senderId := sender; receiverId := receiver; type := t;
     payload := []; isBlocking := false |}.

Definition set_isBlocking (b : bool) (m : Message) : Message :=
  mkMessage (id m) (senderId m) (receiverId m) (type m) (payload m) b.

(** [data] is the caller's buffer, which holds at least [sz] bytes. *)
Definition setPayload (m : Message) (data : list Z) (sz : Z) : Message :=
  if decide (sz <= MAX_MESSAGE_SIZE)
  then mkMessage (id m) (senderId m) (receiverId m) (type m)
                 (take (Z.to_nat sz) data) (isBlocking m)
  else m.

Record MessageQueue := mkQueue {
  owner_ : Z;
  messages_ : list Message
}.

Definition MessageQueue_new (owner : Z) : MessageQueue :=
  {| owner_ := owner; messages_ := [] |}.

Definition enqueue (q : MessageQueue) (msg : Message) : MessageQueue :=
  mkQueue (owner_ q) (messages_ q ++ [msg]).

Definition dequeue (q : MessageQueue) : option Message * MessageQueue :=
  match messages_ q with
  | [] => (None, q)
  | msg :: rest => (Some msg, mkQueue (owner_ q) rest)
  end.

Definition peek (q : MessageQueue) : option Message := head (messages_ q).

Record IPCManager := mkIPC {
  messageQueues_ : gmap Z MessageQueue;
  nextMessageId_ : Z;
  totalMessagesSent_ : Z;
  totalMessagesReceived_ : Z
}.

Definition IPCManager_new : IPCManager :=
  {| messageQueues_ := ∅; nextMessageId_ := 1;
     totalMessagesSent_ := 0; totalMessagesReceived_ := 0 |}.

Definition with_queues (qs : gmap Z MessageQueue) (m : IPCManager) : IPCManager :=
  mkIPC qs (nextMessageId_ m) (totalMessagesSent_ m) (totalMessagesReceived_ m).

Definition registerTask (m : IPCManager) (taskId : Z) : bool * IPCManager :=
  match messageQueues_ m !! taskId with
  | Some _ => (false, m)
  | None => (true, with_queues (<[taskId := MessageQueue_new taskId]> (messageQueues_ m)) m)
  end.

Definition unregisterTask (m : IPCManager) (taskId : Z) : bool * IPCManager :=
  match messageQueues_ m !! taskId with
  | None => (false, m)
  | Some _ => (true, with_queues (delete taskId (messageQueues_ m)) m)
  end.

(** [data] is [None] for a null pointer. *)
Definition sendMessage (m : IPCManager) (sender receiver : Z)
    (data : option (list Z)) (sz : Z) (t : MessageType) (blocking : bool)
    : Z * IPCManager :=
  match messageQueues_ m !! receiver with
  | None => (0, m)
  | Some q =>
      let msgId := nextMessageId_ m in
      let msg := set_isBlocking blocking (Message_new msgId sender receiver t) in
      let msg' :=
        match data with
        | Some buf => if decide (sz > 0) then setPayload msg buf sz else msg
        | None => msg
        end in
      (msgId,
       mkIPC (<[receiver := enqueue q msg']> (messageQueues_ m))
             (wrap32 (msgId + 1))
             (wrap64 (totalMessagesSent_ m + 1))
             (totalMessagesReceived_ m))
  end.

Definition sendAsync (m : IPCManager) (sender receiver : Z)
    (data : option (list Z)) (sz : Z) (t : MessageType) : Z * IPCManager :=
  sendMessage m sender receiver data sz t false.

Definition receiveMessage (m : IPCManager) (receiver : Z) (blocking : bool)
    : option Message * IPCManager :=
  match messageQueues_ m !! receiver with
  | None => (None, m)
  | Some q =>
      match dequeue q with
      | (Some msg, q') =>
          (Some msg,
           mkIPC (<[receiver := q']> (messageQueues_ m)) (nextMessageId_ m)
                 (totalMessagesSent_ m) (wrap64 (totalMessagesReceived_ m + 1)))
      | (None, _) => (None, m)
      end
  end.

Definition receiveMessageFrom (m : IPCManager) (receiver sender : Z)
    (blocking : bool) : option Message * IPCManager :=
  match messageQueues_ m !! receiver with
  | None => (None, m)
  | Some q =>
      match peek q with
      | Some msg =>
          if decide (senderId msg = sender) then
            let '(r, q') := dequeue q in
            (r, with_queues (<[receiver := q']> (messageQueues_ m)) m)
          else (None, m)
      | None => (None, m)
      end
  end.

Definition hasMessages (m : IPCManager) (taskId : Z) : bool :=
  match messageQueues_ m !! taskId with
  | None => false
  | Some q => negb (bool_decide (messages_ q = []))
  end.

Definition getMessageCount (m : IPCManager) (taskId : Z) : Z :=
  match messageQueues_ m !! taskId with
  | None => 0
  | Some q => Z.of_nat (length (messages_ q))
  end.

(** The steady clock is the list of the values its successive readings
    return, in nanoseconds; every [now()] takes the next one, and
    [sleep_for] only lets time pass. A call that would still be polling when
    the readings run out has no result. *)
Definition Clock := list Z.

Definition ns_of_ms (ms : Z) : Z := ms * 1000000.

Fixpoint waitReply (clock : Clock) (startTime timeout : Z) (sender receiver : Z)
    (m : IPCManager) : option (option Message * IPCManager * Clock) :=
  match clock with
  | [] => None
  | now :: clock' =>
      if decide (now - startTime < ns_of_ms timeout) then
        let '(reply, m1) := receiveMessageFrom m sender receiver false in
        match reply with
        | Some r =>
            if decide (type r = Response) then Some (Some r, m1, clock')
            else waitReply clock' startTime timeout sender receiver m1
        | None => waitReply clock' startTime timeout sender receiver m1
        end
      else Some (None, m, clock')
  end.

Definition sendAndWaitReply (m : IPCManager) (sender receiver : Z)
    (data : option (list Z)) (sz : Z) (timeout : Z) (clock : Clock)
    : option (option Message * IPCManager * Clock) :=
  let '(msgId, m1) := sendMessage m sender receiver data sz Request true in
  if decide (msgId = 0) then Some (None, m1, clock)
  else
    match clock with
    | [] => None
    | startTime :: clock' => waitReply clock' startTime timeout sender receiver m1
    end.

End IPC.

(** ** Memory manager: the remaining query *)

Module MMExt.
Import MM.

(** The loop of [getTaskMemoryUsage]: the present entries of one table are
    counted, in key order, in a [size_t]. *)
Definition countPresent (es : gmap Z PageTableEntry) : Z :=
  foldl (λ count pe, if present pe.2 then wrap64 (count + 1) else count)
        0 (entries_in_key_order es).

Definition getTaskMemoryUsage (m : MemoryManager) (taskId : Z) : Z :=
  match pageTables_ m !! taskId with
  | None => 0
  | Some pageTable => wrap64 (countPresent (entries pageTable) * PAGE_SIZE)
  end.

End MMExt.

(** ** Vocabulary of the specification *)

Module SchedSpec.
Import Sched.

(** The id is held by the ready structure of the active discipline. *)
Definition in_ready_structure (s : Scheduler) (i : Z) : Prop :=
  match type_ s with
  | RoundRobin => i ∈ readyQueue_ s
  | Priority => ∃ p queue, priorityQueues_ s !! p = Some queue ∧ i ∈ queue
  end.

(** Switching to another discipline keeps every Ready task visible: same
    members, same size, same next task. *)
Definition switch_preserves_ready (s : Scheduler) (ty : SchedulerType) : Prop :=
  type_ s ≠ ty →
  let s' := setSchedulerType s ty in
  (∀ i tcb, tasks_ s !! i = Some tcb → state tcb = Ready → in_ready_structure s' i) ∧
  getReadyQueueSize s' = getReadyQueueSize s ∧
  (selectNextTask s ≠ INVALID_TASK_ID → selectNextTask s' ≠ INVALID_TASK_ID).

(** The state a scheduler of the other discipline would show: what the
    ready structure of discipline [ty] holds in [s]. *)
Definition structure_size (s : Scheduler) (ty : SchedulerType) : Z :=
  getReadyQueueSize (with_type ty s).

Definition structure_head (s : Scheduler) (ty : SchedulerType) : Z :=
  match ty with
  | RoundRobin => selectRoundRobin s
  | Priority => selectPriority s
  end.

End SchedSpec.

Module MMSpec.
Import MM.

(** Task [t] maps virtual page [p] through entry [e]. *)
Definition holds (m : MemoryManager) (t p : Z) (e : PageTableEntry) : Prop :=
  ∃ pt, pageTables_ m !! t = Some pt ∧ entries pt !! p = Some e.

(** Exactly one page-table entry, over all page tables, is present and
    holds frame [i]. *)
Definition uniquely_referenced (m : MemoryManager) (i : nat) : Prop :=
  ∃ t p, references m i t p ∧
         ∀ t' p', references m i t' p' → t' = t ∧ p' = p.

(** The representation invariant behind the frame bitmap: the bitmap has
    its fixed width, every entry is present and holds a frame whose bit is
    set, no frame is held twice, and every set bit is held by an entry. *)
Record consistent (m : MemoryManager) : Prop := mkConsistent {
  cons_width :
    length (frameAllocationMap_ m) = Z.to_nat TOTAL_PHYSICAL_FRAMES;
  cons_entry : ∀ t p e,
    holds m t p e →
    present e = true ∧ 0 ≤ frameNumber e ∧
    frameAllocationMap_ m !! Z.to_nat (frameNumber e) = Some true;
  cons_once : ∀ t p e t' p' e',
    holds m t p e → holds m t' p' e' →
    frameNumber e = frameNumber e' → t = t' ∧ p = p';
  cons_held : ∀ i,
    frameAllocationMap_ m !! i = Some true →
    ∃ t p e, holds m t p e ∧ frameNumber e = Z.of_nat i
}.

End MMSpec.

Module HeapSpec.
Import Heap.

(** The chosen block [b], found at [block], was split for [sz] payload
    bytes: it keeps [sz] bytes and is occupied, a free tail block with the
    remainder less one header follows it in memory and in the list, the old
    successor points back at the tail, and no other header changed. *)
Definition split_outcome (h h' : HeapAllocator) (block sz : Z) (b : BlockHeader)
    : Prop :=
  let newBlock := block + sizeof_BlockHeader + sz in
  heap_headers h' !! block = Some (mkBlock sz false (Some newBlock) (prev b)) ∧
  heap_headers h' !! newBlock =
    Some (mkBlock (size b - sz - sizeof_BlockHeader) true (next b) (Some block)) ∧
  (∀ n nb, next b = Some n → heap_headers h !! n = Some nb →
           heap_headers h' !! n = Some (set_prev (Some newBlock) nb)) ∧
  (∀ a, a ≠ block → a ≠ newBlock → next b ≠ Some a →
        heap_headers h' !! a = heap_headers h !! a) ∧
  allocatedBytes_ h' = wrap64 (allocatedBytes_ h + sz).

(** The chosen block was handed out whole. *)
Definition unsplit_outcome (h h' : HeapAllocator) (block : Z) (b : BlockHeader)
    : Prop :=
  heap_headers h' = <[block := set_isFree false b]> (heap_headers h) ∧
  allocatedBytes_ h' = wrap64 (allocatedBytes_ h + size b).

(** The split rule with the threshold "at least one header plus 8 bytes
    more than the rounded request". *)
Definition splits_when_at_least (h : HeapAllocator) (request : Z) : Prop :=
  ∀ block b,
    findFreeBlock h (align8 request) = Some (Some block) →
    heap_headers h !! block = Some b →
    ∃ h', allocate h request = Some (Some (block + sizeof_BlockHeader), h') ∧
          if decide (size b - align8 request >= sizeof_BlockHeader + 8)
          then split_outcome h h' block (align8 request) b
          else unsplit_outcome h h' block b.

(** The list successor of a block is the block that follows it in memory. *)
Definition successor_adjacent (h : HeapAllocator) (block : Z) (b : BlockHeader)
    : Prop :=
  ∀ n, next b = Some n →
       n = block + sizeof_BlockHeader + size b ∧ is_Some (heap_headers h !! n).

End HeapSpec.

Module IPCSpec.
Import IPC.

(** What a send of more than MAX_MESSAGE_SIZE bytes to a registered
    receiver does: it returns the next message id, which is not 0, and puts
    a message with that id and an empty payload at the tail of the
    receiver's mailbox; the counters advance. *)
Definition oversize_send_contract (m : IPCManager) (sender receiver : Z)
    (data : option (list Z)) (sz : Z) (t : MessageType) (blocking : bool) : Prop :=
  ∀ q, messageQueues_ m !! receiver = Some q →
       sz > MAX_MESSAGE_SIZE →
       let r := sendMessage m sender receiver data sz t blocking in
       r.1 = nextMessageId_ m ∧
       r.1 ≠ 0 ∧
       messageQueues_ r.2 =
         <[receiver := enqueue q (mkMessage r.1 sender receiver t [] blocking)]>
           (messageQueues_ m) ∧
       nextMessageId_ r.2 = wrap32 (nextMessageId_ m + 1) ∧
       totalMessagesSent_ r.2 = wrap64 (totalMessagesSent_ m + 1) ∧
       totalMessagesReceived_ r.2 = totalMessagesReceived_ m.

(** One message sent from task 1 to task 2 and received by task 2. *)
Definition exchange (m : IPCManager) : IPCManager :=
  (receiveMessage (sendMessage m 1 2 None 0 Data false).2 2 false).2.

(** The manager with task 2 registered, after 2^32 - 1 exchanges: the
    32-bit id counter is back at 0. *)
Definition wrapped_manager : IPCManager :=
  {| messageQueues_ := {[ 2 := MessageQueue_new 2 ]};
     nextMessageId_ := 0;
     totalMessagesSent_ := 2 ^ 32 - 1;
     totalMessagesReceived_ := 2 ^ 32 - 1 |}.

(** No message at the head of the sender's own mailbox comes from the
    receiver: no reply is waiting. *)
Definition no_reply_waiting (m : IPCManager) (sender receiver : Z) : Prop :=
  ∀ q msg, messageQueues_ m !! sender = Some q → peek q = Some msg →
           senderId msg ≠ receiver.

End IPCSpec.

(** ** Call sequences and further vocabulary *)

Module IPCCalls.
Import IPC.

(** The calls a client can make on the IPC manager. *)
Inductive Call :=
  | RegisterTask (taskId : Z)
  | UnregisterTask (taskId : Z)
  | SendMessage (sender receiver : Z) (data : option (list Z)) (sz : Z)
                (t : MessageType) (blocking : bool)
  | ReceiveMessage (receiver : Z) (blocking : bool)
  | ReceiveMessageFrom (receiver sender : Z) (blocking : bool).

Definition perform (m : IPCManager) (c : Call) : IPCManager :=
  match c with
  | RegisterTask t => (registerTask m t).2
  | UnregisterTask t => (unregisterTask m t).2
  | SendMessage s r data sz t b => (sendMessage m s r data sz t b).2
  | ReceiveMessage r b => (receiveMessage m r b).2
  | ReceiveMessageFrom r s b => (receiveMessageFrom m r s b).2
  end.


(** One message to send: who sends it, the buffer, the size, the type. *)
Record Outgoing := mkOutgoing {
  out_sender : Z;
  out_data : option (list Z);
  out_size : Z;
  out_type : MessageType;
  out_blocking : bool
}.

(** The sends of [items], in order, all to the same receiver. *)
Definition send_all (m : IPCManager) (receiver : Z) (items : list Outgoing)
    : IPCManager :=
  foldl (λ acc it, (sendMessage acc (out_sender it) receiver (out_data it)
                                (out_size it) (out_type it) (out_blocking it)).2)
        m items.

(** [n] calls of receiveMessage on one mailbox, with what each returned. *)
Fixpoint receive_n (n : nat) (m : IPCManager) (receiver : Z)
    : list (option Message) * IPCManager :=
  match n with
  | O => ([], m)
  | S n' =>
      let r := receiveMessage m receiver false in
      let rest := receive_n n' r.2 receiver in
      (r.1 :: rest.1, rest.2)
  end.

(** The bytes of a buffer that reach the receiver. *)
Definition delivered_payload (data : option (list Z)) (sz : Z) : list Z :=
  match data with
  | Some buf => if decide (0 < sz ≤ MAX_MESSAGE_SIZE) then take (Z.to_nat sz) buf else []
  | None => []
  end.

(** The message the [k]-th item of a batch arrives as, when the batch was
    sent with the id counter at [next]. *)
Definition arrives_as (next receiver : Z) (k : nat) (it : Outgoing) : Message :=
  mkMessage (wrap32 (next + Z.of_nat k)) (out_sender it) receiver (out_type it)
            (delivered_payload (out_data it) (out_size it)) (out_blocking it).

End IPCCalls.

Module MMCalls.
Import MM.

(** The entry through which task [t] maps page [p], if any. *)
Definition entry_of (m : MemoryManager) (t p : Z) : option PageTableEntry :=
  pt ← pageTables_ m !! t; entries pt !! p.

(** A call can change the mapping of [(t, p)]: it names task [t], and page
    [p] when it names a page. *)
Definition concerns (c : Call) (t p : Z) : Prop :=
  match c with
  | CreateAddressSpace t0 | DestroyAddressSpace t0 => t0 = t
  | AllocatePage t0 p0 _ | FreePage t0 p0 | TranslateAddress t0 p0
  | HandlePageFault t0 p0 | SetProtection t0 p0 _ | GetProtection t0 p0 =>
      t0 = t ∧ p0 = p
  end.

(** How many entries of a table are present. *)
Definition present_entries (es : gmap Z PageTableEntry) : nat :=
  length (filter (λ pe : Z * PageTableEntry, present pe.2 = true) (map_to_list es)).

End MMCalls.


Module SchedCalls.
Import Sched SchedSpec.

(** The public operations of the scheduler. *)
Inductive Call :=
  | CreateTask (taskName : string) (prio : TaskPriority)
  | TerminateTask (i : Z)
  | BlockTask (i : Z)
  | UnblockTask (i : Z)
  | Schedule
  | Tick
  | Yield
  | SetSchedulerType (ty : SchedulerType).

(** One call; [None] when the call has no defined result. *)
Definition perform (s : Scheduler) (c : Call) : option Scheduler :=
  match c with
  | CreateTask taskName prio => Some (createTask s taskName prio).2
  | TerminateTask i => snd <$> terminateTask s i
  | BlockTask i => snd <$> blockTask s i
  | UnblockTask i => Some (unblockTask s i).2
  | Schedule => schedule s
  | Tick => tick s
  | Yield => yield s
  | SetSchedulerType ty => Some (setSchedulerType s ty)
  end.

Fixpoint run (s : Scheduler) (calls : list Call) : option Scheduler :=
  match calls with
  | [] => Some s
  | c :: calls' => s' ← perform s c; run s' calls'
  end.

(** [n] timer ticks in a row. *)
Fixpoint ticks (n : nat) (s : Scheduler) : option Scheduler :=
  match n with
  | O => Some s
  | S n' => s' ← tick s; ticks n' s'
  end.

Definition is_create (c : Call) : bool :=
  match c with CreateTask _ _ => true | _ => false end.

(** How many tasks a call sequence creates. *)
Definition creations (calls : list Call) : nat :=
  length (filter (λ c, is_create c = true) calls).

(** The call does not move the scheduler away from discipline [ty]. *)
Definition keeps_discipline (ty : SchedulerType) (c : Call) : Prop :=
  match c with SetSchedulerType ty' => ty' = ty | _ => True end.

(** The id sits in the FIFO or in one of the priority queues, whichever
    discipline is active. *)
Definition queued_anywhere (s : Scheduler) (i : Z) : Prop :=
  i ∈ readyQueue_ s ∨
  ∃ p queue, priorityQueues_ s !! p = Some queue ∧ i ∈ queue.

(** Every queued id has a TCB, and a Running task is the current one. *)
Record safe (s : Scheduler) : Prop := mkSafe {
  safe_queued : ∀ i, queued_anywhere s i → is_Some (tasks_ s !! i);
  safe_running : ∀ i tcb, tasks_ s !! i = Some tcb → state tcb = Running →
                          currentTaskId_ s = i ∧ i ≠ INVALID_TASK_ID
}.

(** The ids the active ready structure holds, queue after queue. *)
Definition ready_ids (s : Scheduler) : list Z :=
  match type_ s with
  | RoundRobin => readyQueue_ s
  | Priority =>
      mjoin ((λ p, default [] (priorityQueues_ s !! p)) <$> priorities_ascending)
  end.

(** How often the active ready structure holds the id. *)
Definition occurrences (s : Scheduler) (i : Z) : nat :=
  length (filter (λ j, j = i) (ready_ids s)).

Definition has_state (s : Scheduler) (i : Z) (st : TaskState) : Prop :=
  ∃ tcb, tasks_ s !! i = Some tcb ∧ state tcb = st.

(** No queue of the active structure holds an id twice, and a priority
    queue holds tasks of its own priority only. *)
Definition structured (s : Scheduler) : Prop :=
  match type_ s with
  | RoundRobin => NoDup (readyQueue_ s)
  | Priority =>
      ∀ p queue, priorityQueues_ s !! p = Some queue →
        NoDup queue ∧
        ∀ i, i ∈ queue → ∃ tcb, tasks_ s !! i = Some tcb ∧ priority tcb = p
  end.

(** The active ready structure is well formed and holds exactly the ids
    that satisfy [R]. *)
Definition holds_exactly (s : Scheduler) (R : Z → Prop) : Prop :=
  structured s ∧ ∀ j, in_ready_structure s j ↔ R j.

(** The ids handed out so far lie below the id counter. *)
Definition ids_below (s : Scheduler) : Prop :=
  0 < nextTaskId_ s ∧ ∀ i, is_Some (tasks_ s !! i) → i < nextTaskId_ s.

(** Under one discipline: the ready structure holds exactly the Ready
    tasks. *)
Definition ready_queued (s : Scheduler) : Prop :=
  holds_exactly s (λ j, has_state s j Ready) ∧ ids_below s.

(** The fields that only createTask and setSchedulerType change. *)
Definition same_frame (s s' : Scheduler) : Prop :=
  type_ s' = type_ s ∧ nextTaskId_ s' = nextTaskId_ s.

(** The edges of the task life cycle. *)
Definition life_cycle_edge (from to : TaskState) : Prop :=
  match from, to with
  | Ready, Running | Running, Ready
  | Ready, Blocked | Running, Blocked | Blocked, Ready => True
  | Terminated, Terminated => False
  | _, Terminated => True
  | _, _ => False
  end.

(** Every task of [s] is still there in [s'], and its state stayed or
    moved as [step] allows. *)
Definition states_move (step : TaskState → TaskState → Prop)
    (s s' : Scheduler) : Prop :=
  ∀ i t, tasks_ s !! i = Some t →
         ∃ t', tasks_ s' !! i = Some t' ∧
               (state t' = state t ∨ step (state t) (state t')).

(** What a context switch does to a state. *)
Definition switch_edge (from to : TaskState) : Prop :=
  (from = Running ∧ to = Ready) ∨ (from = Ready ∧ to = Running).

Definition no_edge (from to : TaskState) : Prop := False.

(** The ids of the tasks of priority [p], when tasks of the names and
    priorities [specs] are created in this order and the first of them gets
    the id [first]. *)
Fixpoint ids_of_priority (p : TaskPriority)
    (specs : list (string * TaskPriority)) (first : Z) : list Z :=
  match specs with
  | [] => []
  | sp :: rest =>
      if decide (sp.2 = p) then first :: ids_of_priority p rest (first + 1)
      else ids_of_priority p rest (first + 1)
  end.

(** One createTask call for each entry of [specs]. *)
Definition create_calls (specs : list (string * TaskPriority)) : list Call :=
  (λ sp, CreateTask sp.1 sp.2) <$> specs.

(** The call neither blocks nor terminates task [c], and does not leave
    the round-robin discipline. *)
Definition spares (c : Z) (call : Call) : Prop :=
  match call with
  | TerminateTask i | BlockTask i => i ≠ c
  | SetSchedulerType ty => ty = RoundRobin
  | _ => True
  end.

(** The current task is itself the head of the round-robin FIFO. *)
Definition current_heads_queue (s : Scheduler) (c : Z) : Prop :=
  type_ s = RoundRobin ∧ currentTaskId_ s = c ∧ head (readyQueue_ s) = Some c.

End SchedCalls.

Module HeapCalls.
Import Heap.


(** The blocks of the arena in address order, each with its payload size
    and its free flag. *)
Definition Blocks := list (Z * bool).

(** The bytes a run of blocks takes up, headers included. *)
Fixpoint span (bl : Blocks) : Z :=
  match bl with
  | [] => 0
  | (sz, _) :: rest => sizeof_BlockHeader + sz + span rest
  end.

(** The payload bytes of the blocks in use. *)
Fixpoint used (bl : Blocks) : Z :=
  match bl with
  | [] => 0
  | (sz, fr) :: rest => (if fr then 0 else sz) + used rest
  end.

(** The pointer to the block at [o], null at the end of the arena. *)
Definition next_of (o stop : Z) : option Z :=
  if decide (o = stop) then None else Some o.

(** The headers of the blocks [bl], laid out from offset [off] on, are
    in the arena, each with its size and flag, linked forward to the block
    that follows it in memory (null for the block that ends the arena at
    [stop]) and backward to the block before it ([prv] for the first). *)
Fixpoint links (hs : gmap Z BlockHeader) (stop off : Z) (prv : option Z)
    (bl : Blocks) : Prop :=
  match bl with
  | [] => True
  | (sz, fr) :: rest =>
      0 ≤ sz ∧
      hs !! off
        = Some (mkBlock sz fr (next_of (off + sizeof_BlockHeader + sz) stop) prv) ∧
      links hs stop (off + sizeof_BlockHeader + sz) (Some off) rest
  end.

(** The block before offset [off + span bl]: the last of [bl]. *)
Fixpoint last_ptr (off : Z) (prv : option Z) (bl : Blocks) : option Z :=
  match bl with
  | [] => prv
  | (sz, _) :: rest => last_ptr (off + sizeof_BlockHeader + sz) (Some off) rest
  end.

(** No two neighbours are both free. *)
Fixpoint merged (bl : Blocks) : Prop :=
  match bl with
  | (_, fr1) :: (((_, fr2) :: _) as rest) => ¬ (fr1 = true ∧ fr2 = true) ∧ merged rest
  | _ => True
  end.

(** The addresses handed out for the blocks in use. *)
Fixpoint live_ptrs (off : Z) (bl : Blocks) : list Z :=
  match bl with
  | [] => []
  | (sz, fr) :: rest =>
      (if fr then [] else [off + sizeof_BlockHeader])
        ++ live_ptrs (off + sizeof_BlockHeader + sz) rest
  end.

(** The block first-fit chooses for [sz] bytes. *)
Fixpoint first_fit (off : Z) (bl : Blocks) (sz : Z) : option Z :=
  match bl with
  | [] => None
  | (s, fr) :: rest =>
      if fr && bool_decide (s >= sz) then Some off
      else first_fit (off + sizeof_BlockHeader + s) rest sz
  end.

(** The allocator's list is the sequence [bl] of blocks: they tile the
    arena from its first byte to its last, the list starts at the first
    block, and the accounting is the payload in use. *)
Record tiled (h : HeapAllocator) (bl : Blocks) : Prop := mkTiled {
  tl_list : freeList_ h = Some 0;
  tl_links : links (heap_headers h) (heapSize_ h) 0 None bl;
  tl_span : span bl = heapSize_ h;
  tl_size : 0 < heapSize_ h < 2 ^ 64;
  tl_used : allocatedBytes_ h = used bl
}.

(** Between two calls, free neighbours have also been merged. *)
Definition well_formed (h : HeapAllocator) (bl : Blocks) : Prop :=
  tiled h bl ∧ merged bl.

(** The two halves of [coalesce]: the block absorbs a free successor,
    then a free predecessor absorbs the block. *)
Definition merge_next (h : HeapAllocator) (block : Z) : option HeapAllocator :=
  b ← heap_headers h !! block;
  match next b with
  | None => Some h
  | Some n =>
      nb ← heap_headers h !! n;
      if isFree nb then
        ha ← store block
               (λ x, set_size (wrap64 (size x + (sizeof_BlockHeader + size nb))) x) h;
        ba ← heap_headers ha !! block;
        na ← next ba;
        nba ← heap_headers ha !! na;
        hb ← store block (set_next (next nba)) ha;
        b' ← heap_headers hb !! block;
        match next b' with
        | Some n' => store n' (set_prev (Some block)) hb
        | None => Some hb
        end
      else Some h
  end.

Definition merge_prev (h1 : HeapAllocator) (block : Z) : option HeapAllocator :=
  b1 ← heap_headers h1 !! block;
  match prev b1 with
  | None => Some h1
  | Some p =>
      pb ← heap_headers h1 !! p;
      if isFree pb then
        ha ← store p
               (λ x, set_size (wrap64 (size x + (sizeof_BlockHeader + size b1))) x) h1;
        b2 ← heap_headers ha !! block;
        hb ← store p (set_next (next b2)) ha;
        b3 ← heap_headers hb !! block;
        match next b3 with
        | Some n' => store n' (set_prev (prev b3)) hb
        | None => Some hb
        end
      else Some h1
  end.

(** The first block of a run, if any, is in use. *)
Definition head_used (bl : Blocks) : Prop :=
  match bl with (_, true) :: _ => False | _ => True end.

(** The allocators a client reaches from a fresh heap, with the pointers
    that are live: [allocate] for a request of 1 to 2^63 - 1 bytes, [free]
    of a live pointer, and [reallocate] of a live pointer to such a
    size. *)
Inductive reach : HeapAllocator → list Z → Prop :=
  | reach_new (heapSize : Z) :
      sizeof_BlockHeader ≤ heapSize < 2 ^ 64 →
      reach (HeapAllocator_new heapSize) []
  | reach_allocate (h h' : HeapAllocator) (live : list Z) (request p : Z) :
      reach h live → 0 < request < 2 ^ 63 →
      allocate h request = Some (Some p, h') →
      reach h' (p :: live)
  | reach_free (h h' : HeapAllocator) (live : list Z) (p : Z) :
      reach h live → p ∈ live →
      free h (Some p) = Some h' →
      reach h' (filter (λ q, q ≠ p) live)
  | reach_reallocate (h h' : HeapAllocator) (live : list Z) (p newSize q : Z) :
      reach h live → p ∈ live → 0 < newSize < 2 ^ 63 →
      reallocate h (Some p) newSize = Some (Some q, h') →
      reach h' (q :: filter (λ x, x ≠ p) live).

End HeapCalls.
(** ** Properties of the scheduler *)

Section SchedulerProperties.
Import Sched SchedSpec.

Lemma with_type_same (s : Scheduler) : with_type (type_ s) s = s.
Proof. by destruct s. Qed.

Lemma setSchedulerType_fields (s : Scheduler) (ty : SchedulerType) :
  setSchedulerType s ty = with_type ty s.
Proof.
  unfold setSchedulerType. case_decide as Hne; [done|].
  subst ty. by rewrite with_type_same.
Qed.

(** C1, as stated, fails: one Normal task created under round-robin is
    Ready and queued; after the switch to the priority discipline the ready
    structure is empty and no task is selected. *)
Lemma switch_loses_ready_tasks :
  ¬ switch_preserves_ready
      (createTask (Scheduler_new RoundRobin) "T1" Normal).2 Priority.
Proof.
  intros H. destruct H as (_ & Hsize & _); [discriminate|].
  vm_compute in Hsize. discriminate.
Qed.

(** C1, amended: setSchedulerType only replaces the active discipline. The
    task table and both ready structures are left as they were, so the
    ready size and the next task after the switch are those of the new
    discipline's own structure as it stood before the call, and switching
    back gives the original scheduler again. *)
Theorem setSchedulerType_only_switches (s : Scheduler) (ty : SchedulerType) :
  let s' := setSchedulerType s ty in
  type_ s' = ty ∧
  tasks_ s' = tasks_ s ∧
  readyQueue_ s' = readyQueue_ s ∧
  priorityQueues_ s' = priorityQueues_ s ∧
  currentTaskId_ s' = currentTaskId_ s ∧
  getReadyQueueSize s' = structure_size s ty ∧
  selectNextTask s' = structure_head s ty ∧
  setSchedulerType s' (type_ s) = s.
Proof.
  cbv zeta. rewrite !setSchedulerType_fields.
  repeat split; try done; try (by destruct ty).
  destruct s; reflexivity.
Qed.

(** C2: round-robin rotation. Three Normal tasks created in order on a
    fresh round-robin scheduler: schedule makes the first one current, and
    each yield moves on to the next, back to the first after the third; the
    task that was running is Ready again and sits at the tail of the FIFO. *)
Theorem round_robin_rotation (n1 n2 n3 : string) :
  let c1 := createTask (Scheduler_new RoundRobin) n1 Normal in
  let c2 := createTask c1.2 n2 Normal in
  let c3 := createTask c2.2 n3 Normal in
  let T1 := c1.1 in let T2 := c2.1 in let T3 := c3.1 in
  ∃ sa sb sc sd,
    schedule c3.2 = Some sa ∧
    currentTaskId_ sa = T1 ∧ id <$> getCurrentTask sa = Some T1 ∧
    state <$> getCurrentTask sa = Some Running ∧ readyQueue_ sa = [T2; T3] ∧
    yield sa = Some sb ∧
    currentTaskId_ sb = T2 ∧ id <$> getCurrentTask sb = Some T2 ∧
    state <$> getTask sb T1 = Some Ready ∧ readyQueue_ sb = [T3; T1] ∧
    yield sb = Some sc ∧
    currentTaskId_ sc = T3 ∧ id <$> getCurrentTask sc = Some T3 ∧
    state <$> getTask sc T2 = Some Ready ∧ readyQueue_ sc = [T1; T2] ∧
    yield sc = Some sd ∧
    currentTaskId_ sd = T1 ∧ id <$> getCurrentTask sd = Some T1 ∧
    state <$> getTask sd T3 = Some Ready ∧ readyQueue_ sd = [T2; T3].
Proof.
  cbv zeta.
  eexists _, _, _, _.
  repeat (split; [vm_compute; reflexivity|]).
  vm_compute; reflexivity.
Qed.

Lemma erase_first_subseteq (x : Z) (q : list Z) : erase_first x q ⊆ q.
Proof.
  induction q as [|y q IH]; simpl; [done|].
  intros z Hz. destruct (decide (y = x)).
  - by right.
  - apply elem_of_cons in Hz as [->|Hz]; [by left|].
    right. by apply IH.
Qed.

Lemma selectPriority_from_member ps (pq : gmap TaskPriority (list Z)) :
  selectPriority_from ps pq = INVALID_TASK_ID ∨
  ∃ p queue, pq !! p = Some queue ∧ selectPriority_from ps pq ∈ queue.
Proof.
  induction ps as [|p ps IH]; simpl; [by left|].
  destruct (pq !! p) as [[|front queue]|] eqn:Hp; [done| |done].
  right. exists p, (front :: queue). split; [done|]. by left.
Qed.

Lemma selectNextTask_member (s : Scheduler) :
  selectNextTask s = INVALID_TASK_ID ∨ in_ready_structure s (selectNextTask s).
Proof.
  unfold selectNextTask, in_ready_structure.
  destruct (type_ s).
  - unfold selectRoundRobin. destruct (readyQueue_ s); [by left|].
    right. by left.
  - apply selectPriority_from_member.
Qed.

Lemma removeFromPriorityQueues_member i keys (pq : gmap TaskPriority (list Z)) p queue j :
  removeFromPriorityQueues i keys pq !! p = Some queue → j ∈ queue →
  ∃ queue0, pq !! p = Some queue0 ∧ j ∈ queue0.
Proof.
  induction keys as [|k keys IH]; simpl; [by eauto|].
  destruct (pq !! k) as [qk|] eqn:Hk; [|done].
  case_decide; [|done].
  intros Hp Hj. destruct (decide (k = p)) as [->|Hne].
  - rewrite lookup_insert_eq in Hp. injection Hp as <-.
    exists qk. split; [done|]. by eapply erase_first_subseteq.
  - rewrite lookup_insert_ne in Hp by done. eauto.
Qed.

Lemma removeFromReadyQueue_member (s : Scheduler) (i j : Z) :
  in_ready_structure (removeFromReadyQueue s i) j → in_ready_structure s j.
Proof.
  unfold in_ready_structure, removeFromReadyQueue.
  destruct s as [ty nxt cur ts rq pq tc run]; destruct ty;
    cbn [type_ with_readyQueue with_priorityQueues readyQueue_ priorityQueues_].
  - apply erase_first_subseteq.
  - intros (p & queue & Hp & Hj).
    destruct (removeFromPriorityQueues_member _ _ _ _ _ _ Hp Hj) as (q0 & ? & ?).
    by exists p, q0.
Qed.

(** C9: blocking the current task while the ready structure holds no other
    task succeeds, and leaves it as the current task: currentTaskId_ is
    unchanged and getCurrentTask returns its TCB, whose state is Blocked. *)
Theorem block_current_without_successor (s : Scheduler) (i : Z)
    (tcb : TaskControlBlock) :
  currentTaskId_ s = i →
  i ≠ INVALID_TASK_ID →
  tasks_ s !! i = Some tcb →
  state tcb = Running ∨ state tcb = Ready →
  (∀ j, in_ready_structure s j → j = i) →
  ∃ s', blockTask s i = Some (true, s') ∧
        currentTaskId_ s' = i ∧
        getCurrentTask s' = Some (set_state Blocked tcb) ∧
        state <$> getCurrentTask s' = Some Blocked.
Proof.
  intros Hcur Hvalid Htcb Hstate Hready.
  unfold blockTask. rewrite Htcb.
  case_decide as Hbad; [destruct Hbad, Hstate; congruence|].
  set (s1 := removeFromReadyQueue (update_task i (set_state Blocked) s) i).
  assert (Hcur1 : currentTaskId_ s1 = i).
  { subst s1. unfold removeFromReadyQueue. by destruct (type_ _). }
  assert (Htasks1 : tasks_ s1 !! i = Some (set_state Blocked tcb)).
  { subst s1. unfold removeFromReadyQueue.
    destruct (type_ _); simpl; by rewrite lookup_alter_eq, Htcb. }
  assert (Hsched : schedule s1 = Some s1).
  { unfold schedule. case_decide; [done|].
    case_decide as Hother; [done|]. exfalso. apply Hother. rewrite Hcur1.
    destruct (selectNextTask_member s1) as [?|Hin]; [done|].
    apply Hready. subst s1.
    apply removeFromReadyQueue_member in Hin.
    revert Hin. unfold in_ready_structure, update_task. by destruct s. }
  rewrite decide_True by done.
  rewrite Hsched. simpl. exists s1.
  assert (Hget : getCurrentTask s1 = Some (set_state Blocked tcb)).
  { unfold getCurrentTask. rewrite Hcur1. by rewrite decide_False. }
  by rewrite Hget.
Qed.

(** C9, at a concrete scheduler: one task, scheduled, then blocked. *)
Lemma block_current_without_successor_witness :
  let s := (createTask (Scheduler_new RoundRobin) "only" Normal).2 in
  ∃ sa s', schedule s = Some sa ∧
           blockTask sa 1 = Some (true, s') ∧ currentTaskId_ s' = 1 ∧
           state <$> getCurrentTask s' = Some Blocked.
Proof.
  eexists _. 
  destruct (block_current_without_successor
              (mkScheduler RoundRobin 2 1
                 {[ 1 := set_state Running (TaskControlBlock_new 1 "only" Normal) ]}
                 [] ∅ 0 false)
              1 (set_state Running (TaskControlBlock_new 1 "only" Normal)))
    as (s' & Hb & Hc & _ & Hs).
  - reflexivity.
  - vm_compute. discriminate.
  - reflexivity.
  - left. reflexivity.
  - intros j Hj. vm_compute in Hj. by apply elem_of_nil in Hj.
  - exists s'. split; [vm_compute; reflexivity|]. done.
Defined.

End SchedulerProperties.

(** ** Properties of the memory manager *)

Section MemoryManagerProperties.
Import MM MMSpec.

Lemma references_holds (m : MemoryManager) (i : nat) (t p : Z) :
  references m i t p ↔
  ∃ e, holds m t p e ∧ frameNumber e = Z.of_nat i ∧ present e = true.
Proof.
  unfold references, holds. split.
  - intros (pt & e & ? & ? & ? & ?). exists e. eauto.
  - intros (e & (pt & ? & ?) & ? & ?). exists pt, e. eauto.
Qed.

(** What the entries look like after the table of task [t] was replaced. *)
Lemma holds_update (m m' : MemoryManager) (t : Z) (pt : PageTable)
    (es' : gmap Z PageTableEntry) :
  pageTables_ m !! t = Some pt →
  pageTables_ m' = <[t := with_entries es' pt]> (pageTables_ m) →
  ∀ t0 p0 e0,
    holds m' t0 p0 e0 ↔
    (t0 = t ∧ es' !! p0 = Some e0) ∨ (t0 ≠ t ∧ holds m t0 p0 e0).
Proof.
  intros Hpt Hnew t0 p0 e0. unfold holds. rewrite Hnew.
  destruct (decide (t0 = t)) as [->|Hne].
  - rewrite lookup_insert_eq. split.
    + intros (pt' & [= <-] & He). by left.
    + intros [[_ He]|[? _]]; [|done]. by eexists.
  - rewrite lookup_insert_ne by done. split.
    + intros H. by right.
    + intros [[? _]|[_ H]]; done.
Qed.

(** A transition that leaves the bitmap alone and keeps, entry by entry,
    the frame numbers and present flags, keeps the invariant. *)
Lemma consistent_same_frames (m m' : MemoryManager) :
  consistent m →
  frameAllocationMap_ m' = frameAllocationMap_ m →
  (∀ t p e', holds m' t p e' →
     ∃ e, holds m t p e ∧ frameNumber e' = frameNumber e ∧ present e' = present e) →
  (∀ t p e, holds m t p e → ∃ e', holds m' t p e' ∧ frameNumber e' = frameNumber e) →
  consistent m'.
Proof.
  intros [Hw He Ho Hh] Hfm Hback Hfwd. split.
  - by rewrite Hfm.
  - intros t p e' H'. destruct (Hback _ _ _ H') as (e & H & Hf & Hp).
    rewrite Hfm, Hf, Hp. eauto.
  - intros t p e1 t' p' e2 H1 H2 Heq.
    destruct (Hback _ _ _ H1) as (e1' & H1' & Hf1 & _).
    destruct (Hback _ _ _ H2) as (e2' & H2' & Hf2 & _).
    eapply Ho; [exact H1'|exact H2'|congruence].
  - intros i Hi. rewrite Hfm in Hi.
    destruct (Hh _ Hi) as (t & p & e & H & Hf).
    destruct (Hfwd _ _ _ H) as (e' & H' & Hf').
    exists t, p, e'. split; [done|congruence].
Qed.

Lemma consistent_new (arenaBase : Z) : consistent (MemoryManager_new arenaBase).
Proof.
  split.
  - unfold MemoryManager_new; cbn [frameAllocationMap_]. apply length_replicate.
  - intros t p e (pt & Hpt & _). unfold MemoryManager_new in Hpt.
    cbn [pageTables_] in Hpt. by rewrite lookup_empty in Hpt.
  - intros t p e t' p' e' (pt & Hpt & _). unfold MemoryManager_new in Hpt.
    cbn [pageTables_] in Hpt. by rewrite lookup_empty in Hpt.
  - intros i Hi. unfold MemoryManager_new in Hi. cbn [frameAllocationMap_] in Hi.
    apply lookup_replicate in Hi as [? _]. done.
Qed.

Lemma consistent_createAddressSpace (m : MemoryManager) (t : Z) :
  consistent m → consistent (createAddressSpace m t).2.
Proof.
  intros Hc. unfold createAddressSpace.
  destruct (pageTables_ m !! t) eqn:Ht; [done|]. simpl.
  assert (Hiff : ∀ t0 p0 e0,
             holds (with_pageTables (<[t := mkPageTable ∅ t]> (pageTables_ m)) m) t0 p0 e0
             ↔ holds m t0 p0 e0).
  { intros t0 p0 e0. unfold holds. simpl.
    destruct (decide (t0 = t)) as [->|Hne].
    - rewrite lookup_insert_eq, Ht. split.
      + intros (pt & [= <-] & He). simpl in He. by rewrite lookup_empty in He.
      + intros (pt & ? & _). done.
    - by rewrite lookup_insert_ne. }
  apply (consistent_same_frames m); [done|done| |].
  - intros t0 p0 e' H. apply Hiff in H. eauto.
  - intros t0 p0 e H. apply Hiff in H. eauto.
Qed.

Lemma allocateFrame_Some (m m1 : MemoryManager) (f : Z) :
  allocateFrame m = (Some f, m1) →
  ∃ i : nat, f = Z.of_nat i ∧ frameAllocationMap_ m !! i = Some false ∧
             m1 = with_frameMap (<[i := true]> (frameAllocationMap_ m)) m.
Proof.
  unfold allocateFrame.
  destruct (list_find _ _) as [[i b]|] eqn:Hf; [|done].
  intros [= <- <-]. apply list_find_Some in Hf as (Hi & -> & _). eauto.
Qed.

Lemma allocatePage_None (m m' : MemoryManager) (t p : Z) (prot : MemoryProtection) :
  allocatePage m t p prot = (None, m') → m' = m.
Proof.
  unfold allocatePage.
  destruct (pageTables_ m !! t) as [pt|]; [|by intros [= <-]].
  destruct (entries pt !! p) as [[f [] d a pr]|];
    try (by intros [= <-]);
    destruct (allocateFrame m) as [[f'|] m1]; by intros [= <-].
Qed.

(** The shape of a successful allocatePage. *)
Lemma allocatePage_Some (m m' : MemoryManager) (t p : Z) (prot : MemoryProtection)
    (addr : Z) :
  allocatePage m t p prot = (Some addr, m') →
  ∃ pt (i : nat),
    pageTables_ m !! t = Some pt ∧
    (∀ e, entries pt !! p = Some e → present e = false) ∧
    frameAllocationMap_ m !! i = Some false ∧
    addr = physicalMemory_data m + Z.of_nat i * PAGE_SIZE ∧
    m' = mkMM (physicalMemory_data m)
              (<[i := true]> (frameAllocationMap_ m))
              (<[t := with_entries
                        (<[p := mkPTE (Z.of_nat i) true false false prot]> (entries pt))
                        pt]> (pageTables_ m))
              (wrap64 (totalAllocatedPages_ m + 1))
              (pageFaultCount_ m).
Proof.
  unfold allocatePage.
  destruct (pageTables_ m !! t) as [pt|] eqn:Hpt; [|done].
  assert (Hcont :
    match allocateFrame m with
    | (None, _) => (None, m)
    | (Some frame, m1) =>
        (Some (physicalMemory_data m + frame * PAGE_SIZE),
         with_totalAllocatedPages
           (wrap64 (totalAllocatedPages_
              (with_pageTables
                 (<[t := with_entries
                           (<[p := mkPTE frame true false false prot]> (entries pt)) pt]>
                    (pageTables_ m1)) m1) + 1))
           (with_pageTables
              (<[t := with_entries
                        (<[p := mkPTE frame true false false prot]> (entries pt)) pt]>
                 (pageTables_ m1)) m1))
    end = (Some addr, m') →
    ∃ i : nat, frameAllocationMap_ m !! i = Some false ∧
      addr = physicalMemory_data m + Z.of_nat i * PAGE_SIZE ∧
      m' = mkMM (physicalMemory_data m)
              (<[i := true]> (frameAllocationMap_ m))
              (<[t := with_entries
                        (<[p := mkPTE (Z.of_nat i) true false false prot]> (entries pt))
                        pt]> (pageTables_ m))
              (wrap64 (totalAllocatedPages_ m + 1))
              (pageFaultCount_ m)).
  { destruct (allocateFrame m) as [[f|] m1] eqn:Hfr; [|done].
    apply allocateFrame_Some in Hfr as (i & -> & Hi & ->).
    intros [= <- <-]. exists i. done. }
  destruct (entries pt !! p) as [[f [] d a pr]|] eqn:He; [done| |].
  - intros H. destruct (Hcont H) as (i & ? & ? & ?).
    exists pt, i. split; [done|]. split; [|done].
    intros e Heq. rewrite He in Heq. injection Heq as <-. done.
  - intros H. destruct (Hcont H) as (i & ? & ? & ?).
    exists pt, i. split; [done|]. split; [|done].
    intros e Heq. rewrite He in Heq. done.
Qed.

Lemma consistent_allocatePage (m : MemoryManager) (t p : Z) (prot : MemoryProtection) :
  consistent m → consistent (allocatePage m t p prot).2.
Proof.
  intros Hc.
  destruct (allocatePage m t p prot) as [[addr|] m'] eqn:Hal; simpl;
    [|by apply allocatePage_None in Hal; subst].
  apply allocatePage_Some in Hal as (pt & i & Hpt & Hfresh & Hi & _ & ->).
  destruct Hc as [Hw He Ho Hh].
  assert (Hlt : (i < length (frameAllocationMap_ m))%nat)
    by (eapply lookup_lt_Some; eauto).
  assert (Hnone : entries pt !! p = None).
  { destruct (entries pt !! p) as [e|] eqn:Hep; [|done].
    destruct (He t p e) as (Hpr & _); [by exists pt|].
    pose proof (Hfresh e eq_refl) as Hnp. congruence. }
  set (entry := mkPTE (Z.of_nat i) true false false prot).
  set (m' := mkMM _ _ _ _ _).
  assert (Hiff : ∀ t0 p0 e0, holds m' t0 p0 e0 ↔
            (t0 = t ∧ p0 = p ∧ e0 = entry) ∨
            (¬ (t0 = t ∧ p0 = p) ∧ holds m t0 p0 e0)).
  { intros t0 p0 e0.
    rewrite (holds_update m m' t pt _ Hpt eq_refl).
    destruct (decide (p0 = p)) as [->|Hp].
    - rewrite lookup_insert_eq. split.
      + intros [[-> [= <-]]|[? ?]]; [by left|]. right. split; [|done]. tauto.
      + intros [(-> & _ & ->)|[Hn H]]; [by left|].
        right. split; [|done]. intros ->. tauto.
    - rewrite lookup_insert_ne by done. split.
      + intros [[-> H]|[? H]]; right; (split; [tauto|]); [by exists pt|done].
      + intros [(_ & ? & _)|[_ H]]; [done|].
        destruct (decide (t0 = t)) as [->|]; [|by right].
        left. split; [done|]. destruct H as (pt' & Hpt' & H).
        rewrite Hpt in Hpt'. by injection Hpt' as <-. }
  split.
  - subst m'. cbn [frameAllocationMap_]. by rewrite length_insert.
  - intros t0 p0 e0 [(-> & -> & ->)|[_ H]]%Hiff; subst m'; cbn [frameAllocationMap_].
    + cbn. rewrite Nat2Z.id. split_and!; [done|lia|].
      by apply list_lookup_insert_eq.
    + destruct (He _ _ _ H) as (? & ? & Hbit). split_and!; [done..|].
      rewrite list_lookup_insert_ne; [done|].
      intros Heq. rewrite <- Heq in Hbit. congruence.
  - intros t1 p1 e1 t2 p2 e2 H1%Hiff H2%Hiff Heq.
    destruct H1 as [(-> & -> & ->)|[_ H1]], H2 as [(-> & -> & ->)|[_ H2]].
    + done.
    + destruct (He _ _ _ H2) as (_ & _ & Hbit).
      rewrite <- Heq in Hbit. cbn in Hbit. rewrite Nat2Z.id, Hi in Hbit. done.
    + destruct (He _ _ _ H1) as (_ & _ & Hbit).
      rewrite Heq in Hbit. cbn in Hbit. rewrite Nat2Z.id, Hi in Hbit. done.
    + by eapply Ho.
  - intros j Hj. subst m'. cbn [frameAllocationMap_] in Hj.
    destruct (decide (i = j)) as [<-|Hne].
    + exists t, p, entry. split; [|done]. apply Hiff. by left.
    + rewrite list_lookup_insert_ne in Hj by done.
      destruct (Hh _ Hj) as (t0 & p0 & e0 & H & Hf).
      exists t0, p0, e0. split; [|done]. apply Hiff. right. split; [|done].
      intros [-> ->]. destruct H as (pt' & Hpt' & H).
      rewrite Hpt in Hpt'. injection Hpt' as <-. rewrite Hnone in H. done.
Qed.

Lemma freePage_false (m m' : MemoryManager) (t p : Z) :
  freePage m t p = (false, m') → m' = m.
Proof.
  unfold freePage.
  destruct (pageTables_ m !! t) as [pt|]; [|by intros [= <-]].
  destruct (entries pt !! p) as [[f [] d a pr]|]; [done|by intros [= <-]..].
Qed.

(** The shape of a successful freePage. *)
Lemma freePage_true (m m' : MemoryManager) (t p : Z) :
  freePage m t p = (true, m') →
  ∃ pt e,
    pageTables_ m !! t = Some pt ∧ entries pt !! p = Some e ∧ present e = true ∧
    m' = mkMM (physicalMemory_data m)
              (frameAllocationMap_ (freeFrame m (frameNumber e)).2)
              (<[t := with_entries (delete p (entries pt)) pt]> (pageTables_ m))
              (wrap64 (totalAllocatedPages_ m - 1))
              (pageFaultCount_ m).
Proof.
  unfold freePage.
  destruct (pageTables_ m !! t) as [pt|] eqn:Hpt; [|done].
  destruct (entries pt !! p) as [[f [] d a pr]|] eqn:He; [|done..].
  intros [= <-]. exists pt, (mkPTE f true d a pr). split_and!; try done.
  cbn [frameNumber]. unfold freeFrame. by case_decide.
Qed.

Lemma consistent_freePage (m : MemoryManager) (t p : Z) :
  consistent m → consistent (freePage m t p).2.
Proof.
  intros Hc.
  destruct (freePage m t p) as [[] m'] eqn:Hfree; simpl;
    [|by apply freePage_false in Hfree; subst].
  apply freePage_true in Hfree as (pt & e & Hpt & Hep & _ & ->).
  destruct Hc as [Hw He Ho Hh].
  assert (Hhold : holds m t p e) by (by exists pt).
  destruct (He _ _ _ Hhold) as (_ & Hnn & Hbit).
  assert (Hlt : frameNumber e < TOTAL_PHYSICAL_FRAMES).
  { apply lookup_lt_Some in Hbit. rewrite Hw in Hbit. lia. }
  assert (Hfm : frameAllocationMap_ (freeFrame m (frameNumber e)).2
                = <[Z.to_nat (frameNumber e) := false]> (frameAllocationMap_ m)).
  { unfold freeFrame. case_decide; [lia|done]. }
  rewrite Hfm. set (m' := mkMM _ _ _ _ _).
  assert (Hiff : ∀ t0 p0 e0, holds m' t0 p0 e0 ↔
            ¬ (t0 = t ∧ p0 = p) ∧ holds m t0 p0 e0).
  { intros t0 p0 e0.
    rewrite (holds_update m m' t pt _ Hpt eq_refl).
    destruct (decide (p0 = p)) as [->|Hp].
    - rewrite lookup_delete_eq. split.
      + intros [[_ ?]|[? H]]; [done|]. split; [tauto|done].
      + intros [Hn H]. right. split; [|done]. intros ->. tauto.
    - rewrite lookup_delete_ne by done. split.
      + intros [[-> H]|[? H]]; (split; [tauto|]); [by exists pt|done].
      + intros [_ H]. destruct (decide (t0 = t)) as [->|]; [|by right].
        left. split; [done|]. destruct H as (pt' & Hpt' & H).
        rewrite Hpt in Hpt'. by injection Hpt' as <-. }
  split.
  - subst m'. cbn [frameAllocationMap_]. by rewrite length_insert.
  - intros t0 p0 e0 [Hn H]%Hiff. subst m'. cbn [frameAllocationMap_].
    destruct (He _ _ _ H) as (? & ? & Hbit0). split_and!; [done..|].
    rewrite list_lookup_insert_ne; [done|].
    intros Heq. apply Hn. eapply Ho; [done..|]. lia.
  - intros t1 p1 e1 t2 p2 e2 [_ H1]%Hiff [_ H2]%Hiff. by eapply Ho.
  - intros j Hj. subst m'. cbn [frameAllocationMap_] in Hj.
    destruct (decide (Z.to_nat (frameNumber e) = j)) as [<-|Hne].
    + rewrite list_lookup_insert_eq in Hj; [done|by eapply lookup_lt_Some].
    + rewrite list_lookup_insert_ne in Hj by done.
      destruct (Hh _ Hj) as (t0 & p0 & e0 & H & Hf).
      exists t0, p0, e0. split; [|done]. apply Hiff. split; [|done].
      intros [-> ->]. destruct H as (pt' & Hpt' & H).
      rewrite Hpt in Hpt'. injection Hpt' as <-.
      rewrite Hep in H. injection H as <-. lia.
Qed.

(** An in-place edit of one entry that keeps its frame and present flag. *)
Lemma consistent_alter (m : MemoryManager) (t p : Z) (pt : PageTable)
    (f : PageTableEntry → PageTableEntry) :
  (∀ e, frameNumber (f e) = frameNumber e ∧ present (f e) = present e) →
  pageTables_ m !! t = Some pt →
  consistent m →
  consistent (with_pageTables
                (<[t := with_entries (alter f p (entries pt)) pt]> (pageTables_ m)) m).
Proof.
  intros Hf Hpt Hc. set (m' := with_pageTables _ m).
  assert (Hup := holds_update m m' t pt _ Hpt eq_refl).
  apply (consistent_same_frames m); [done|done| |].
  - intros t0 p0 e' [[-> He']|[_ H]]%Hup; [|by eauto].
    destruct (decide (p0 = p)) as [->|Hp].
    + rewrite lookup_alter_eq in He'.
      destruct (entries pt !! p) as [e|] eqn:He; [|done].
      injection He' as <-. exists e. destruct (Hf e). split_and!; [|done..].
      by exists pt.
    + rewrite lookup_alter_ne in He' by done. exists e'.
      split_and!; [|done..]. by exists pt.
  - intros t0 p0 e (pt0 & Hpt0 & He).
    destruct (decide (t0 = t)) as [->|Ht].
    + rewrite Hpt in Hpt0. injection Hpt0 as <-.
      destruct (decide (p0 = p)) as [->|Hp].
      * exists (f e). split; [|by destruct (Hf e)].
        apply Hup. left. split; [done|]. by rewrite lookup_alter_eq, He.
      * exists e. split; [|done].
        apply Hup. left. split; [done|]. by rewrite lookup_alter_ne.
    + exists e. split; [|done]. apply Hup. right. split; [done|]. by exists pt0.
Qed.

Lemma consistent_translateAddress (m : MemoryManager) (t p : Z) :
  consistent m → consistent (translateAddress m t p).2.
Proof.
  intros Hc. unfold translateAddress.
  destruct (pageTables_ m !! t) as [pt|] eqn:Hpt; [|done].
  destruct (entries pt !! p) as [[f [] d a pr]|]; [|done..].
  simpl. by apply consistent_alter.
Qed.

Lemma consistent_setProtection (m : MemoryManager) (t p : Z) (prot : MemoryProtection) :
  consistent m → consistent (setProtection m t p prot).2.
Proof.
  intros Hc. unfold setProtection.
  destruct (pageTables_ m !! t) as [pt|] eqn:Hpt; [|done].
  destruct (entries pt !! p); [|done].
  simpl. by apply consistent_alter.
Qed.

Lemma consistent_handlePageFault (m : MemoryManager) (t p : Z) :
  consistent m → consistent (handlePageFault m t p).2.
Proof.
  intros Hc. unfold handlePageFault.
  set (m1 := with_pageFaultCount _ m).
  assert (Hc1 : consistent m1) by (by destruct Hc; split).
  pose proof (consistent_allocatePage m1 t p Prot_ReadWrite Hc1) as H.
  by destruct (allocatePage m1 t p Prot_ReadWrite).
Qed.

Lemma list_insert_false_true (fm : list bool) (k j : nat) :
  <[k := false]> fm !! j = Some true ↔ k ≠ j ∧ fm !! j = Some true.
Proof.
  destruct (decide (k = j)) as [->|Hne].
  - split; [|tauto]. intros H. exfalso.
    destruct (decide (j < length fm)%nat) as [Hlt|Hge].
    + rewrite list_lookup_insert_eq in H by done. done.
    + rewrite list_insert_ge in H by lia.
      apply lookup_lt_Some in H. lia.
  - rewrite list_lookup_insert_ne by done. tauto.
Qed.

(** The loop of destroyAddressSpace, over any list of entries: the page
    tables are not touched, the bitmap keeps its width, and a bit stays set
    exactly when no present entry of the list holds it. *)
Lemma freeFrames_fold (L : list (Z * PageTableEntry)) (m : MemoryManager) :
  let m' := foldl (λ acc pe, if present pe.2
                             then (freeFrame acc (frameNumber pe.2)).2 else acc) m L in
  pageTables_ m' = pageTables_ m ∧
  length (frameAllocationMap_ m') = length (frameAllocationMap_ m) ∧
  ∀ j, frameAllocationMap_ m' !! j = Some true ↔
       frameAllocationMap_ m !! j = Some true ∧
       ∀ pe, pe ∈ L → present pe.2 = true →
             frameNumber pe.2 < TOTAL_PHYSICAL_FRAMES →
             Z.to_nat (frameNumber pe.2) ≠ j.
Proof.
  revert m. induction L as [|x L IH]; intros m; cbn zeta.
  - split_and!; [done..|]. intros j. split; [|tauto].
    intros H. split; [done|]. intros pe Hpe. by apply elem_of_nil in Hpe.
  - cbn [foldl].
    set (m1 := if present x.2 then (freeFrame m (frameNumber x.2)).2 else m).
    destruct (IH m1) as (Hpts & Hlen & Hbits). clear IH.
    assert (Hstep : pageTables_ m1 = pageTables_ m ∧
              length (frameAllocationMap_ m1) = length (frameAllocationMap_ m) ∧
              ∀ j, frameAllocationMap_ m1 !! j = Some true ↔
                   frameAllocationMap_ m !! j = Some true ∧
                   (present x.2 = true →
                    frameNumber x.2 < TOTAL_PHYSICAL_FRAMES →
                    Z.to_nat (frameNumber x.2) ≠ j)).
    { subst m1. destruct (present x.2) eqn:Hpr.
      - unfold freeFrame. case_decide as Hge; cbn [snd].
        + split_and!; [done..|]. intros j. split; [|tauto].
          intros H. split; [done|]. intros _ Hlt. lia.
        + split_and!; [done|cbn; by rewrite length_insert|].
          intros j. cbn [frameAllocationMap_ with_frameMap].
          rewrite list_insert_false_true. split.
          * intros [? ?]. split; [done|]. by intros _ _.
          * intros [? Hx]. split; [|done]. apply Hx; [done|lia].
      - split_and!; [done..|]. intros j. split; [|tauto].
        intros H. split; [done|]. intros Habs. done. }
    destruct Hstep as (Hpts1 & Hlen1 & Hbits1).
    split_and!; [congruence..|].
    intros j. rewrite Hbits, Hbits1. split.
    + intros [[Hm Hx] Hall]. split; [done|].
      intros pe [->|Hpe]%elem_of_cons; [done|by apply Hall].
    + intros [Hm Hall]. split_and!; [done| |].
      * apply Hall. by left.
      * intros pe Hpe. apply Hall. by right.
Qed.

Lemma consistent_destroyAddressSpace (m : MemoryManager) (t : Z) :
  consistent m → consistent (destroyAddressSpace m t).2.
Proof.
  intros Hc. unfold destroyAddressSpace.
  destruct (pageTables_ m !! t) as [pt|] eqn:Hpt; [|done].
  cbn [snd]. unfold freeFramesOf.
  destruct (freeFrames_fold (entries_in_key_order (entries pt)) m)
    as (Hpts & Hlen & Hbits).
  set (m1 := foldl _ m _) in *.
  assert (Hmem : ∀ pe, pe ∈ entries_in_key_order (entries pt) ↔
                       entries pt !! pe.1 = Some pe.2).
  { intros [p0 e0]. unfold entries_in_key_order.
    rewrite merge_sort_Permutation. apply elem_of_map_to_list. }
  set (m' := with_pageTables _ m1).
  destruct Hc as [Hw He Ho Hh].
  assert (Hiff : ∀ t0 p0 e0, holds m' t0 p0 e0 ↔ t0 ≠ t ∧ holds m t0 p0 e0).
  { intros t0 p0 e0. unfold holds. subst m'. cbn [pageTables_ with_pageTables].
    rewrite Hpts. destruct (decide (t0 = t)) as [->|Hne].
    - rewrite lookup_delete_eq. split; [by intros (? & ? & _)|tauto].
    - rewrite lookup_delete_ne by done. tauto. }
  split.
  - subst m'. cbn [frameAllocationMap_ with_pageTables]. by rewrite Hlen.
  - intros t0 p0 e0 [Hne H]%Hiff.
    destruct (He _ _ _ H) as (? & ? & Hbit). split_and!; [done..|].
    subst m'. cbn [frameAllocationMap_ with_pageTables]. apply Hbits.
    split; [done|]. intros [p1 e1] Hin%Hmem _ _ Heq.
    cbn [fst snd] in Hin, Heq.
    assert (Hown : holds m t p1 e1) by (by exists pt).
    destruct (He _ _ _ Hown) as (_ & ? & _).
    apply Hne. eapply (Ho t0 p0 e0 t p1 e1); [done..|]. lia.
  - intros t1 p1 e1 t2 p2 e2 [_ H1]%Hiff [_ H2]%Hiff. by eapply Ho.
  - intros j Hj. subst m'. cbn [frameAllocationMap_ with_pageTables] in Hj.
    apply Hbits in Hj as [Hj Hfree].
    destruct (Hh _ Hj) as (t0 & p0 & e0 & H & Hf).
    exists t0, p0, e0. split; [|done]. apply Hiff. split; [|done].
    intros ->. destruct (He _ _ _ H) as (Hpr & ? & Hbit).
    destruct H as (pt' & Hpt' & Hp0). rewrite Hpt in Hpt'. injection Hpt' as <-.
    apply (Hfree (p0, e0)); cbn [snd].
    + by apply Hmem.
    + done.
    + apply lookup_lt_Some in Hbit. rewrite Hw in Hbit. lia.
    + rewrite Hf. apply Nat2Z.id.
Qed.

Create HintDb mm_consistent.

#[local] Hint Resolve consistent_createAddressSpace consistent_destroyAddressSpace
  consistent_allocatePage consistent_freePage consistent_translateAddress
  consistent_handlePageFault consistent_setProtection : mm_consistent.

Lemma consistent_perform (m : MemoryManager) (c : Call) :
  consistent m → consistent (perform m c).
Proof. intros Hc. destruct c; cbn [perform]; auto with mm_consistent. Qed.

Lemma consistent_after (arenaBase : Z) (calls : list Call) :
  consistent (after arenaBase calls).
Proof.
  unfold after.
  induction calls as [|c calls IH] using rev_ind.
  - apply consistent_new.
  - rewrite foldl_snoc. by apply consistent_perform.
Qed.

Lemma consistent_bit_iff (m : MemoryManager) (i : nat) :
  consistent m → bit_set m i ↔ uniquely_referenced m i.
Proof.
  intros [Hw He Ho Hh]. unfold bit_set, uniquely_referenced. split.
  - intros Hi. destruct (Hh _ Hi) as (t & p & e & H & Hf).
    destruct (He _ _ _ H) as (Hpr & _ & _).
    exists t, p. split.
    + apply references_holds. by exists e.
    + intros t' p' (e' & H' & Hf' & _)%references_holds.
      eapply (Ho t' p' e' t p e); [done..|congruence].
  - intros (t & p & (e & H & Hf & _)%references_holds & _).
    destruct (He _ _ _ H) as (_ & _ & Hbit).
    by rewrite Hf, Nat2Z.id in Hbit.
Qed.

(** C3: in every state the memory manager reaches through its public
    calls, frame bit [i] is set exactly when one and only one page-table
    entry, over all page tables, is present with frame number [i]. *)
Theorem frame_bit_iff_unique_pte (arenaBase : Z) (calls : list Call) (i : nat) :
  bit_set (after arenaBase calls) i ↔ uniquely_referenced (after arenaBase calls) i.
Proof. apply consistent_bit_iff, consistent_after. Qed.

Lemma count_insert_roundtrip (fm : list bool) (i : nat) :
  fm !! i = Some false → <[i := false]> (<[i := true]> fm) = fm.
Proof.
  intros Hi. rewrite list_insert_insert_eq. by apply list_insert_id.
Qed.

Lemma count_set_bit (fm : list bool) (i : nat) :
  fm !! i = Some false → TOTAL_PHYSICAL_FRAMES - count (<[i := true]> fm)
                         = TOTAL_PHYSICAL_FRAMES - count fm - 1.
Proof.
  unfold count. revert i. induction fm as [|b l IH]; intros [|i] Hi; try done.
  - injection Hi as ->.
    change (<[0%nat := true]> (false :: l)) with (true :: l).
    rewrite filter_cons_True, filter_cons_False by done.
    cbn [length]. lia.
  - change (<[S i := true]> (b :: l)) with (b :: <[i := true]> l).
    specialize (IH i Hi). destruct b.
    + rewrite !filter_cons_True by done. cbn [length]. lia.
    + rewrite !filter_cons_False by done. lia.
Qed.

(** C5: when allocatePage succeeds for a task with an address space on a
    page that is not presently mapped, the freePage that follows returns
    true and getFreeFrameCount is back at its value before the allocation. *)
Theorem allocate_free_restores_free_count (m m1 : MemoryManager) (t p : Z)
    (prot : MemoryProtection) (pt : PageTable) (addr : Z) :
  length (frameAllocationMap_ m) = Z.to_nat TOTAL_PHYSICAL_FRAMES →
  pageTables_ m !! t = Some pt →
  (∀ e, entries pt !! p = Some e → present e = false) →
  allocatePage m t p prot = (Some addr, m1) →
  ∃ m2, freePage m1 t p = (true, m2) ∧
        getFreeFrameCount m2 = getFreeFrameCount m ∧
        getFreeFrameCount m1 = getFreeFrameCount m - 1.
Proof.
  intros Hw Hpt Hfresh Hal.
  apply allocatePage_Some in Hal as (pt' & i & Hpt' & _ & Hi & _ & ->).
  rewrite Hpt in Hpt'. injection Hpt' as <-.
  assert (Hlt : (i < length (frameAllocationMap_ m))%nat)
    by (by eapply lookup_lt_Some).
  unfold freePage. cbn [pageTables_]. rewrite lookup_insert_eq.
  cbn [entries with_entries]. rewrite lookup_insert_eq.
  eexists. split; [reflexivity|].
  unfold getFreeFrameCount, freeFrame.
  rewrite decide_False by (rewrite Hw in Hlt; lia).
  cbn. rewrite Nat2Z.id, count_insert_roundtrip by done.
  split; [done|].
  apply count_set_bit. done.
Qed.

(** C5 at a concrete manager: one address space, page 5 allocated and freed. *)
Lemma allocate_free_restores_free_count_witness :
  let m := (createAddressSpace (MemoryManager_new 0) 1).2 in
  ∃ m1 m2, allocatePage m 1 5 Prot_ReadWrite = (Some 0, m1) ∧
           freePage m1 1 5 = (true, m2) ∧
           getFreeFrameCount m2 = getFreeFrameCount m.
Proof.
  cbv zeta.
  destruct (allocatePage (createAddressSpace (MemoryManager_new 0) 1).2 1 5 Prot_ReadWrite)
    as [addr m1] eqn:Hal.
  assert (Haddr : addr = Some 0) by (by vm_compute in Hal; injection Hal as <- _).
  subst addr.
  destruct (allocate_free_restores_free_count
              (createAddressSpace (MemoryManager_new 0) 1).2 m1 1 5 Prot_ReadWrite
              (mkPageTable ∅ 1) 0)
    as (m2 & Hfree & Hcount & _).
  - vm_compute. reflexivity.
  - vm_compute. reflexivity.
  - intros e He. vm_compute in He. discriminate.
  - exact Hal.
  - exists m1, m2. done.
Defined.

End MemoryManagerProperties.

(** ** Properties of the heap allocator *)

Section HeapAllocatorProperties.
Import Heap HeapSpec.

(** One step through the binds of an allocator operation: expose the next
    header read and resolve it against the inserts made so far. *)
Local Ltac heap_step :=
  cbn [mbind option_bind heap_headers with_headers];
  rewrite ?lookup_insert_eq;
  cbn [mbind option_bind heap_headers with_headers].

Lemma align8_div (r : Z) :
  0 ≤ r → r + 7 < 2 ^ 64 → align8 r = 8 * ((r + 7) / 8).
Proof.
  intros H0 H1. unfold align8, wrap64.
  rewrite Z.mod_small by lia.
  rewrite <- Z.ldiff_land.
  change 7 with (Z.ones 3) at 2.
  rewrite Z.ldiff_ones_r by lia.
  rewrite Z.shiftr_div_pow2, Z.shiftl_mul_pow2 by lia.
  change (2 ^ 3) with 8. lia.
Qed.

Lemma align8_bounds (r : Z) :
  0 ≤ r → r + 7 < 2 ^ 64 → r ≤ align8 r ≤ r + 7.
Proof.
  intros. rewrite align8_div by done. Z.div_mod_to_equations. lia.
Qed.

(** C4, as stated, fails at the threshold: in an 80-byte arena the only
    block has 48 payload bytes, which exceeds the request of 8 by exactly
    one header plus 8, and allocate hands it out whole. *)
Lemma split_threshold_not_inclusive :
  ¬ splits_when_at_least (HeapAllocator_new 80) 8.
Proof.
  intros H.
  destruct (H 0 (mkBlock 48 true None None)) as (h' & Hal & Hout);
    [vm_compute; reflexivity..|].
  vm_compute in Hal. injection Hal as <-.
  rewrite decide_True in Hout by (vm_compute; discriminate).
  destruct Hout as (Hblock & _). vm_compute in Hblock. discriminate.
Qed.

(** The same threshold in the 1 MiB arena of tests/test_memory.cpp: a
    request of 1048504 bytes leaves exactly one header plus 8 bytes. *)
Lemma split_threshold_not_inclusive_1MiB :
  ¬ splits_when_at_least (HeapAllocator_new (1024 * 1024)) 1048504.
Proof.
  intros H.
  destruct (H 0 (mkBlock 1048544 true None None)) as (h' & Hal & Hout);
    [vm_compute; reflexivity..|].
  vm_compute in Hal. injection Hal as <-.
  rewrite decide_True in Hout by (vm_compute; discriminate).
  destruct Hout as (Hblock & _). vm_compute in Hblock. discriminate.
Qed.

(** C4, amended: when first-fit finds a block for a non-zero request, the
    block is split exactly when its size exceeds the 8-byte-rounded request
    by more than one header plus 8 bytes; otherwise, the threshold itself
    included, the whole block is handed out. *)
Theorem allocate_split_rule (h : HeapAllocator) (request block : Z)
    (b : BlockHeader) :
  0 < request < 2 ^ 63 →
  findFreeBlock h (align8 request) = Some (Some block) →
  heap_headers h !! block = Some b →
  0 ≤ size b < 2 ^ 64 →
  successor_adjacent h block b →
  ∃ h', allocate h request = Some (Some (block + sizeof_BlockHeader), h') ∧
        if decide (size b - align8 request > sizeof_BlockHeader + 8)
        then split_outcome h h' block (align8 request) b
        else unsplit_outcome h h' block b.
Proof.
  intros Hreq Hfind Hb Hsize Hadj.
  pose proof (align8_bounds request) as Hsz.
  set (sz := align8 request) in *.
  assert (Hsz' : request ≤ sz ≤ request + 7) by (apply Hsz; lia). clear Hsz.
  unfold allocate. rewrite decide_False by lia. fold sz.
  rewrite Hfind. cbn [mbind option_bind]. rewrite Hb. cbn [mbind option_bind].
  unfold sizeof_BlockHeader in *.
  assert (Hwrap : wrap64 (sz + 32 + 8) = sz + 32 + 8).
  { unfold wrap64. apply Z.mod_small. lia. }
  rewrite Hwrap.
  destruct (decide (size b - sz > 32 + 8)) as [Hbig|Hsmall].
  - rewrite decide_True by lia.
    set (newBlock := block + 32 + sz).
    assert (Hnew : newBlock ≠ block) by (subst newBlock; lia).
    assert (Htail : wrap64 (size b - sz - 32) = size b - sz - 32).
    { unfold wrap64. apply Z.mod_small. lia. }
    unfold splitBlock, store. rewrite Hb. cbn [mbind option_bind].
    unfold sizeof_BlockHeader. fold newBlock. rewrite Htail.
    cbn [heap_headers with_headers].
    rewrite lookup_insert_ne by done. rewrite Hb. cbn [mbind option_bind].
    destruct (next b) as [n|] eqn:Hn.
    + destruct (Hadj n Hn) as (Hnaddr & nb & Hnb).
      unfold sizeof_BlockHeader in Hnaddr.
      assert (n ≠ newBlock) by (subst newBlock; lia).
      assert (n ≠ block) by lia.
      heap_step.
      rewrite (lookup_insert_ne _ newBlock n) by done. rewrite Hnb.
      heap_step.
      rewrite !(lookup_insert_ne _ _ block) by done. rewrite Hb.
      do 3 heap_step.
      eexists. split; [reflexivity|].
      unfold split_outcome. cbn [heap_headers with_headers with_allocatedBytes
        allocatedBytes_ set_isFree set_next set_size size isFree next prev].
      unfold sizeof_BlockHeader. fold newBlock.
      rewrite !insert_insert_eq.
      split_and!.
      * by rewrite lookup_insert_eq.
      * rewrite lookup_insert_ne, lookup_insert_ne, lookup_insert_eq by congruence.
        by rewrite Hn.
      * intros n' nb' Hn' Hnb'. rewrite Hn in Hn'. injection Hn' as <-.
        rewrite Hnb in Hnb'. injection Hnb' as <-.
        rewrite lookup_insert_ne, lookup_insert_eq by congruence. done.
      * intros a Ha1 Ha2 Ha3. rewrite Hn in Ha3.
        rewrite !lookup_insert_ne; [done|congruence..].
      * done.
    + heap_step.
      rewrite !(lookup_insert_ne _ _ block) by done. rewrite Hb.
      do 3 heap_step.
      eexists. split; [reflexivity|].
      unfold split_outcome. cbn [heap_headers with_headers with_allocatedBytes
        allocatedBytes_ set_isFree set_next set_size size isFree next prev].
      unfold sizeof_BlockHeader. fold newBlock.
      rewrite !insert_insert_eq.
      split_and!.
      * by rewrite lookup_insert_eq.
      * rewrite lookup_insert_ne, lookup_insert_eq by congruence. by rewrite Hn.
      * intros n' nb' Hn'. congruence.
      * intros a Ha1 Ha2 _. rewrite !lookup_insert_ne; [done|congruence..].
      * done.
  - rewrite decide_False by lia.
    unfold store. heap_step. rewrite Hb. heap_step.
    eexists. split; [reflexivity|]. split; done.
Qed.

(** C4, amended, at two concrete arenas: 88 bytes (one byte range above the
    threshold, split) and 80 bytes (at the threshold, handed out whole). *)
Lemma allocate_split_rule_witness :
  (∃ h', allocate (HeapAllocator_new 88) 8 = Some (Some 32, h') ∧
         split_outcome (HeapAllocator_new 88) h' 0 8 (mkBlock 56 true None None)) ∧
  (∃ h', allocate (HeapAllocator_new 80) 8 = Some (Some 32, h') ∧
         unsplit_outcome (HeapAllocator_new 80) h' 0 (mkBlock 48 true None None)).
Proof.
  split.
  - destruct (allocate_split_rule (HeapAllocator_new 88) 8 0
                (mkBlock 56 true None None)) as (h' & Hal & Hout).
    + lia.
    + vm_compute. reflexivity.
    + vm_compute. reflexivity.
    + cbn. lia.
    + intros n Hn. discriminate.
    + exists h'. split; [exact Hal|].
      rewrite decide_True in Hout by (vm_compute; reflexivity). exact Hout.
  - destruct (allocate_split_rule (HeapAllocator_new 80) 8 0
                (mkBlock 48 true None None)) as (h' & Hal & Hout).
    + lia.
    + vm_compute. reflexivity.
    + vm_compute. reflexivity.
    + cbn. lia.
    + intros n Hn. discriminate.
    + exists h'. split; [exact Hal|].
      rewrite decide_False in Hout by (vm_compute; discriminate). exact Hout.
Defined.

Lemma allocate_null_unchanged (h h' : HeapAllocator) (request : Z) :
  allocate h request = Some (None, h') → h' = h.
Proof.
  unfold allocate. case_decide as Hzero; [by intros [= <-]|].
  destruct (findFreeBlock h (align8 request)) as [[block|]|];
    cbn [mbind option_bind]; [|by intros [= <-]|done].
  intros H. exfalso.
  destruct (heap_headers h !! block) as [b|]; cbn [mbind option_bind] in H; [|done].
  destruct (if decide (size b > wrap64 (align8 request + sizeof_BlockHeader + 8))
            then splitBlock h block (align8 request) else Some h) as [h1|];
    cbn [mbind option_bind] in H; [|done].
  destruct (store block (set_isFree false) h1) as [h2|];
    cbn [mbind option_bind] in H; [|done].
  destruct (heap_headers h2 !! block); cbn [mbind option_bind] in H; done.
Qed.

(** C8: when the block behind [ptr] is too small for [newSize] and the
    inner allocate finds nothing, reallocate returns null and the allocator
    is exactly as before: the old block, its header, the arena bytes and the
    accounting are untouched. *)
Theorem reallocate_failure_keeps_block (h h' : HeapAllocator) (p newSize : Z)
    (b : BlockHeader) :
  newSize > 0 →
  heap_headers h !! (p - sizeof_BlockHeader) = Some b →
  isFree b = false →
  size b < newSize →
  allocate h newSize = Some (None, h') →
  reallocate h (Some p) newSize = Some (None, h) ∧
  heap_headers h !! (p - sizeof_BlockHeader) = Some b ∧ isFree b = false.
Proof.
  intros Hpos Hb Hocc Hsmall Hal.
  assert (h' = h) as -> by (by eapply allocate_null_unchanged).
  split; [|done].
  unfold reallocate. rewrite decide_False by lia.
  rewrite Hb. cbn [mbind option_bind]. rewrite decide_False by lia.
  rewrite Hal. done.
Qed.

(** C8 at a concrete heap: an 88-byte arena with an 8-byte block handed out
    cannot serve 24 bytes. *)
Lemma reallocate_failure_keeps_block_witness :
  ∃ h, allocate (HeapAllocator_new 88) 8 = Some (Some 32, h) ∧
       reallocate h (Some 32) 24 = Some (None, h).
Proof.
  destruct (allocate (HeapAllocator_new 88) 8) as [[ptr h]|] eqn:Hal;
    [|vm_compute in Hal; discriminate].
  assert (Hptr : ptr = Some 32) by (vm_compute in Hal; by injection Hal as <- _).
  subst ptr. exists h. split; [done|].
  assert (Hh : h = (mkHeap
            (<[0 := mkBlock 8 false (Some 40) None]>
               (<[40 := mkBlock 16 true None (Some 0)]> ∅)) ∅ 88 (Some 0) 8)).
  { vm_compute in Hal. injection Hal as <-. vm_compute. reflexivity. }
  apply (reallocate_failure_keeps_block h h 32 24 (mkBlock 8 false (Some 40) None)).
  - reflexivity.
  - rewrite Hh. vm_compute. reflexivity.
  - reflexivity.
  - cbn. lia.
  - rewrite Hh. vm_compute. reflexivity.
Defined.

End HeapAllocatorProperties.

(** ** Properties of the IPC manager *)

Section IPCManagerProperties.
Import IPC IPCSpec.

(** C10: a send to a receiver that is not registered returns 0 and leaves
    the manager as it was: mailboxes, next message id and both counters. *)
Theorem send_to_unregistered_is_noop (m : IPCManager) (sender receiver : Z)
    (data : option (list Z)) (sz : Z) (t : MessageType) (blocking : bool) :
  messageQueues_ m !! receiver = None →
  sendMessage m sender receiver data sz t blocking = (0, m).
Proof. intros Hnone. unfold sendMessage. by rewrite Hnone. Qed.

(** C10 at a concrete manager: task 1 registered, task 7 not. *)
Lemma send_to_unregistered_is_noop_witness :
  let m := (registerTask IPCManager_new 1).2 in
  sendMessage m 1 7 (Some [42]) 1 Data false = (0, m).
Proof.
  apply send_to_unregistered_is_noop. vm_compute. reflexivity.
Defined.

Lemma oversize_payload_empty (msg : Message) (data : option (list Z)) (sz : Z) :
  sz > MAX_MESSAGE_SIZE →
  match data with
  | Some buf => if decide (sz > 0) then setPayload msg buf sz else msg
  | None => msg
  end = msg.
Proof.
  intros Hbig. destruct data as [buf|]; [|done].
  case_decide; [|done]. unfold setPayload. by rewrite decide_False by lia.
Qed.

(** C7 at the failing input: once the 32-bit id counter has wrapped, a
    send of 4097 bytes to the registered task 2 is queued with an empty
    payload, and the id it returns is 0, the value that means failure. *)
Lemma oversize_send_after_wrap_returns_zero :
  sendMessage wrapped_manager 1 2 (Some (replicate 4097 0)) 4097 Data false
  = (0, mkIPC {[ 2 := mkQueue 2 [mkMessage 0 1 2 Data [] false] ]}
              1 (2 ^ 32) (2 ^ 32 - 1)).
Proof. vm_compute. reflexivity. Qed.

(** So the contract of an oversize send does not hold in that state. *)
Lemma oversize_send_contract_fails_after_wrap :
  ¬ oversize_send_contract wrapped_manager 1 2 (Some (replicate 4097 0)) 4097
      Data false.
Proof.
  intros H.
  destruct (H (MessageQueue_new 2)) as (_ & Hnz & _).
  - vm_compute. reflexivity.
  - vm_compute. reflexivity.
  - apply Hnz. vm_compute. reflexivity.
Qed.

Lemma exchange_state (next sent received : Z) :
  exchange (mkIPC {[ 2 := MessageQueue_new 2 ]} next sent received) =
  mkIPC {[ 2 := MessageQueue_new 2 ]} (wrap32 (next + 1)) (wrap64 (sent + 1))
        (wrap64 (received + 1)).
Proof.
  unfold exchange, sendMessage, receiveMessage.
  cbn [messageQueues_]. rewrite lookup_singleton_eq.
  cbn [snd messageQueues_]. rewrite lookup_insert_eq.
  cbn. rewrite insert_insert_eq, insert_singleton_eq. done.
Qed.

Lemma exchanges_state (n : nat) :
  Nat.iter n exchange (registerTask IPCManager_new 2).2 =
  mkIPC {[ 2 := MessageQueue_new 2 ]} (wrap32 (1 + Z.of_nat n))
        (wrap64 (Z.of_nat n)) (wrap64 (Z.of_nat n)).
Proof.
  induction n as [|n IH].
  - reflexivity.
  - rewrite Nat.iter_succ, IH, exchange_state. unfold wrap32, wrap64.
    rewrite !Zplus_mod_idemp_l. f_equal; f_equal; lia.
Qed.

(** The wrapped manager is a state the code reaches. *)
Lemma wrapped_manager_reachable :
  Nat.iter (Z.to_nat (2 ^ 32 - 1)) exchange (registerTask IPCManager_new 2).2
  = wrapped_manager.
Proof.
  rewrite exchanges_state. rewrite Z2Nat.id by lia.
  unfold wrapped_manager. f_equal.
Qed.

(** While the 32-bit id counter has not wrapped to 0, a send of more than
    MAX_MESSAGE_SIZE bytes to a registered receiver returns the next message
    id, which is not 0, and queues the message with an empty payload at the
    tail of the receiver's mailbox. *)
Theorem oversize_send_drops_payload (m : IPCManager) (sender receiver : Z)
    (data : option (list Z)) (sz : Z) (t : MessageType) (blocking : bool) :
  nextMessageId_ m ≠ 0 →
  oversize_send_contract m sender receiver data sz t blocking.
Proof.
  intros Hnz q Hq Hbig. unfold sendMessage. rewrite Hq.
  rewrite oversize_payload_empty by done. cbn. done.
Qed.

(** The same at a concrete manager: 5000 bytes from task 1 to task 2. *)
Lemma oversize_send_drops_payload_witness :
  let m := (registerTask (registerTask IPCManager_new 1).2 2).2 in
  let r := sendMessage m 1 2 (Some (replicate 5000 7)) 5000 Data false in
  r.1 = 1 ∧
  messages_ <$> messageQueues_ r.2 !! 2 = Some [mkMessage 1 1 2 Data [] false].
Proof.
  cbv zeta.
  destruct (oversize_send_drops_payload
              (registerTask (registerTask IPCManager_new 1).2 2).2 1 2
              (Some (replicate 5000 7)) 5000 Data false)
    with (q := MessageQueue_new 2) as (Hid & _ & Hq & _).
  - vm_compute. discriminate.
  - vm_compute. reflexivity.
  - vm_compute. reflexivity.
  - split; [exact Hid|]. rewrite Hq. vm_compute. reflexivity.
Defined.

Lemma receiveMessageFrom_no_reply (m : IPCManager) (sender receiver : Z) :
  no_reply_waiting m sender receiver →
  receiveMessageFrom m sender receiver false = (None, m).
Proof.
  intros Hno. unfold receiveMessageFrom.
  destruct (messageQueues_ m !! sender) as [q|] eqn:Hq; [|done].
  destruct (peek q) as [msg|] eqn:Hpeek; [|done].
  rewrite decide_False; [done|]. by eapply Hno.
Qed.

(** The polling loop when no reply is waiting: it keeps polling through
    the readings taken before the deadline and returns at the first reading
    at or past it, with the manager unchanged. *)
Lemma waitReply_times_out (early rest : Clock) (late startTime timeout : Z)
    (sender receiver : Z) (m : IPCManager) :
  no_reply_waiting m sender receiver →
  Forall (λ now, now - startTime < ns_of_ms timeout) early →
  late - startTime >= ns_of_ms timeout →
  waitReply (early ++ late :: rest) startTime timeout sender receiver m
  = Some (None, m, rest).
Proof.
  intros Hno Hearly Hlate.
  induction Hearly as [|now early Hnow _ IH]; cbn [app waitReply].
  - by rewrite decide_False by lia.
  - rewrite decide_True by done.
    by rewrite receiveMessageFrom_no_reply.
Qed.

Lemma request_fields (sender receiver msgId : Z) (data : option (list Z)) (sz : Z) :
  let request :=
    match data with
    | Some buf =>
        if decide (sz > 0)
        then setPayload (set_isBlocking true (Message_new msgId sender receiver Request))
                        buf sz
        else set_isBlocking true (Message_new msgId sender receiver Request)
    | None => set_isBlocking true (Message_new msgId sender receiver Request)
    end in
  id request = msgId ∧ senderId request = sender ∧ receiverId request = receiver ∧
  type request = Request.
Proof.
  cbv zeta. destruct data as [buf|]; [|done].
  case_decide; [|done]. unfold setPayload. by case_decide.
Qed.

(** The timeout of sendAndWaitReply in any manager: the receiver is
    registered, it is not the sender, the id counter has not wrapped, and
    no reply is waiting in the sender's mailbox. The call returns no message
    at the first clock reading at or past the deadline; the manager it
    leaves is the one right after the send, with the Request at the tail of
    the receiver's mailbox. *)
Lemma sendAndWaitReply_times_out (m : IPCManager) (sender receiver : Z)
    (q : MessageQueue) (data : option (list Z)) (sz timeout : Z)
    (startTime late : Z) (early rest : Clock) :
  messageQueues_ m !! receiver = Some q →
  sender ≠ receiver →
  nextMessageId_ m ≠ 0 →
  no_reply_waiting m sender receiver →
  Forall (λ now, now - startTime < ns_of_ms timeout) early →
  late - startTime >= ns_of_ms timeout →
  ∃ m' request,
    sendAndWaitReply m sender receiver data sz timeout
      (startTime :: early ++ late :: rest) = Some (None, m', rest) ∧
    messages_ <$> messageQueues_ m' !! receiver = Some (messages_ q ++ [request]) ∧
    (∀ other, other ≠ receiver →
              messageQueues_ m' !! other = messageQueues_ m !! other) ∧
    id request = nextMessageId_ m ∧ senderId request = sender ∧
    receiverId request = receiver ∧ type request = Request.
Proof.
  intros Hq Hne Hnz Hno Hearly Hlate.
  unfold sendAndWaitReply, sendMessage. rewrite Hq.
  rewrite decide_False by done.
  set (request := match data with Some _ => _ | None => _ end).
  set (m' := mkIPC _ _ _ _).
  assert (Hother : ∀ other, other ≠ receiver →
            messageQueues_ m' !! other = messageQueues_ m !! other).
  { intros other Ho. subst m'. cbn [messageQueues_]. by rewrite lookup_insert_ne. }
  assert (Hno' : no_reply_waiting m' sender receiver).
  { intros qs msg Hqs. rewrite Hother in Hqs by done. by eapply Hno. }
  exists m', request. split_and!.
  - by apply waitReply_times_out.
  - subst m'. cbn [messageQueues_]. by rewrite lookup_insert_eq.
  - done.
  - apply (request_fields sender receiver (nextMessageId_ m) data sz).
  - apply (request_fields sender receiver (nextMessageId_ m) data sz).
  - apply (request_fields sender receiver (nextMessageId_ m) data sz).
  - apply (request_fields sender receiver (nextMessageId_ m) data sz).
Qed.

(** C6: tasks 1 and 2 are registered and nobody serves task 2's mailbox.
    sendAndWaitReply(1, 2, ...) polls while the clock reads less than the
    timeout after the start, returns no message at the first reading at or
    past the deadline, and leaves its Request in task 2's mailbox. *)
Theorem request_reply_timeout (data : option (list Z)) (sz timeout : Z)
    (startTime late : Z) (early rest : Clock) :
  Forall (λ now, now - startTime < ns_of_ms timeout) early →
  late - startTime >= ns_of_ms timeout →
  let m := (registerTask (registerTask IPCManager_new 1).2 2).2 in
  ∃ m' request,
    sendAndWaitReply m 1 2 data sz timeout (startTime :: early ++ late :: rest)
      = Some (None, m', rest) ∧
    messages_ <$> messageQueues_ m' !! 2 = Some [request] ∧
    id request = 1 ∧ senderId request = 1 ∧ receiverId request = 2 ∧
    type request = Request ∧
    getMessageCount m' 2 = 1 ∧
    messages_ <$> messageQueues_ m' !! 1 = Some [].
Proof.
  intros Hearly Hlate m.
  destruct (sendAndWaitReply_times_out m 1 2 (MessageQueue_new 2) data sz timeout
              startTime late early rest)
    as (m' & request & Hrun & Hbox & Hother & Hid & Hsender & Hreceiver & Htype);
    [done|done|done| |done|done|].
  { intros q msg Hq Hpeek. vm_compute in Hq. injection Hq as <-. done. }
  exists m', request. split_and!; try done.
  - unfold getMessageCount.
    destruct (messageQueues_ m' !! 2) as [q2|]; [|done].
    cbn in Hbox. injection Hbox as ->. done.
  - by rewrite Hother.
Qed.

(** C6 at a concrete run: timeout 50 ms, the clock read at 0, 1 ms, 49.9 ms
    and 50 ms after the start. *)
Lemma request_reply_timeout_witness :
  ∃ m', sendAndWaitReply (registerTask (registerTask IPCManager_new 1).2 2).2
          1 2 (Some [1; 2; 3]) 3 50 [0; 1000000; 49900000; 50000000; 60000000]
        = Some (None, m', [60000000]) ∧
        getMessageCount m' 2 = 1.
Proof.
  destruct (request_reply_timeout (Some [1; 2; 3]) 3 50 0 50000000
              [1000000; 49900000] [60000000])
    as (m' & request & Hrun & _ & _ & _ & _ & _ & Hcount & _).
  - repeat constructor; vm_compute; reflexivity.
  - vm_compute. discriminate.
  - exists m'. split; [exact Hrun|exact Hcount].
Defined.

End IPCManagerProperties.
(** ** Further properties of the heap allocator *)

Section HeapAllocatorMore.
Import Heap HeapSpec HeapCalls.







Local Ltac heap_run :=
  cbn [mbind option_bind heap_headers with_headers with_allocatedBytes
       allocatedBytes_ freeList_ heapSize_ heap_bytes
       set_isFree set_next set_size set_prev size isFree next prev];
  repeat first [ rewrite lookup_insert_eq
               | rewrite lookup_singleton_eq
               | rewrite lookup_insert_ne by lia ];
  cbn [mbind option_bind heap_headers with_headers with_allocatedBytes
       allocatedBytes_ freeList_ heapSize_ heap_bytes
       set_isFree set_next set_size set_prev size isFree next prev].

(** X21: allocate and free on a fresh heap are a round trip. The first
    allocation of a request that fits is placed right behind the first
    header, whether the block is split or handed out whole, and it charges
    at least the request; freeing it merges the arena back into one free
    block of the initial size, with no byte accounted as used. *)
Theorem allocate_free_round_trip (heapSize request : Z) :
  0 < request < 2 ^ 63 → heapSize < 2 ^ 64 →
  align8 request ≤ heapSize - sizeof_BlockHeader →
  ∃ h1 h2,
    allocate (HeapAllocator_new heapSize) request
      = Some (Some sizeof_BlockHeader, h1) ∧
    request ≤ getUsedMemory h1 ∧
    free h1 (Some sizeof_BlockHeader) = Some h2 ∧
    heap_headers h2 !! 0
      = heap_headers (HeapAllocator_new heapSize) !! 0 ∧
    freeList_ h2 = Some 0 ∧ getUsedMemory h2 = 0 ∧
    getFreeMemory h2 = getFreeMemory (HeapAllocator_new heapSize).
Proof.
  intros Hreq Hsize Hfits.
  pose proof (align8_bounds request) as Hsz.
  set (sz := align8 request) in *.
  assert (Hsz' : request ≤ sz ≤ request + 7) by (apply Hsz; lia). clear Hsz.
  unfold sizeof_BlockHeader in *.
  assert (Hw0 : wrap64 (heapSize - 32) = heapSize - 32).
  { unfold wrap64. apply Z.mod_small. lia. }
  unfold allocate. rewrite decide_False by lia. fold sz.
  unfold findFreeBlock, HeapAllocator_new, sizeof_BlockHeader.
  cbn [heap_headers freeList_]. rewrite map_size_singleton. rewrite Hw0.
  cbn [findFreeBlock_from]. rewrite lookup_singleton_eq.
  cbn [mbind option_bind isFree size andb].
  rewrite bool_decide_eq_true_2 by lia.
  cbn [mbind option_bind]. rewrite lookup_singleton_eq.
  cbn [mbind option_bind size].
  assert (Hwrap : wrap64 (sz + 32 + 8) = sz + 32 + 8).
  { unfold wrap64. apply Z.mod_small. lia. }
  unfold sizeof_BlockHeader. rewrite Hwrap.
  destruct (decide (heapSize - 32 > sz + 32 + 8)) as [Hbig|Hsmall].
  - assert (Htail : wrap64 (heapSize - 32 - sz - 32) = heapSize - 32 - sz - 32).
    { unfold wrap64. apply Z.mod_small. lia. }
    assert (Hused : wrap64 (0 + sz) = sz).
    { unfold wrap64. rewrite Z.add_0_l. apply Z.mod_small. lia. }
    assert (Hzero : wrap64 (sz - sz) = 0) by (by rewrite Z.sub_diag).
    assert (Hmerge : wrap64 (sz + (32 + (heapSize - 32 - sz - 32))) = heapSize - 32).
    { unfold wrap64. replace (sz + (32 + (heapSize - 32 - sz - 32)))
        with (heapSize - 32) by lia. apply Z.mod_small. lia. }
    unfold splitBlock, store, sizeof_BlockHeader. cbn [heap_headers].
    repeat progress (heap_run; rewrite ?Htail, ?Hused).
    eexists _, _. split; [reflexivity|].
    split; [unfold getUsedMemory; cbn; lia|].
    unfold free, store, sizeof_BlockHeader. replace (32 - 32) with 0 by lia.
    repeat progress (heap_run; rewrite ?Hzero).
    unfold coalesce, store, sizeof_BlockHeader.
    repeat progress (heap_run; rewrite ?Hmerge).
    split; [reflexivity|]. heap_run.
    unfold getUsedMemory, getFreeMemory. cbn. done.
  - assert (Hused : wrap64 (0 + (heapSize - 32)) = heapSize - 32).
    { unfold wrap64. rewrite Z.add_0_l. apply Z.mod_small. lia. }
    assert (Hzero : wrap64 (heapSize - 32 - (heapSize - 32)) = 0)
      by (by rewrite Z.sub_diag).
    unfold store. repeat progress (heap_run; rewrite ?Hused).
    eexists _, _. split; [reflexivity|].
    split; [unfold getUsedMemory; cbn; lia|].
    unfold free, store, sizeof_BlockHeader. replace (32 - 32) with 0 by lia.
    repeat progress (heap_run; rewrite ?Hzero).
    unfold coalesce. repeat progress heap_run.
    split; [reflexivity|]. heap_run.
    unfold getUsedMemory, getFreeMemory. cbn. done.
Qed.

(** X21 in the 1 MiB arena of the tests, for a 100-byte request. *)
Lemma allocate_free_round_trip_witness :
  ∃ h1 h2,
    allocate (HeapAllocator_new (1024 * 1024)) 100 = Some (Some 32, h1) ∧
    free h1 (Some 32) = Some h2 ∧ getUsedMemory h2 = 0 ∧
    getFreeMemory h2 = 1024 * 1024 - 32.
Proof.
  destruct (allocate_free_round_trip (1024 * 1024) 100)
    as (h1 & h2 & Hal & _ & Hfree & _ & _ & Hused & Hfm).
  - lia.
  - lia.
  - vm_compute. discriminate.
  - exists h1, h2. split; [exact Hal|]. split; [exact Hfree|].
    split; [exact Hused|]. rewrite Hfm. vm_compute. reflexivity.
Defined.

(** *** The block list *)

Lemma links_span (hs : gmap Z BlockHeader) (stop off : Z) (prv : option Z)
    (bl : Blocks) :
  links hs stop off prv bl → 0 ≤ span bl.
Proof.
  revert off prv. induction bl as [|[sz fr] rest IH]; intros off prv; cbn; [lia|].
  intros (Hsz & _ & Hrest). specialize (IH _ _ Hrest).
  unfold sizeof_BlockHeader. lia.
Qed.

Lemma links_app (hs : gmap Z BlockHeader) (stop off : Z) (prv : option Z)
    (l1 l2 : Blocks) :
  links hs stop off prv (l1 ++ l2) ↔
  links hs stop off prv l1 ∧
  links hs stop (off + span l1) (last_ptr off prv l1) l2.
Proof.
  revert off prv. induction l1 as [|[sz fr] rest IH]; intros off prv; cbn.
  - rewrite Z.add_0_r. tauto.
  - rewrite IH.
    replace (off + sizeof_BlockHeader + sz + span rest)
      with (off + (sizeof_BlockHeader + sz + span rest)) by lia.
    tauto.
Qed.

Lemma links_frame (hs hs' : gmap Z BlockHeader) (stop off : Z) (prv : option Z)
    (bl : Blocks) :
  (∀ o, off ≤ o < off + span bl → hs' !! o = hs !! o) →
  links hs stop off prv bl → links hs' stop off prv bl.
Proof.
  revert off prv. induction bl as [|[sz fr] rest IH]; intros off prv Hsame; cbn;
    [done|].
  intros (Hsz & Hhd & Hrest). pose proof (links_span _ _ _ _ _ Hrest) as Hpos.
  cbn in Hsame. unfold sizeof_BlockHeader in *.
  split; [done|]. split.
  - rewrite Hsame; [done|lia].
  - apply IH; [|done]. intros o Ho. apply Hsame. lia.
Qed.

(** The first header of a non-empty run. *)
Lemma links_prev (hs : gmap Z BlockHeader) (stop off : Z) (prv prv' : option Z)
    (sz : Z) (fr : bool) (rest : Blocks) :
  links hs stop off prv ((sz, fr) :: rest) →
  links (<[off := mkBlock sz fr (next_of (off + sizeof_BlockHeader + sz) stop) prv']> hs)
        stop off prv' ((sz, fr) :: rest).
Proof.
  cbn. intros (Hsz & Hhd & Hrest). pose proof (links_span _ _ _ _ _ Hrest).
  split; [done|]. split; [by rewrite lookup_insert_eq|].
  eapply links_frame; [|done]. intros o Ho.
  rewrite lookup_insert_ne; [done|]. unfold sizeof_BlockHeader in *. lia.
Qed.

Lemma next_of_Some (o stop : Z) : o ≠ stop → next_of o stop = Some o.
Proof. intros. unfold next_of. by rewrite decide_False. Qed.

Lemma next_of_None (o : Z) : next_of o o = None.
Proof. unfold next_of. by rewrite decide_True. Qed.

(** The offsets of the headers of a run. *)
Lemma links_keys (hs : gmap Z BlockHeader) (stop off : Z) (prv : option Z)
    (bl : Blocks) :
  links hs stop off prv bl →
  ∃ keys : list Z, length keys = length bl ∧ NoDup keys ∧
                   (∀ o, o ∈ keys → off ≤ o ∧ is_Some (hs !! o)).
Proof.
  revert off prv. induction bl as [|[sz fr] rest IH]; intros off prv; cbn.
  - intros _. exists []. split; [done|]. split; [apply NoDup_nil_2|].
    by intros o ?%elem_of_nil.
  - intros (Hsz & Hhd & Hrest).
    destruct (IH _ _ Hrest) as (keys & Hlen & Hnd & Hkeys).
    exists (off :: keys). split; [cbn; congruence|]. split.
    + apply NoDup_cons. split; [|done]. intros Hin.
      apply Hkeys in Hin as [Hge _]. unfold sizeof_BlockHeader in Hge. lia.
    + intros o [->|Ho]%elem_of_cons; [by rewrite Hhd; eauto|].
      apply Hkeys in Ho as [Hge ?]. unfold sizeof_BlockHeader in Hge.
      split; [lia|done].
Qed.

Lemma links_length (hs : gmap Z BlockHeader) (stop off : Z) (prv : option Z)
    (bl : Blocks) :
  links hs stop off prv bl → (length bl ≤ base.size hs)%nat.
Proof.
  intros (keys & <- & Hnd & Hkeys)%links_keys.
  rewrite <- (size_dom (D := gset Z)).
  rewrite <- (size_list_to_set (C := gset Z) keys) by done.
  apply subseteq_size. intros o Ho%elem_of_list_to_set.
  apply elem_of_dom. by apply Hkeys.
Qed.

(** The loop of findFreeBlock is first-fit over the block list. *)
Lemma findFreeBlock_from_links (hs : gmap Z BlockHeader) (stop : Z) (sz : Z)
    (bl : Blocks) (fuel : nat) (off : Z) (prv : option Z) :
  links hs stop off prv bl → off + span bl = stop → (length bl ≤ fuel)%nat →
  findFreeBlock_from fuel hs (next_of off stop) sz = Some (first_fit off bl sz).
Proof.
  revert fuel off prv. induction bl as [|[s fr] rest IH]; intros fuel off prv; cbn.
  - intros _ Hend _. rewrite Z.add_0_r in Hend. subst.
    rewrite next_of_None. by destruct fuel.
  - intros (Hs & Hhd & Hrest) Hend Hfuel.
    pose proof (links_span _ _ _ _ _ Hrest) as Hpos.
    unfold sizeof_BlockHeader in *.
    rewrite next_of_Some by lia.
    destruct fuel as [|fuel]; [lia|]. cbn [findFreeBlock_from].
    rewrite Hhd. cbn [mbind option_bind isFree size next].
    destruct (fr && bool_decide (s >= sz)); [done|].
    apply (IH fuel _ (Some off)); [done|lia|lia].
Qed.

Lemma first_fit_Some (off : Z) (bl : Blocks) (sz o : Z) :
  first_fit off bl sz = Some o →
  ∃ l1 s l2, bl = l1 ++ (s, true) :: l2 ∧ o = off + span l1 ∧ s >= sz.
Proof.
  revert off. induction bl as [|[s fr] rest IH]; intros off; cbn; [done|].
  destruct (fr && bool_decide (s >= sz)) eqn:Hfit.
  - intros [= <-]. apply andb_true_iff in Hfit as [-> Hge%bool_decide_eq_true].
    exists [], s, rest. cbn. split; [done|]. split; [lia|done].
  - intros (l1 & s' & l2 & -> & -> & Hge)%IH.
    exists ((s, fr) :: l1), s', l2. cbn. split; [done|]. split; [lia|done].
Qed.

Lemma coalesce_halves (h : HeapAllocator) (block : Z) :
  coalesce h block = h1 ← merge_next h block; merge_prev h1 block.
Proof.
  unfold coalesce, merge_next, merge_prev.
  destruct (heap_headers h !! block); reflexivity.
Qed.

Lemma span_app (l1 l2 : Blocks) : span (l1 ++ l2) = span l1 + span l2.
Proof. induction l1 as [|[sz fr] rest IH]; cbn; [done|]. rewrite IH. lia. Qed.

Lemma used_app (l1 l2 : Blocks) : used (l1 ++ l2) = used l1 + used l2.
Proof. induction l1 as [|[sz fr] rest IH]; cbn; [done|]. rewrite IH. lia. Qed.

Lemma live_ptrs_app (off : Z) (l1 l2 : Blocks) :
  live_ptrs off (l1 ++ l2) = live_ptrs off l1 ++ live_ptrs (off + span l1) l2.
Proof.
  revert off. induction l1 as [|[sz fr] rest IH]; intros off; cbn.
  - by rewrite Z.add_0_r.
  - rewrite IH, <- app_assoc. do 3 f_equal. lia.
Qed.

Lemma links_nonneg (hs : gmap Z BlockHeader) (stop off : Z) (prv : option Z)
    (bl : Blocks) :
  links hs stop off prv bl → Forall (λ b, 0 ≤ b.1) bl.
Proof.
  revert off prv. induction bl as [|[sz fr] rest IH]; intros off prv; cbn;
    [by constructor|].
  intros (Hsz & _ & Hrest). constructor; [done|]. by eapply IH.
Qed.

Lemma span_nonneg (bl : Blocks) : Forall (λ b, 0 ≤ b.1) bl → 0 ≤ span bl.
Proof.
  induction 1 as [|[sz fr] rest Hsz _ IH]; cbn in *; [lia|].
  unfold sizeof_BlockHeader. lia.
Qed.

Lemma used_bounds (bl : Blocks) :
  Forall (λ b, 0 ≤ b.1) bl → 0 ≤ used bl ≤ span bl.
Proof.
  induction 1 as [|[sz fr] rest Hsz _ IH]; cbn in *; [lia|].
  unfold sizeof_BlockHeader. destruct fr; lia.
Qed.

Lemma live_ptrs_bounds (off : Z) (bl : Blocks) (q : Z) :
  Forall (λ b, 0 ≤ b.1) bl → q ∈ live_ptrs off bl →
  off + sizeof_BlockHeader ≤ q ≤ off + span bl.
Proof.
  intros Hnn. revert off. induction Hnn as [|[sz fr] rest Hsz Hrest IH];
    intros off; cbn; [by intros ?%elem_of_nil|].
  pose proof (span_nonneg _ Hrest). unfold sizeof_BlockHeader in *. cbn in Hsz.
  intros [Hq|Hq]%elem_of_app.
  - destruct fr; [by apply elem_of_nil in Hq|].
    apply list_elem_of_singleton in Hq as ->. lia.
  - apply IH in Hq. lia.
Qed.

(** Replacing a run of blocks by another one of the same span. *)
Lemma links_splice (hs hs' : gmap Z BlockHeader) (stop : Z)
    (l1 mid mid' l2 : Blocks) :
  links hs stop 0 None (l1 ++ mid ++ l2) →
  span mid' = span mid →
  (∀ a, a < span l1 → hs' !! a = hs !! a) →
  links hs' stop (span l1) (last_ptr 0 None l1) mid' →
  match l2 with
  | [] => True
  | (s2, f2) :: _ =>
      hs' !! (span l1 + span mid)
        = Some (mkBlock s2 f2
                  (next_of (span l1 + span mid + sizeof_BlockHeader + s2) stop)
                  (last_ptr (span l1) (last_ptr 0 None l1) mid'))
  end →
  (∀ a, span l1 + span mid < a → hs' !! a = hs !! a) →
  links hs' stop 0 None (l1 ++ mid' ++ l2).
Proof.
  intros [Hl1 [Hmid Hl2]%links_app]%links_app Hspan Hlow Hmid' Hhead Hhigh.
  apply links_app. split.
  - eapply links_frame; [|exact Hl1]. intros o Ho. apply Hlow. lia.
  - apply links_app. split; [done|]. rewrite Hspan. rewrite !Z.add_0_l in *.
    destruct l2 as [|[s2 f2] l3]; [done|].
    destruct Hl2 as (Hs2 & Hhd & Hrest). pose proof (links_span _ _ _ _ _ Hrest).
    split; [done|]. split; [exact Hhead|].
    eapply links_frame; [|exact Hrest]. intros o Ho. apply Hhigh.
    unfold sizeof_BlockHeader in *. lia.
Qed.

Local Ltac arith :=
  repeat match goal with x := _ : Z |- _ => subst x end;
  cbn [fst snd span used app] in *; unfold sizeof_BlockHeader in *; lia.

Local Ltac hcbn :=
  cbn [mbind option_bind heap_headers with_headers with_allocatedBytes
       allocatedBytes_ freeList_ heapSize_ heap_bytes];
  unfold set_isFree, set_next, set_size, set_prev;
  cbn [mbind option_bind heap_headers with_headers with_allocatedBytes
       allocatedBytes_ freeList_ heapSize_ heap_bytes
       size isFree next prev].

Lemma wrap64_small (x : Z) : 0 ≤ x < 2 ^ 64 → wrap64 x = x.
Proof. intros. unfold wrap64. by apply Z.mod_small. Qed.

(** The first half of coalesce on the block list: a free block absorbs
    a free successor. *)
Lemma merge_next_tiled (h : HeapAllocator) (l1 : Blocks) (s : Z) (l2 : Blocks) :
  tiled h (l1 ++ (s, true) :: l2) → merged l2 →
  ∃ h1 s' l2',
    merge_next h (span l1) = Some h1 ∧
    tiled h1 (l1 ++ (s', true) :: l2') ∧
    live_ptrs 0 (l1 ++ (s', true) :: l2') = live_ptrs 0 (l1 ++ (s, true) :: l2) ∧
    head_used l2' ∧ merged l2' ∧
    allocatedBytes_ h1 = allocatedBytes_ h ∧ heapSize_ h1 = heapSize_ h ∧
    heap_bytes h1 = heap_bytes h.
Proof.
  intros [Hlist Hlinks Hspan Hsize Hused] Hmerged.
  pose proof Hlinks as [Hl1 Hrest]%links_app.
  pose proof (links_nonneg _ _ _ _ _ Hlinks) as Hnn.
  apply Forall_app in Hnn as [Hnn1 Hnn2].
  pose proof (span_nonneg _ Hnn1) as Hpos1.
  rewrite span_app in Hspan. cbn [span] in Hspan.
  rewrite Z.add_0_l in Hrest. set (o := span l1) in *.
  destruct Hrest as (Hs & Hhd & Hl2).
  assert (Hstay : head_used l2 → merge_next h o = Some h →
    ∃ h1 s' l2',
      merge_next h o = Some h1 ∧ tiled h1 (l1 ++ (s', true) :: l2') ∧
      live_ptrs 0 (l1 ++ (s', true) :: l2') = live_ptrs 0 (l1 ++ (s, true) :: l2) ∧
      head_used l2' ∧ merged l2' ∧
      allocatedBytes_ h1 = allocatedBytes_ h ∧ heapSize_ h1 = heapSize_ h ∧
      heap_bytes h1 = heap_bytes h).
  { intros Hhead Hrun. exists h, s, l2. split; [done|]. split; [|done].
    split; [done..| |done|done]. rewrite span_app. done. }
  destruct l2 as [|[s2 f2] l3].
  { apply Hstay; [done|]. unfold merge_next. rewrite Hhd. hcbn.
    replace (o + sizeof_BlockHeader + s) with (heapSize_ h) by arith.
    by rewrite next_of_None. }
  apply Forall_cons in Hnn2 as [_ Hnn2]. apply Forall_cons in Hnn2 as [Hs2 Hnn3].
  pose proof (span_nonneg _ Hnn3) as Hpos3. cbn [span] in Hspan.
  destruct Hl2 as (_ & Hhd2 & Hl3).
  set (n := o + sizeof_BlockHeader + s) in *.
  destruct f2.
  2:{ apply Hstay; [done|]. unfold merge_next. rewrite Hhd. hcbn.
      rewrite next_of_Some by arith. hcbn. rewrite Hhd2. by hcbn. }
  clear Hstay.
  assert (Hsum : wrap64 (s + (sizeof_BlockHeader + s2)) = s + sizeof_BlockHeader + s2).
  { rewrite wrap64_small; arith. }
  assert (Hm : merged l3 ∧ head_used l3).
  { destruct l3 as [|[s3 f3] l4]; [done|]. cbn in Hmerged.
    destruct Hmerged as [Hnot Hm]. split; [done|]. cbn. destruct f3; [|done].
    by apply Hnot. }
  destruct Hm as [Hm3 Hhead3].
  assert (Hlive : live_ptrs 0 (l1 ++ (s + sizeof_BlockHeader + s2, true) :: l3)
                  = live_ptrs 0 (l1 ++ (s, true) :: (s2, true) :: l3)).
  { rewrite !live_ptrs_app. cbn [live_ptrs app]. do 2 f_equal. arith. }
  exists (with_headers
            (match l3 with
             | [] => <[o := mkBlock (s + sizeof_BlockHeader + s2) true None
                                    (last_ptr 0 None l1)]> (heap_headers h)
             | (s3, f3) :: _ =>
                 <[n + sizeof_BlockHeader + s2 :=
                     mkBlock s3 f3
                       (next_of (n + sizeof_BlockHeader + s2 + sizeof_BlockHeader + s3)
                                (heapSize_ h))
                       (Some o)]>
                   (<[o := mkBlock (s + sizeof_BlockHeader + s2) true
                                   (Some (n + sizeof_BlockHeader + s2))
                                   (last_ptr 0 None l1)]> (heap_headers h))
             end) h),
         (s + sizeof_BlockHeader + s2), l3.
  split; [|split; [|done]].
  - unfold merge_next, store.
    repeat progress
      (hcbn; rewrite ?Hsum, ?lookup_insert_eq, ?Hhd, ?Hhd2;
       try rewrite lookup_insert_ne by arith;
       try rewrite (next_of_Some n) by arith).
    destruct l3 as [|[s3 f3] l4].
    + replace (n + sizeof_BlockHeader + s2) with (heapSize_ h) by arith.
      rewrite next_of_None. hcbn. by rewrite !insert_insert_eq.
    + apply Forall_cons in Hnn3 as [Hs3 Hnn4].
      pose proof (span_nonneg _ Hnn4) as Hpos4.
      destruct Hl3 as (_ & Hhd3 & Hl4).
      rewrite (next_of_Some (n + sizeof_BlockHeader + s2)) by arith. hcbn.
      rewrite !lookup_insert_ne by arith. rewrite Hhd3. hcbn.
      by rewrite !insert_insert_eq.
  - split; cbn [freeList_ heap_headers heapSize_ allocatedBytes_ with_headers];
      [done| |rewrite span_app; arith|done|rewrite Hused, !used_app; cbn; lia].
    eapply (links_splice _ _ _ l1 [(s, true); (s2, true)]
              [(s + sizeof_BlockHeader + s2, true)] l3).
    + exact Hlinks.
    + arith.
    + intros a Ha. fold o in Ha.
      destruct l3 as [|[s3 f3] l4]; rewrite ?lookup_insert_ne by arith; done.
    + cbn. fold o. split; [arith|]. split; [|done].
      destruct l3 as [|[s3 f3] l4].
      * rewrite lookup_insert_eq. do 2 f_equal.
        unfold next_of. rewrite decide_True; [done|]. arith.
      * apply Forall_cons in Hnn3 as [Hs3 Hnn4].
        pose proof (span_nonneg _ Hnn4) as Hpos4.
        rewrite lookup_insert_ne by arith. rewrite lookup_insert_eq. do 2 f_equal.
        unfold next_of. rewrite decide_False by arith. f_equal. arith.
    + destruct l3 as [|[s3 f3] l4]; [done|]. fold o. cbn [span last_ptr].
      replace (o + (sizeof_BlockHeader + s + (sizeof_BlockHeader + s2 + 0)))
        with (n + sizeof_BlockHeader + s2) by arith.
      rewrite lookup_insert_eq. do 3 f_equal; arith.
    + intros a Ha. fold o in Ha.
      destruct l3 as [|[s3 f3] l4]; rewrite ?lookup_insert_ne by arith; done.
Qed.

Lemma last_ptr_snoc (off : Z) (prv : option Z) (l0 : Blocks) (sp : Z) (fp : bool) :
  last_ptr off prv (l0 ++ [(sp, fp)]) = Some (off + span l0).
Proof.
  revert off prv. induction l0 as [|[sz fr] rest IH]; intros off prv; cbn.
  - f_equal. lia.
  - rewrite IH. f_equal. lia.
Qed.

(** When the predecessor is free, the second half of coalesce is the
    first half run on the predecessor. *)
Lemma merge_prev_as_next (h : HeapAllocator) (l0 : Blocks) (sp S : Z) (l2 : Blocks) :
  tiled h (l0 ++ (sp, true) :: (S, true) :: l2) →
  merge_prev h (span l0 + sizeof_BlockHeader + sp) = merge_next h (span l0).
Proof.
  intros [Hlist Hlinks Hspan Hsize Hused].
  pose proof Hlinks as [Hl0 Hrest]%links_app.
  pose proof (links_nonneg _ _ _ _ _ Hlinks) as Hnn.
  apply Forall_app in Hnn as [Hnn0 Hnn2].
  apply Forall_cons in Hnn2 as [Hsp Hnn2]. apply Forall_cons in Hnn2 as [HS Hnn2].
  pose proof (span_nonneg _ Hnn0) as Hpos0. pose proof (span_nonneg _ Hnn2) as Hpos2.
  rewrite span_app in Hspan. cbn [span] in Hspan.
  rewrite Z.add_0_l in Hrest. set (p := span l0) in *.
  destruct Hrest as (_ & Hp & _ & Ho & _).
  set (o := p + sizeof_BlockHeader + sp) in *.
  rewrite (next_of_Some o) in Hp by arith.
  unfold merge_prev, merge_next, store.
  repeat progress
    (hcbn; rewrite ?lookup_insert_eq, ?Hp, ?Ho;
     try rewrite lookup_insert_ne by arith).
  done.
Qed.

Lemma merged_cons_used (s : Z) (l2 : Blocks) :
  merged ((s, false) :: l2) ↔ merged l2.
Proof. destruct l2 as [|[s2 f2] l3]; cbn; [done|]. intuition congruence. Qed.

Lemma merged_cons_free (s : Z) (l2 : Blocks) :
  merged ((s, true) :: l2) ↔ head_used l2 ∧ merged l2.
Proof.
  destruct l2 as [|[s2 f2] l3]; cbn; [tauto|].
  destruct f2; intuition congruence.
Qed.

Lemma merged_app_used (l1 : Blocks) (s : Z) (l2 : Blocks) :
  merged (l1 ++ (s, false) :: l2) ↔ merged l1 ∧ merged l2.
Proof.
  induction l1 as [|[s1 f1] [|[s1' f1'] l1'] IH].
  - cbn [app]. rewrite merged_cons_used. cbn. tauto.
  - cbn [app].
    change (merged ((s1, f1) :: (s, false) :: l2))
      with (¬ (f1 = true ∧ false = true) ∧ merged ((s, false) :: l2)).
    rewrite merged_cons_used. cbn. intuition congruence.
  - cbn [app] in *.
    change (merged ((s1, f1) :: (s1', f1') :: l1' ++ (s, false) :: l2))
      with (¬ (f1 = true ∧ f1' = true) ∧ merged ((s1', f1') :: l1' ++ (s, false) :: l2)).
    change (merged ((s1, f1) :: (s1', f1') :: l1'))
      with (¬ (f1 = true ∧ f1' = true) ∧ merged ((s1', f1') :: l1')).
    rewrite IH. tauto.
Qed.

Lemma merged_snoc_free (l0 : Blocks) (sp x : Z) (l2 : Blocks) :
  merged (l0 ++ [(sp, true)]) → merged ((x, true) :: l2) →
  merged (l0 ++ (x, true) :: l2).
Proof.
  intros H0 H2. induction l0 as [|[s1 f1] [|[s1' f1'] l0'] IH].
  - done.
  - cbn [app] in *. cbn in H0. destruct H0 as [Hnot _].
    change (¬ (f1 = true ∧ true = true) ∧ merged ((x, true) :: l2)). done.
  - cbn [app] in *.
    change (¬ (f1 = true ∧ f1' = true) ∧ merged ((s1', f1') :: l0' ++ [(sp, true)]))
      in H0.
    change (¬ (f1 = true ∧ f1' = true) ∧ merged ((s1', f1') :: l0' ++ (x, true) :: l2)).
    destruct H0 as [Hnot H0]. split; [done|]. by apply IH.
Qed.

(** The second half of coalesce on the block list. *)
Lemma merge_prev_tiled (h : HeapAllocator) (l1 : Blocks) (S : Z) (l2 : Blocks) :
  tiled h (l1 ++ (S, true) :: l2) → merged l1 → merged l2 → head_used l2 →
  ∃ h' bl',
    merge_prev h (span l1) = Some h' ∧ well_formed h' bl' ∧
    live_ptrs 0 bl' = live_ptrs 0 (l1 ++ (S, true) :: l2) ∧
    allocatedBytes_ h' = allocatedBytes_ h ∧ heapSize_ h' = heapSize_ h ∧
    heap_bytes h' = heap_bytes h.
Proof.
  intros Htiled Hm1 Hm2 Hhead.
  assert (Hm2' : merged ((S, true) :: l2)) by (by apply merged_cons_free).
  destruct l1 as [|[sp fp] l0 _] using rev_ind.
  - exists h, ((S, true) :: l2). split; [|split; [by split|done]].
    destruct Htiled as [_ Hlinks _ _ _]. cbn in Hlinks.
    destruct Hlinks as (_ & Hhd & _). unfold merge_prev. cbn [span].
    rewrite Hhd. by hcbn.
  - destruct fp.
    + rewrite <- app_assoc in Htiled. cbn [app] in Htiled.
      rewrite span_app. cbn [span]. rewrite Z.add_0_r, Z.add_assoc.
      rewrite (merge_prev_as_next h l0 sp S l2 Htiled).
      destruct (merge_next_tiled h l0 sp ((S, true) :: l2) Htiled Hm2')
        as (h1 & s' & l2' & Hrun & Ht1 & Hlive & Hhead' & Hm' & Hfr).
      exists h1, (l0 ++ (s', true) :: l2'). split; [done|].
      split; [split; [done|]|split; [|done]].
      * apply (merged_snoc_free l0 sp); [done|]. by apply merged_cons_free.
      * rewrite Hlive. by rewrite <- app_assoc.
    + exists h, ((l0 ++ [(sp, false)]) ++ (S, true) :: l2).
      split; [|split; [split|done]].
      * destruct Htiled as [_ Hlinks Hspan Hsize _].
        pose proof (links_nonneg _ _ _ _ _ Hlinks) as Hnn.
        rewrite <- app_assoc in Hlinks. cbn [app] in Hlinks.
        apply Forall_app in Hnn as [[Hnn0 _]%Forall_app _].
        pose proof (span_nonneg _ Hnn0) as Hpos0.
        apply links_app in Hlinks as [_ Hrest]. rewrite Z.add_0_l in Hrest.
        destruct Hrest as (Hsp & Hp & _ & Ho & _).
        rewrite span_app. cbn [span]. rewrite Z.add_0_r, Z.add_assoc.
        unfold merge_prev. rewrite Ho. hcbn. rewrite Hp. by hcbn.
      * done.
      * rewrite <- app_assoc. cbn [app]. apply merged_app_used.
        rewrite <- (app_nil_r (l0 ++ [(sp, false)])) in Hm1.
        rewrite <- app_assoc in Hm1. cbn [app] in Hm1.
        apply merged_app_used in Hm1 as [Hm0 _]. done.
Qed.

(** free on the block list: the block is marked free and merged with
    its free neighbours. *)
Lemma free_wf (h : HeapAllocator) (l1 : Blocks) (s : Z) (l2 : Blocks) :
  well_formed h (l1 ++ (s, false) :: l2) →
  ∃ h' bl',
    free h (Some (span l1 + sizeof_BlockHeader)) = Some h' ∧
    well_formed h' bl' ∧
    live_ptrs 0 bl' = live_ptrs 0 (l1 ++ (s, true) :: l2) ∧
    allocatedBytes_ h' = allocatedBytes_ h - s ∧ heapSize_ h' = heapSize_ h ∧
    heap_bytes h' = heap_bytes h.
Proof.
  intros [[Hlist Hlinks Hspan Hsize Hused] [Hm1 Hm2]%merged_app_used].
  pose proof Hlinks as [Hl1 Hrest]%links_app.
  pose proof (links_nonneg _ _ _ _ _ Hlinks) as Hnn.
  pose proof (used_bounds _ Hnn) as Hub.
  apply Forall_app in Hnn as [Hnn1 Hnn2].
  apply Forall_cons in Hnn2 as [Hs Hnn2].
  pose proof (span_nonneg _ Hnn1) as Hpos1. pose proof (span_nonneg _ Hnn2) as Hpos2.
  pose proof (used_bounds _ Hnn1) as Hu1. pose proof (used_bounds _ Hnn2) as Hu2.
  rewrite Z.add_0_l in Hrest. set (o := span l1) in *.
  destruct Hrest as (_ & Hhd & Hl2).
  rewrite span_app in Hspan. rewrite used_app in Hused, Hub.
  cbn [span used] in Hspan, Hused, Hub.
  unfold free, store. replace (o + sizeof_BlockHeader - sizeof_BlockHeader) with o by lia.
  repeat progress (hcbn; rewrite ?lookup_insert_eq, ?Hhd).
  rewrite wrap64_small by arith.
  set (h1 := with_allocatedBytes _ _).
  assert (Ht1 : tiled h1 (l1 ++ (s, true) :: l2)).
  { subst h1. split; hcbn; [done| |rewrite span_app; arith|done|].
    - eapply (links_splice _ _ _ l1 [(s, false)] [(s, true)] l2).
      + exact Hlinks.
      + done.
      + intros a Ha. fold o in Ha. rewrite lookup_insert_ne by arith. done.
      + cbn. fold o. split; [arith|]. split; [|done]. by rewrite lookup_insert_eq.
      + destruct l2 as [|[s2 f2] l3]; [done|]. fold o. cbn [span last_ptr].
        destruct Hl2 as (_ & Hhd2 & _).
        rewrite lookup_insert_ne by arith.
        replace (o + (sizeof_BlockHeader + s + 0)) with (o + sizeof_BlockHeader + s)
          by arith.
        rewrite Hhd2. do 3 f_equal; arith.
      + intros a Ha. fold o in Ha. rewrite lookup_insert_ne by arith. done.
    - rewrite Hused, used_app. cbn [used]. lia. }
  rewrite coalesce_halves.
  destruct (merge_next_tiled h1 l1 s l2 Ht1 Hm2)
    as (h2 & s' & l2' & Hrun & Ht2 & Hlive & Hhead & Hm2' & Ha2 & Hz2 & Hb2).
  fold o in Hrun. rewrite Hrun. cbn [mbind option_bind].
  destruct (merge_prev_tiled h2 l1 s' l2' Ht2 Hm1 Hm2' Hhead)
    as (h' & bl' & Hrun' & Hwf & Hlive' & Ha' & Hz' & Hb').
  exists h', bl'. fold o in Hrun'. split; [done|]. split; [done|].
  split; [congruence|]. rewrite Ha', Ha2, Hz', Hz2, Hb', Hb2. by subst h1.
Qed.

Lemma merged_app_inv (l1 l2 : Blocks) : merged (l1 ++ l2) → merged l1 ∧ merged l2.
Proof.
  induction l1 as [|[s1 f1] [|[s1' f1'] l1'] IH]; intros H.
  - done.
  - split; [done|]. cbn [app] in H. destruct l2 as [|[s2 f2] l3]; [done|].
    by destruct H.
  - cbn [app] in *.
    change (¬ (f1 = true ∧ f1' = true) ∧ merged ((s1', f1') :: l1' ++ l2)) in H.
    destruct H as [Hnot H]. apply IH in H as [? ?]. split; [|done].
    change (¬ (f1 = true ∧ f1' = true) ∧ merged ((s1', f1') :: l1')). done.
Qed.

Lemma findFreeBlock_tiled (h : HeapAllocator) (bl : Blocks) (sz : Z) :
  tiled h bl → findFreeBlock h sz = Some (first_fit 0 bl sz).
Proof.
  intros [Hlist Hlinks Hspan Hsize Hused]. unfold findFreeBlock. rewrite Hlist.
  rewrite <- (next_of_Some 0 (heapSize_ h)) by lia.
  eapply findFreeBlock_from_links; [done|lia|]. by eapply links_length.
Qed.

(** allocate on the block list: first-fit picks a free block, which is
    handed out whole or split into the request and a free tail. *)
Lemma allocate_wf (h : HeapAllocator) (bl : Blocks) (request : Z) :
  well_formed h bl → 0 < request < 2 ^ 63 →
  ∃ r h',
    allocate h request = Some (r, h') ∧
    match r with
    | None => h' = h
    | Some p =>
        ∃ l1 s l2 got tail,
          bl = l1 ++ (s, true) :: l2 ∧ p = span l1 + sizeof_BlockHeader ∧
          request ≤ got ∧ span ((got, false) :: tail) = span [(s, true)] ∧
          Forall (λ b, b.2 = true) tail ∧
          well_formed h' (l1 ++ (got, false) :: tail ++ l2) ∧
          heapSize_ h' = heapSize_ h ∧
          allocatedBytes_ h' = allocatedBytes_ h + got ∧
          heap_bytes h' = heap_bytes h ∧
          (∀ a b, a < span l1 ∨ span l1 + sizeof_BlockHeader + s ≤ a →
                  heap_headers h !! a = Some b →
                  ∃ b', heap_headers h' !! a = Some b' ∧
                        size b' = size b ∧ isFree b' = isFree b)
    end.
Proof.
  intros [Ht Hm] Hreq.
  pose proof (align8_bounds request) as Hsz.
  set (sz := align8 request) in *.
  assert (Hsz' : request ≤ sz ≤ request + 7) by (apply Hsz; lia). clear Hsz.
  unfold allocate. rewrite decide_False by lia. fold sz.
  rewrite (findFreeBlock_tiled h bl sz Ht). cbn [mbind option_bind].
  destruct (first_fit 0 bl sz) as [o|] eqn:Hfit; [|by exists None, h].
  apply first_fit_Some in Hfit as (l1 & s & l2 & -> & -> & Hge).
  rewrite Z.add_0_l. set (o := span l1).
  destruct Ht as [Hlist Hlinks Hspan Hsize Hused].
  pose proof Hlinks as [Hl1 Hrest]%links_app.
  pose proof (links_nonneg _ _ _ _ _ Hlinks) as Hnn.
  pose proof (used_bounds _ Hnn) as Hub.
  apply Forall_app in Hnn as [Hnn1 Hnn2].
  apply Forall_cons in Hnn2 as [Hs Hnn2].
  pose proof (span_nonneg _ Hnn1) as Hpos1. pose proof (span_nonneg _ Hnn2) as Hpos2.
  pose proof (used_bounds _ Hnn1) as Hu1. pose proof (used_bounds _ Hnn2) as Hu2.
  rewrite Z.add_0_l in Hrest. fold o in Hrest.
  destruct Hrest as (_ & Hhd & Hl2).
  rewrite span_app in Hspan, Hub. rewrite used_app in Hused, Hub.
  cbn [span used] in Hspan, Hused, Hub. fold o in Hspan.
  apply merged_app_inv in Hm as [Hm1 [Hhead Hm2]%merged_cons_free].
  rewrite Hhd. hcbn.
  assert (Hwrap : wrap64 (sz + sizeof_BlockHeader + 8) = sz + sizeof_BlockHeader + 8).
  { rewrite wrap64_small; arith. }
  rewrite Hwrap.
  destruct (decide (s > sz + sizeof_BlockHeader + 8)) as [Hbig|Hsmall].
  - set (newBlock := o + sizeof_BlockHeader + sz).
    assert (Htail : wrap64 (s - sz - sizeof_BlockHeader) = s - sz - sizeof_BlockHeader).
    { rewrite wrap64_small; arith. }
    assert (Hacc : wrap64 (allocatedBytes_ h + sz) = allocatedBytes_ h + sz).
    { rewrite wrap64_small; arith. }
    assert (Hrun : ∃ h', splitBlock h o sz ≫= (λ h1,
                store o (set_isFree false) h1 ≫= λ h2,
                  heap_headers h2 !! o ≫= λ b2,
                    Some (Some (o + sizeof_BlockHeader),
                          with_allocatedBytes (wrap64 (allocatedBytes_ h2 + size b2)) h2))
              = Some (Some (o + sizeof_BlockHeader), h') ∧
              freeList_ h' = freeList_ h ∧ heapSize_ h' = heapSize_ h ∧
              heap_bytes h' = heap_bytes h ∧
              allocatedBytes_ h' = allocatedBytes_ h + sz ∧
              (∀ a, a < o → heap_headers h' !! a = heap_headers h !! a) ∧
              heap_headers h' !! o
                = Some (mkBlock sz false (Some newBlock) (last_ptr 0 None l1)) ∧
              heap_headers h' !! newBlock
                = Some (mkBlock (s - sz - sizeof_BlockHeader) true
                          (next_of (o + sizeof_BlockHeader + s) (heapSize_ h))
                          (Some o)) ∧
              match l2 with
              | [] => True
              | (s2, f2) :: _ =>
                  heap_headers h' !! (o + sizeof_BlockHeader + s)
                    = Some (mkBlock s2 f2
                              (next_of (o + sizeof_BlockHeader + s + sizeof_BlockHeader + s2)
                                       (heapSize_ h))
                              (Some newBlock))
              end ∧
              (∀ a, o + sizeof_BlockHeader + s < a →
                    heap_headers h' !! a = heap_headers h !! a) ∧
              (∀ a b, o + sizeof_BlockHeader + s ≤ a →
                      heap_headers h !! a = Some b →
                      ∃ b', heap_headers h' !! a = Some b' ∧
                            size b' = size b ∧ isFree b' = isFree b)).
    { unfold splitBlock, store. fold newBlock.
      destruct l2 as [|[s2 f2] l3].
      - replace (o + sizeof_BlockHeader + s) with (heapSize_ h) in * by arith.
        rewrite next_of_None in *.
        repeat progress
          (hcbn; rewrite ?Htail, ?Hacc, ?lookup_insert_eq, ?Hhd;
           try rewrite lookup_insert_ne by arith).
        eexists. split; [reflexivity|]. hcbn.
        split; [done|]. split; [done|]. split; [done|]. split; [done|].
        split; [intros a Ha; rewrite !lookup_insert_ne by arith; done|].
        split; [by rewrite lookup_insert_eq|].
        split; [by rewrite !lookup_insert_ne, lookup_insert_eq by arith|].
        split; [done|].
        split; [intros a Ha; rewrite !lookup_insert_ne by arith; done|].
        intros a b Ha Hb. exists b. rewrite !lookup_insert_ne by arith. done.
      - apply Forall_cons in Hnn2 as [Hs2 Hnn3].
        pose proof (span_nonneg _ Hnn3) as Hpos3. cbn [span] in Hspan.
        destruct Hl2 as (_ & Hhd2 & Hl3).
        rewrite (next_of_Some (o + sizeof_BlockHeader + s)) in * by arith.
        repeat progress
          (hcbn; rewrite ?Htail, ?Hacc, ?lookup_insert_eq, ?Hhd, ?Hhd2;
           try rewrite lookup_insert_ne by arith).
        eexists. split; [reflexivity|]. hcbn.
        split; [done|]. split; [done|]. split; [done|]. split; [done|].
        split; [intros a Ha; rewrite !lookup_insert_ne by arith; done|].
        split; [by rewrite lookup_insert_eq|].
        split; [by rewrite !lookup_insert_ne, lookup_insert_eq by arith|].
        split; [by rewrite !lookup_insert_ne, lookup_insert_eq by arith|].
        split; [intros a Ha; rewrite !lookup_insert_ne by arith; done|].
        intros a b Ha Hb. destruct (decide (a = o + sizeof_BlockHeader + s)) as [->|Hne].
        + rewrite Hhd2 in Hb. injection Hb as <-.
          rewrite !lookup_insert_ne, lookup_insert_eq by arith. by eauto.
        + exists b. rewrite !lookup_insert_ne by arith. done. }
    destruct Hrun as (h' & Hrun & Hfl & Hhs & Hby & Hab & Hlow & Ho & Hnew & Hnext
                      & Hhigh & Hkeep).
    exists (Some (o + sizeof_BlockHeader)), h'.
    split; [exact Hrun|].
    exists l1, s, l2, sz, [(s - sz - sizeof_BlockHeader, true)].
    split; [done|]. split; [done|]. split; [lia|]. split; [arith|].
    split; [by repeat constructor|].
    split; [|split; [done|split; [done|split; [done|]]]].
    2:{ intros a b [Ha|Ha] Hb; [|by apply Hkeep].
        exists b. rewrite Hlow by done. done. }
    split.
    + split; [congruence| |cbn [app]; rewrite !span_app; rewrite Hhs; arith|by rewrite Hhs|].
      * rewrite Hhs.
        eapply (links_splice _ _ _ l1 [(s, true)]
                  [(sz, false); (s - sz - sizeof_BlockHeader, true)] l2).
        -- exact Hlinks.
        -- arith.
        -- exact Hlow.
        -- cbn. fold o. fold newBlock. split; [lia|]. split.
           { rewrite Ho. do 3 f_equal. rewrite next_of_Some; [done|]. arith. }
           split; [arith|]. split; [|done].
           rewrite Hnew. do 3 f_equal; arith.
        -- destruct l2 as [|[s2 f2] l3]; [done|]. fold o. cbn [span last_ptr].
           fold newBlock.
           replace (o + (sizeof_BlockHeader + s + 0)) with (o + sizeof_BlockHeader + s)
             by arith.
           rewrite Hnext. do 3 f_equal; arith.
        -- intros a Ha. fold o in Ha. apply Hhigh. arith.
      * rewrite Hab, Hused, !used_app. cbn [used app]. lia.
    + cbn [app]. apply merged_app_used. split; [done|].
      apply merged_cons_free. done.
  - assert (Hacc : wrap64 (allocatedBytes_ h + s) = allocatedBytes_ h + s).
    { rewrite wrap64_small; arith. }
    unfold store.
    repeat progress (hcbn; rewrite ?Hacc, ?lookup_insert_eq, ?Hhd).
    eexists _, _. split; [reflexivity|].
    exists l1, s, l2, s, []. split; [done|]. split; [done|]. split; [lia|].
    split; [done|]. split; [by constructor|].
    split; [|split; [done|split; [done|split; [done|]]]].
    2:{ hcbn. intros a b Ha Hb. exists b. rewrite lookup_insert_ne by arith. done. }
    split.
    + split; hcbn; [done| |cbn [app]; rewrite span_app; arith|done|].
      * eapply (links_splice _ _ _ l1 [(s, true)] [(s, false)] l2).
        -- exact Hlinks.
        -- done.
        -- intros a Ha. fold o in Ha. rewrite lookup_insert_ne by arith. done.
        -- cbn. fold o. split; [arith|]. split; [|done]. by rewrite lookup_insert_eq.
        -- destruct l2 as [|[s2 f2] l3]; [done|]. fold o. cbn [span last_ptr].
           destruct Hl2 as (_ & Hhd2 & _).
           rewrite lookup_insert_ne by arith.
           replace (o + (sizeof_BlockHeader + s + 0)) with (o + sizeof_BlockHeader + s)
             by arith.
           rewrite Hhd2. do 3 f_equal; arith.
        -- intros a Ha. fold o in Ha. rewrite lookup_insert_ne by arith. done.
      * rewrite Hused, !used_app. cbn [used app]. lia.
    + cbn [app]. apply merged_app_used. done.
Qed.

Lemma live_ptrs_free (off : Z) (tail : Blocks) :
  Forall (λ b, b.2 = true) tail → live_ptrs off tail = [].
Proof.
  intros Hfree. revert off. induction Hfree as [|[sz fr] rest Hfr _ IH];
    intros off; cbn in *; [done|]. subst fr. apply IH.
Qed.

Lemma live_ptrs_elem (off : Z) (bl : Blocks) (q : Z) :
  q ∈ live_ptrs off bl →
  ∃ l1 s l2, bl = l1 ++ (s, false) :: l2 ∧ q = off + span l1 + sizeof_BlockHeader.
Proof.
  revert off. induction bl as [|[sz fr] rest IH]; intros off; cbn;
    [by intros ?%elem_of_nil|].
  intros [Hq|Hq]%elem_of_app.
  - destruct fr; [by apply elem_of_nil in Hq|].
    apply list_elem_of_singleton in Hq as ->.
    exists [], sz, rest. cbn. split; [done|]. lia.
  - apply IH in Hq as (l1 & s & l2 & -> & ->).
    exists ((sz, fr) :: l1), s, l2. cbn. split; [done|]. lia.
Qed.

(** A live pointer has a used header in front of it, and its block lies
    in the arena. *)
Lemma live_block (hs : gmap Z BlockHeader) (stop off : Z) (prv : option Z)
    (bl : Blocks) (q : Z) :
  links hs stop off prv bl → q ∈ live_ptrs off bl →
  ∃ b, hs !! (q - sizeof_BlockHeader) = Some b ∧ isFree b = false ∧
       0 ≤ size b ∧ off + sizeof_BlockHeader ≤ q ∧ q + size b ≤ off + span bl.
Proof.
  revert off prv. induction bl as [|[sz fr] rest IH]; intros off prv; cbn;
    [by intros _ ?%elem_of_nil|].
  intros (Hsz & Hhd & Hrest) [Hq|Hq]%elem_of_app.
  - destruct fr; [by apply elem_of_nil in Hq|].
    apply list_elem_of_singleton in Hq as ->.
    pose proof (links_span _ _ _ _ _ Hrest).
    replace (off + sizeof_BlockHeader - sizeof_BlockHeader) with off by lia.
    eexists. split; [exact Hhd|]. cbn. unfold sizeof_BlockHeader in *. lia.
  - destruct (IH _ _ Hrest Hq) as (b & Hb & Hfr & Hnn & Hlo & Hhi).
    exists b. unfold sizeof_BlockHeader in *. repeat split; [done..|lia|lia].
Qed.

Lemma live_disjoint (hs : gmap Z BlockHeader) (stop off : Z) (prv : option Z)
    (bl : Blocks) (p q : Z) (bp bq : BlockHeader) :
  links hs stop off prv bl → p ∈ live_ptrs off bl → q ∈ live_ptrs off bl →
  p ≠ q →
  hs !! (p - sizeof_BlockHeader) = Some bp →
  hs !! (q - sizeof_BlockHeader) = Some bq →
  p + size bp ≤ q - sizeof_BlockHeader ∨ q + size bq ≤ p - sizeof_BlockHeader.
Proof.
  revert off prv. induction bl as [|[sz fr] rest IH]; intros off prv; cbn;
    [by intros _ ?%elem_of_nil|].
  intros (Hsz & Hhd & Hrest) Hp Hq Hne Hbp Hbq.
  assert (Hhead : ∀ x bx y, x ∈ (if fr then [] else [off + sizeof_BlockHeader]) →
            hs !! (x - sizeof_BlockHeader) = Some bx →
            y ∈ live_ptrs (off + sizeof_BlockHeader + sz) rest →
            x + size bx ≤ y - sizeof_BlockHeader).
  { intros x bx y Hx Hbx Hy. destruct fr; [by apply elem_of_nil in Hx|].
    apply list_elem_of_singleton in Hx as ->.
    replace (off + sizeof_BlockHeader - sizeof_BlockHeader) with off in Hbx by lia.
    rewrite Hhd in Hbx. injection Hbx as <-. cbn.
    destruct (live_block _ _ _ _ _ _ Hrest Hy) as (_ & _ & _ & _ & Hlo & _).
    unfold sizeof_BlockHeader in *. lia. }
  apply elem_of_app in Hp as [Hp|Hp]; apply elem_of_app in Hq as [Hq|Hq].
  - destruct fr; [by apply elem_of_nil in Hp|].
    apply list_elem_of_singleton in Hp, Hq. congruence.
  - left. by eapply Hhead.
  - right. by eapply Hhead.
  - by eapply IH.
Qed.

Lemma well_formed_new (heapSize : Z) :
  sizeof_BlockHeader ≤ heapSize < 2 ^ 64 →
  well_formed (HeapAllocator_new heapSize) [(heapSize - sizeof_BlockHeader, true)].
Proof.
  intros Hsize. unfold sizeof_BlockHeader in *.
  split; [split|done]; cbn; unfold sizeof_BlockHeader; [done| |lia|lia|done].
  split; [lia|]. split; [|done]. rewrite lookup_singleton_eq.
  rewrite wrap64_small by lia. do 3 f_equal.
  unfold next_of. rewrite decide_True; [done|lia].
Qed.

Lemma live_ptrs_swap_in (l1 : Blocks) (s : Z) (l2 : Blocks) (got : Z)
    (tail : Blocks) (x : Z) :
  span ((got, false) :: tail) = span [(s, true)] →
  Forall (λ b, b.2 = true) tail →
  x ∈ live_ptrs 0 (l1 ++ (got, false) :: tail ++ l2) ↔
  x = span l1 + sizeof_BlockHeader ∨ x ∈ live_ptrs 0 (l1 ++ (s, true) :: l2).
Proof.
  intros Hspan Htail. rewrite !live_ptrs_app. cbn [live_ptrs].
  rewrite live_ptrs_app, (live_ptrs_free _ tail Htail). cbn [app].
  rewrite !elem_of_app, elem_of_cons. cbn [span] in Hspan.
  replace (0 + span l1 + sizeof_BlockHeader + got + span tail)
    with (0 + span l1 + sizeof_BlockHeader + s) by lia.
  rewrite Z.add_0_l. tauto.
Qed.

Lemma live_ptrs_swap_out (l1 : Blocks) (s : Z) (l2 : Blocks) (fr : bool) (x : Z) :
  Forall (λ b, 0 ≤ b.1) (l1 ++ (s, fr) :: l2) →
  x ∈ live_ptrs 0 (l1 ++ (s, true) :: l2) ↔
  x ∈ live_ptrs 0 (l1 ++ (s, false) :: l2) ∧ x ≠ span l1 + sizeof_BlockHeader.
Proof.
  intros [Hnn1 [Hs Hnn2]%Forall_cons]%Forall_app.
  rewrite !live_ptrs_app. cbn [live_ptrs].
  rewrite !elem_of_app. cbn [app]. rewrite elem_of_cons, !Z.add_0_l.
  assert (H1 : x ∈ live_ptrs 0 l1 → x ≠ span l1 + sizeof_BlockHeader).
  { intros Hq. apply live_ptrs_bounds in Hq; [|done].
    unfold sizeof_BlockHeader in *. lia. }
  assert (H2 : x ∈ live_ptrs (span l1 + sizeof_BlockHeader + s) l2 →
               x ≠ span l1 + sizeof_BlockHeader).
  { intros Hq. apply live_ptrs_bounds in Hq; [|done].
    unfold sizeof_BlockHeader in *. cbn in Hs. lia. }
  assert (H3 : x ∈ @nil Z → False) by (by intros ?%elem_of_nil).
  tauto.
Qed.

Lemma memcpy_lookup (h : HeapAllocator) (dst src n k : Z) :
  0 ≤ k < n →
  heap_bytes (memcpy h dst src n) !! (dst + k)
  = Some (default 0 (heap_bytes h !! (src + k))).
Proof.
  intros Hk. unfold memcpy. cbn [heap_bytes with_bytes].
  assert (Hin : k ∈ seqZ 0 n) by (apply elem_of_seqZ; lia).
  revert Hin. generalize (seqZ 0 n). intros l.
  induction l as [|j l IH] using rev_ind; [by intros ?%elem_of_nil|].
  rewrite foldl_app. cbn [foldl]. intros [Hin|Hin]%elem_of_app.
  - destruct (decide (j = k)) as [->|Hne]; [by rewrite lookup_insert_eq|].
    rewrite lookup_insert_ne by lia. by apply IH.
  - apply list_elem_of_singleton in Hin as ->. by rewrite lookup_insert_eq.
Qed.

Lemma tiled_memcpy (h : HeapAllocator) (bl : Blocks) (dst src n : Z) :
  well_formed h bl → well_formed (memcpy h dst src n) bl.
Proof. intros [[? ? ? ? ?] ?]. by destruct h. Qed.

(** reallocate on the block list. *)
Lemma reallocate_wf (h : HeapAllocator) (l1 : Blocks) (s : Z) (l2 : Blocks)
    (newSize : Z) :
  well_formed h (l1 ++ (s, false) :: l2) → 0 < newSize < 2 ^ 63 →
  ∃ r h',
    reallocate h (Some (span l1 + sizeof_BlockHeader)) newSize = Some (r, h') ∧
    match r with
    | None => h' = h ∧ s < newSize
    | Some q =>
        (q = span l1 + sizeof_BlockHeader ∧ h' = h ∧ newSize ≤ s) ∨
        (s < newSize ∧
         (q ∉ live_ptrs 0 (l1 ++ (s, false) :: l2)) ∧
         ∃ bl' got,
           well_formed h' bl' ∧
           (∀ x, x ∈ live_ptrs 0 bl' ↔
                 (x = q ∨ x ∈ live_ptrs 0 (l1 ++ (s, false) :: l2)) ∧
                 x ≠ span l1 + sizeof_BlockHeader) ∧
           newSize ≤ got ∧
           allocatedBytes_ h' = allocatedBytes_ h + got - s ∧
           ∀ k, 0 ≤ k < s →
                heap_bytes h' !! (q + k)
                = Some (default 0
                          (heap_bytes h !! (span l1 + sizeof_BlockHeader + k))))
    end.
Proof.
  intros Hwf Hsize. set (p := span l1 + sizeof_BlockHeader).
  pose proof Hwf as [[_ Hlinks _ _ _] _].
  pose proof (links_nonneg _ _ _ _ _ Hlinks) as Hnn.
  pose proof Hlinks as [_ Hrest]%links_app. rewrite Z.add_0_l in Hrest.
  destruct Hrest as (Hs & Hhd & _).
  assert (Hp : p ∈ live_ptrs 0 (l1 ++ (s, false) :: l2)).
  { rewrite live_ptrs_app. cbn [live_ptrs]. rewrite Z.add_0_l.
    apply elem_of_app. right. by left. }
  unfold reallocate. rewrite decide_False by lia.
  replace (p - sizeof_BlockHeader) with (span l1) by (subst p; lia).
  rewrite Hhd. hcbn.
  destruct (decide (s >= newSize)) as [Hfits|Hgrow].
  { exists (Some p), h. split; [done|]. left. split; [done|]. split; [done|lia]. }
  destruct (allocate_wf h _ newSize Hwf Hsize) as (r & h1 & -> & Hres).
  cbn [mbind option_bind fst snd].
  destruct r as [q|]; [|exists None, h1; split; [done|]; split; [done|lia]].
  destruct Hres as (l1' & s' & l2' & got & tail & Hbl & -> & Hgot & Hspan & Htail
                    & Hwf1 & _ & Hacc1 & Hbytes1 & Hkeep).
  rewrite Hbl in Hp, Hnn.
  assert (Hq : span l1' + sizeof_BlockHeader ∉ live_ptrs 0 (l1' ++ (s', true) :: l2')).
  { intros [_ Hne]%(live_ptrs_swap_out _ _ _ true); done. }
  assert (Hneq : p ≠ span l1' + sizeof_BlockHeader) by (intros Heq; by rewrite Heq in Hp).
  (* the header of the old block after the allocation *)
  assert (Hrange : span l1 < span l1' ∨ span l1' + sizeof_BlockHeader + s' ≤ span l1).
  { pose proof Hp as Hp0. rewrite live_ptrs_app in Hp0. cbn [live_ptrs app] in Hp0.
    pose proof Hnn as [Hnn1 [Hs' Hnn2]%Forall_cons]%Forall_app.
    apply elem_of_app in Hp0 as [Hp0|Hp0]; apply live_ptrs_bounds in Hp0; try done;
      subst p; unfold sizeof_BlockHeader in *; cbn in Hs'; lia. }
  destruct (Hkeep (span l1) _ Hrange Hhd) as (b' & Hb' & Hsz' & Hfr').
  rewrite Hb'. hcbn. cbn in Hsz'. rewrite Hsz'.
  (* the old block in the new list *)
  assert (Hp1 : p ∈ live_ptrs 0 (l1' ++ (got, false) :: tail ++ l2')).
  { apply live_ptrs_swap_in with (s := s'); [done..|]. by right. }
  apply live_ptrs_elem in Hp1 as (la & sa & lb & Hbl1 & Hpa).
  rewrite Z.add_0_l in Hpa. rewrite Hbl1 in Hwf1.
  destruct (free_wf (memcpy h1 (span l1' + sizeof_BlockHeader) p s) la sa lb)
    as (h' & bl' & Hfree & Hwf' & Hlive' & Hacc' & _ & Hbytes');
    [by apply tiled_memcpy|].
  rewrite <- Hpa in Hfree. rewrite Hfree. cbn [mbind option_bind].
  assert (Hsa : sa = s).
  { destruct Hwf1 as [[_ Hlinks1 _ _ _] _].
    apply links_app in Hlinks1 as [_ Hrest1]. rewrite Z.add_0_l in Hrest1.
    destruct Hrest1 as (_ & Hhda & _).
    replace (span la) with (span l1) in Hhda by (subst p; lia).
    rewrite Hb' in Hhda. injection Hhda as Heq. rewrite Heq in Hsz'. done. }
  subst sa.
  exists (Some (span l1' + sizeof_BlockHeader)), h'. split; [done|]. right.
  split; [lia|]. split; [by rewrite Hbl|].
  exists bl', got. split; [done|]. split; [|split; [lia|split]].
  - intros x. rewrite Hlive'.
    destruct Hwf1 as [[_ Hlinks1 _ _ _] _].
    rewrite (live_ptrs_swap_out _ _ _ false)
      by (by eapply links_nonneg).
    rewrite <- Hbl1, <- Hpa.
    rewrite (live_ptrs_swap_in _ s') by done. by rewrite Hbl.
  - rewrite Hacc'. destruct h1; cbn in *. lia.
  - intros k Hk. rewrite Hbytes'.
    rewrite memcpy_lookup by done. by rewrite Hbytes1.
Qed.

(** The invariant of the reachable allocators. *)
Lemma reach_well_formed (h : HeapAllocator) (live : list Z) :
  reach h live →
  ∃ bl, well_formed h bl ∧ ∀ q, q ∈ live ↔ q ∈ live_ptrs 0 bl.
Proof.
  induction 1 as [heapSize Hsize|h h' live request p _ IH Hreq Hal
                 |h h' live p _ IH Hp Hfree
                 |h h' live p newSize q _ IH Hp Hsize Hre].
  - eexists. split; [by apply well_formed_new|]. intros q. cbn.
    split; intros Hq; by apply elem_of_nil in Hq.
  - destruct IH as (bl & Hwf & Hlive).
    destruct (allocate_wf h bl request Hwf Hreq) as (r & h'' & Hal' & Hres).
    rewrite Hal in Hal'. injection Hal' as <- <-.
    destruct Hres as (l1 & s & l2 & got & tail & -> & -> & Hgot & Hspan & Htail
                      & Hwf' & _).
    eexists. split; [exact Hwf'|]. intros q.
    rewrite elem_of_cons, Hlive. by rewrite (live_ptrs_swap_in _ s).
  - destruct IH as (bl & Hwf & Hlive).
    pose proof Hp as Hp'. apply Hlive in Hp'.
    apply live_ptrs_elem in Hp' as (l1 & s & l2 & -> & ->).
    rewrite Z.add_0_l in *.
    destruct (free_wf h l1 s l2 Hwf) as (h'' & bl' & Hfree' & Hwf' & Hlive' & _).
    rewrite Hfree in Hfree'. injection Hfree' as <-.
    exists bl'. split; [done|]. intros q.
    rewrite list_elem_of_filter, Hlive, Hlive'.
    destruct Hwf as [[_ Hlinks _ _ _] _].
    rewrite (live_ptrs_swap_out _ _ _ false) by (by eapply links_nonneg). tauto.
  - destruct IH as (bl & Hwf & Hlive).
    pose proof Hp as Hp'. apply Hlive in Hp'.
    apply live_ptrs_elem in Hp' as (l1 & s & l2 & -> & ->).
    rewrite Z.add_0_l in *.
    destruct (reallocate_wf h l1 s l2 newSize Hwf Hsize) as (r & h'' & Hre' & Hres).
    rewrite Hre in Hre'. injection Hre' as <- <-.
    assert (Hin : span l1 + sizeof_BlockHeader ∈ live_ptrs 0 (l1 ++ (s, false) :: l2)).
    { rewrite live_ptrs_app. cbn [live_ptrs]. rewrite Z.add_0_l.
      apply elem_of_app. right. by left. }
    destruct Hres as [(-> & -> & _)|(_ & Hq & bl' & got & Hwf' & Hlive' & _)].
    + eexists. split; [exact Hwf|]. intros x.
      rewrite elem_of_cons, list_elem_of_filter, Hlive.
      destruct (decide (x = span l1 + sizeof_BlockHeader)) as [->|Hne]; tauto.
    + exists bl'. split; [done|]. intros x.
      rewrite elem_of_cons, list_elem_of_filter, Hlive, Hlive'.
      assert (Hne : q ≠ span l1 + sizeof_BlockHeader) by (by intros ->).
      destruct (decide (x = q)) as [->|Hx]; tauto.
Qed.

(** X22: the heap stays tiled. In every allocator reached from a fresh
    heap by allocate calls and by free and reallocate calls on live
    pointers (requests of 1 to 2^63 - 1 bytes), the list that starts at
    freeList_ runs through blocks that tile the arena from its first byte
    to its last, each linked to its two neighbours in memory; getUsedMemory is the payload of the blocks in use; no two
    neighbouring blocks are both free; and the live pointers are exactly
    the payload addresses of the blocks in use. *)
Theorem heap_stays_tiled (h : HeapAllocator) (live : list Z) :
  reach h live →
  ∃ bl : Blocks,
    freeList_ h = Some 0 ∧
    links (heap_headers h) (heapSize_ h) 0 None bl ∧
    span bl = getTotalMemory h ∧
    getUsedMemory h = used bl ∧
    merged bl ∧
    ∀ q, q ∈ live ↔ q ∈ live_ptrs 0 bl.
Proof.
  intros (bl & [[Hlist Hlinks Hspan Hsize Hused] Hm] & Hlive)%reach_well_formed.
  exists bl. done.
Qed.

(** X22, after one allocation in an 88-byte arena. *)
Lemma heap_stays_tiled_witness :
  ∃ h1, allocate (HeapAllocator_new 88) 8 = Some (Some 32, h1) ∧
        ∃ bl : Blocks,
          freeList_ h1 = Some 0 ∧
          links (heap_headers h1) (heapSize_ h1) 0 None bl ∧
          span bl = getTotalMemory h1 ∧ getUsedMemory h1 = used bl ∧
          merged bl ∧ ∀ q, q ∈ [32] ↔ q ∈ live_ptrs 0 bl.
Proof.
  eexists. split; [vm_compute; reflexivity|].
  apply (heap_stays_tiled _ [32]).
  eapply (reach_allocate (HeapAllocator_new 88) _ [] 8 32).
  - apply reach_new. unfold sizeof_BlockHeader. lia.
  - lia.
  - vm_compute. reflexivity.
Defined.

(** X23: live blocks never overlap. In every reachable allocator, each
    live pointer has a header in front of it that is marked used, its
    payload lies inside the arena, and the payloads of two different live
    pointers, headers included, are disjoint. *)
Theorem live_blocks_never_overlap (h : HeapAllocator) (live : list Z) :
  reach h live →
  (∀ p, p ∈ live →
        ∃ b, heap_headers h !! (p - sizeof_BlockHeader) = Some b ∧
             isFree b = false ∧ 0 ≤ size b ∧
             sizeof_BlockHeader ≤ p ∧ p + size b ≤ heapSize_ h) ∧
  (∀ p q bp bq, p ∈ live → q ∈ live → p ≠ q →
        heap_headers h !! (p - sizeof_BlockHeader) = Some bp →
        heap_headers h !! (q - sizeof_BlockHeader) = Some bq →
        p + size bp ≤ q - sizeof_BlockHeader ∨
        q + size bq ≤ p - sizeof_BlockHeader).
Proof.
  intros (bl & [[Hlist Hlinks Hspan Hsize Hused] Hm] & Hlive)%reach_well_formed.
  split.
  - intros p Hp%Hlive.
    destruct (live_block _ _ _ _ _ _ Hlinks Hp) as (b & Hb & Hfr & Hnn & Hlo & Hhi).
    exists b. rewrite <- Hspan. repeat split; [done..|lia|lia].
  - intros p q bp bq Hp%Hlive Hq%Hlive Hne Hbp Hbq.
    by eapply live_disjoint.
Qed.

(** X23, for two blocks handed out of a 1 KiB arena. *)
Lemma live_blocks_never_overlap_witness :
  ∃ h1 h2,
    allocate (HeapAllocator_new 1024) 100 = Some (Some 32, h1) ∧
    allocate h1 50 = Some (Some 168, h2) ∧
    ∀ bp bq, heap_headers h2 !! (32 - sizeof_BlockHeader) = Some bp →
             heap_headers h2 !! (168 - sizeof_BlockHeader) = Some bq →
             32 + size bp ≤ 168 - sizeof_BlockHeader ∨
             168 + size bq ≤ 32 - sizeof_BlockHeader.
Proof.
  eexists _, _. split; [vm_compute; reflexivity|]. split; [vm_compute; reflexivity|].
  intros bp bq.
  apply (live_blocks_never_overlap _ [168; 32]).
  - eapply (reach_allocate _ _ [32] 50 168).
    + eapply (reach_allocate (HeapAllocator_new 1024) _ [] 100 32).
      * apply reach_new. unfold sizeof_BlockHeader. lia.
      * lia.
      * vm_compute. reflexivity.
    + lia.
    + vm_compute. reflexivity.
  - set_solver.
  - set_solver.
  - done.
Defined.

(** X24: allocate and free always return on a reachable allocator. A
    request of 1 to 2^63 - 1 bytes either fails and leaves the allocator
    as it is, or returns a pointer that was not live, in front of which
    sits a used header of at least the requested size, and getUsedMemory
    has grown by that size. Freeing a live pointer returns and lowers
    getUsedMemory by the size of its block. *)
Theorem heap_calls_return (h : HeapAllocator) (live : list Z) :
  reach h live →
  (∀ request, 0 < request < 2 ^ 63 →
     ∃ r h', allocate h request = Some (r, h') ∧
       match r with
       | None => h' = h
       | Some p =>
           (p ∉ live) ∧
           ∃ b, heap_headers h' !! (p - sizeof_BlockHeader) = Some b ∧
                isFree b = false ∧ request ≤ size b ∧
                getUsedMemory h' = getUsedMemory h + size b
       end) ∧
  (∀ p, p ∈ live →
     ∃ h' b, heap_headers h !! (p - sizeof_BlockHeader) = Some b ∧
             free h (Some p) = Some h' ∧
             getUsedMemory h' = getUsedMemory h - size b).
Proof.
  intros (bl & Hwf & Hlive)%reach_well_formed. split.
  - intros request Hreq.
    destruct (allocate_wf h bl request Hwf Hreq) as (r & h' & Hal & Hres).
    exists r, h'. split; [done|]. destruct r as [p|]; [|done].
    destruct Hres as (l1 & s & l2 & got & tail & -> & -> & Hgot & Hspan & Htail
                      & [[_ Hlinks' _ _ _] _] & _ & Hacc & _).
    destruct Hwf as [[_ Hlinks _ _ _] _].
    pose proof (links_nonneg _ _ _ _ _ Hlinks) as Hnn.
    apply Forall_app in Hnn as [Hnn1 Hnn2]. apply Forall_cons in Hnn2 as [Hs Hnn2].
    split.
    + rewrite Hlive, live_ptrs_app. cbn [live_ptrs app]. rewrite Z.add_0_l.
      intros [Hq|Hq]%elem_of_app; apply live_ptrs_bounds in Hq; try done;
        unfold sizeof_BlockHeader in *; cbn in Hs; lia.
    + apply links_app in Hlinks' as [_ Hrest]. rewrite Z.add_0_l in Hrest.
      destruct Hrest as (_ & Hhd & _).
      replace (span l1 + sizeof_BlockHeader - sizeof_BlockHeader) with (span l1) by lia.
      eexists. split; [exact Hhd|]. done.
  - intros p Hp%Hlive.
    apply live_ptrs_elem in Hp as (l1 & s & l2 & -> & ->). rewrite Z.add_0_l.
    destruct (free_wf h l1 s l2 Hwf) as (h' & bl' & Hfree & _ & _ & Hacc & _).
    destruct Hwf as [[_ Hlinks _ _ _] _].
    apply links_app in Hlinks as [_ Hrest]. rewrite Z.add_0_l in Hrest.
    destruct Hrest as (_ & Hhd & _).
    replace (span l1 + sizeof_BlockHeader - sizeof_BlockHeader) with (span l1) by lia.
    eexists h', _. split; [exact Hhd|]. done.
Qed.

(** X24, after one allocation in an 88-byte arena: the pointer can be
    freed, and used memory drops by the 8 bytes of its block. *)
Lemma heap_calls_return_witness :
  ∃ h1 h2, allocate (HeapAllocator_new 88) 8 = Some (Some 32, h1) ∧
           free h1 (Some 32) = Some h2 ∧
           getUsedMemory h1 = 8 ∧ getUsedMemory h2 = 0.
Proof.
  destruct (allocate (HeapAllocator_new 88) 8) as [[r h1]|] eqn:Hal;
    [|vm_compute in Hal; discriminate].
  assert (Hr : r = Some 32) by (vm_compute in Hal; by injection Hal as <- _).
  subst r.
  destruct (heap_calls_return h1 [32]) as [_ Hfree].
  { eapply (reach_allocate (HeapAllocator_new 88) _ [] 8 32);
      [apply reach_new; unfold sizeof_BlockHeader; lia|lia|exact Hal]. }
  destruct (Hfree 32) as (h2 & b & Hb & Hf & Hused); [set_solver|].
  exists h1, h2. split; [done|]. split; [done|].
  assert (Hu1 : getUsedMemory h1 = 8).
  { vm_compute in Hal. injection Hal as <-. reflexivity. }
  split; [done|]. rewrite Hused, Hu1.
  vm_compute in Hal. injection Hal as <-. vm_compute in Hb. injection Hb as <-.
  reflexivity.
Defined.



End HeapAllocatorMore.

(** ** Further properties of the IPC manager *)

Section IPCManagerMore.
Import IPC IPCSpec IPCCalls.

Lemma wrap32_small (x : Z) : 0 ≤ x < 2 ^ 32 → wrap32 x = x.
Proof. intros. unfold wrap32. by apply Z.mod_small. Qed.

Lemma wrap32_add_l (x y : Z) : wrap32 (wrap32 x + y) = wrap32 (x + y).
Proof. unfold wrap32. by rewrite Zplus_mod_idemp_l. Qed.

Lemma sendMessage_registered (m : IPCManager) (sender receiver : Z) (q : MessageQueue)
    (data : option (list Z)) (sz : Z) (t : MessageType) (blocking : bool) :
  messageQueues_ m !! receiver = Some q →
  sendMessage m sender receiver data sz t blocking =
  (nextMessageId_ m,
   mkIPC (<[receiver := enqueue q (mkMessage (nextMessageId_ m) sender receiver t
                                     (delivered_payload data sz) blocking)]>
            (messageQueues_ m))
         (wrap32 (nextMessageId_ m + 1))
         (wrap64 (totalMessagesSent_ m + 1))
         (totalMessagesReceived_ m)).
Proof.
  intros Hq. unfold sendMessage. rewrite Hq. do 4 f_equal.
  unfold delivered_payload, setPayload. destruct data as [buf|]; [|done].
  repeat case_decide; try done; lia.
Qed.

Lemma send_all_queue (items : list Outgoing) (m : IPCManager) (receiver : Z)
    (q : MessageQueue) :
  messageQueues_ m !! receiver = Some q →
  0 ≤ nextMessageId_ m < 2 ^ 32 →
  messageQueues_ (send_all m receiver items) =
    <[receiver := mkQueue (owner_ q)
                    (messages_ q ++ imap (arrives_as (nextMessageId_ m) receiver) items)]>
      (messageQueues_ m) ∧
  nextMessageId_ (send_all m receiver items)
    = wrap32 (nextMessageId_ m + Z.of_nat (length items)).
Proof.
  revert m q. induction items as [|it items IH]; intros m q Hq Hid.
  - cbn. rewrite app_nil_r, Z.add_0_r, wrap32_small by done. split; [|done].
    destruct q. by rewrite insert_id.
  - unfold send_all. cbn [foldl]. fold (send_all).
    rewrite (sendMessage_registered _ _ _ q) by done. cbn [snd].
    set (m1 := mkIPC _ _ _ _).
    destruct (IH m1 (enqueue q (arrives_as (nextMessageId_ m) receiver 0 it)))
      as (Hqs & Hnext).
    + subst m1. cbn [messageQueues_]. rewrite lookup_insert_eq.
      unfold arrives_as. by rewrite Z.add_0_r, wrap32_small.
    + subst m1. cbn [nextMessageId_]. unfold wrap32.
      apply Z.mod_pos_bound. lia.
    + fold (send_all m1 receiver items). rewrite Hqs, Hnext. subst m1.
      cbn [messageQueues_ nextMessageId_ enqueue owner_ messages_ length].
      rewrite insert_insert_eq, wrap32_add_l. split.
      * do 2 f_equal. rewrite <- app_assoc. f_equal. cbn [app imap]. f_equal.
        apply imap_ext. intros k x _. unfold arrives_as, compose. f_equal.
        rewrite wrap32_add_l. f_equal. lia.
      * f_equal. lia.
Qed.

Lemma receive_n_drains (L : list Message) (m : IPCManager) (receiver : Z)
    (q : MessageQueue) :
  messageQueues_ m !! receiver = Some q →
  messages_ q = L →
  (receive_n (length L) m receiver).1 = Some <$> L ∧
  messageQueues_ (receive_n (length L) m receiver).2 !! receiver
    = Some (mkQueue (owner_ q) []).
Proof.
  revert m q. induction L as [|msg L IH]; intros m q Hq HL.
  - cbn. split; [done|]. rewrite Hq. destruct q. cbn in HL. by subst.
  - assert (Hrecv : receiveMessage m receiver false =
              (Some msg,
               mkIPC (<[receiver := mkQueue (owner_ q) L]> (messageQueues_ m))
                     (nextMessageId_ m) (totalMessagesSent_ m)
                     (wrap64 (totalMessagesReceived_ m + 1)))).
    { unfold receiveMessage, dequeue. by rewrite Hq, HL. }
    cbn [length receive_n]. cbv zeta. rewrite Hrecv. cbn [fst snd].
    set (m1 := mkIPC _ _ _ _).
    destruct (IH m1 (mkQueue (owner_ q) L)) as (Hres & Hleft); [|done|].
    + subst m1. cbn [messageQueues_]. by rewrite lookup_insert_eq.
    + by rewrite Hres, Hleft.
Qed.

(** X1: a mailbox is a FIFO. Whatever the mailbox of a registered receiver
    holds, after a batch of sends to it, one receive per old message and
    per send returns first the old messages and then the batch, in send
    order, each with the next id, its sender and type and the bytes that
    were delivered; the receive after that finds the mailbox empty. *)
Theorem mailbox_is_fifo (m : IPCManager) (receiver : Z) (q : MessageQueue)
    (items : list Outgoing) :
  messageQueues_ m !! receiver = Some q →
  0 ≤ nextMessageId_ m < 2 ^ 32 →
  let sent := send_all m receiver items in
  let received := receive_n (length (messages_ q) + length items) sent receiver in
  received.1 = Some <$> (messages_ q ++ imap (arrives_as (nextMessageId_ m) receiver) items) ∧
  (receiveMessage received.2 receiver false).1 = None ∧
  getMessageCount received.2 receiver = 0.
Proof.
  intros Hq Hid. cbv zeta.
  destruct (send_all_queue items m receiver q Hq Hid) as (Hqs & _).
  set (L := messages_ q ++ imap (arrives_as (nextMessageId_ m) receiver) items) in *.
  assert (Hlen : (length (messages_ q) + length items)%nat = length L).
  { subst L. by rewrite length_app, length_imap. }
  rewrite Hlen.
  destruct (receive_n_drains L (send_all m receiver items) receiver
              (mkQueue (owner_ q) L)) as (Hres & Hleft); [|done|].
  { by rewrite Hqs, lookup_insert_eq. }
  split_and!; [done| |].
  - unfold receiveMessage. by rewrite Hleft.
  - unfold getMessageCount. by rewrite Hleft.
Qed.

(** X1 on a concrete run: one old message, then a Data and a Signal sent. *)
Lemma mailbox_is_fifo_witness :
  let m := (sendMessage (registerTask (registerTask IPCManager_new 1).2 2).2
                        1 2 (Some [9]) 1 Request false).2 in
  (receive_n 3 (send_all m 2 [mkOutgoing 1 (Some [7; 8]) 2 Data false;
                              mkOutgoing 5 None 0 Signal true]) 2).1
  = [Some (mkMessage 1 1 2 Request [9] false);
     Some (mkMessage 2 1 2 Data [7; 8] false);
     Some (mkMessage 3 5 2 Signal [] true)].
Proof.
  cbv zeta.
  destruct (mailbox_is_fifo
              (sendMessage (registerTask (registerTask IPCManager_new 1).2 2).2
                           1 2 (Some [9]) 1 Request false).2
              2 (mkQueue 2 [mkMessage 1 1 2 Request [9] false])
              [mkOutgoing 1 (Some [7; 8]) 2 Data false; mkOutgoing 5 None 0 Signal true])
    as (Hres & _).
  - vm_compute. reflexivity.
  - split; [vm_compute; discriminate|vm_compute; reflexivity].
  - exact Hres.
Defined.





(** X3: receiveMessageFrom looks at the head of the mailbox only. When the
    head comes from the wanted sender it is taken exactly as receiveMessage
    would take it, except that the received-messages counter is not
    advanced; when it comes from anyone else the call returns nothing and
    changes nothing, whatever is queued behind the head. *)
Theorem receiveMessageFrom_head_only (m : IPCManager) (receiver sender : Z)
    (q : MessageQueue) (h : Message) (rest : list Message) (b : bool) :
  messageQueues_ m !! receiver = Some q →
  messages_ q = h :: rest →
  let r := receiveMessageFrom m receiver sender b in
  let r' := receiveMessage m receiver b in
  r'.1 = Some h ∧
  totalMessagesReceived_ r'.2 = wrap64 (totalMessagesReceived_ m + 1) ∧
  if decide (senderId h = sender)
  then r.1 = Some h ∧
       messageQueues_ r.2 = messageQueues_ r'.2 ∧
       messages_ <$> messageQueues_ r.2 !! receiver = Some rest ∧
       totalMessagesReceived_ r.2 = totalMessagesReceived_ m
  else r = (None, m).
Proof.
  intros Hq Hmsgs. cbv zeta.
  unfold receiveMessageFrom, receiveMessage, peek, dequeue.
  rewrite Hq, Hmsgs. cbn [head fst snd totalMessagesReceived_ messageQueues_].
  split_and!; [done..|].
  case_decide; [|done]. cbn [fst snd with_queues messageQueues_ totalMessagesReceived_].
  split_and!; try done. by rewrite lookup_insert_eq.
Qed.

(** X3 on a concrete mailbox: the head is from task 3, a message from task
    1 waits behind it. *)
Lemma receiveMessageFrom_head_only_witness :
  let m0 := (registerTask IPCManager_new 2).2 in
  let m1 := (sendMessage m0 3 2 None 0 Data false).2 in
  let m := (sendMessage m1 1 2 None 0 Data false).2 in
  receiveMessageFrom m 2 1 false = (None, m) ∧
  (receiveMessageFrom m 2 3 false).1 = Some (mkMessage 1 3 2 Data [] false).
Proof.
  cbv zeta. split.
  - pose proof (receiveMessageFrom_head_only
           (sendMessage (sendMessage (registerTask IPCManager_new 2).2 3 2 None 0 Data false).2
                        1 2 None 0 Data false).2
           2 1 (mkQueue 2 [mkMessage 1 3 2 Data [] false; mkMessage 2 1 2 Data [] false])
           (mkMessage 1 3 2 Data [] false) [mkMessage 2 1 2 Data [] false] false
           eq_refl eq_refl) as (_ & _ & H).
    exact H.
  - pose proof (receiveMessageFrom_head_only
           (sendMessage (sendMessage (registerTask IPCManager_new 2).2 3 2 None 0 Data false).2
                        1 2 None 0 Data false).2
           2 3 (mkQueue 2 [mkMessage 1 3 2 Data [] false; mkMessage 2 1 2 Data [] false])
           (mkMessage 1 3 2 Data [] false) [mkMessage 2 1 2 Data [] false] false
           eq_refl eq_refl) as (_ & _ & H).
    exact (proj1 H).
Defined.

(** X4: unregisterTask discards the mailbox with everything in it. After
    it succeeds, a send to the task returns 0 and a receive on it returns
    nothing, both without changing the manager; registering the task anew
    gives it an empty mailbox, and no other mailbox was touched. *)
Theorem unregister_discards_mailbox (m : IPCManager) (t : Z) (q : MessageQueue) :
  messageQueues_ m !! t = Some q →
  let m1 := (unregisterTask m t).2 in
  let m2 := (registerTask m1 t).2 in
  (unregisterTask m t).1 = true ∧
  (∀ s data sz ty b, sendMessage m1 s t data sz ty b = (0, m1)) ∧
  (∀ b, receiveMessage m1 t b = (None, m1)) ∧
  hasMessages m1 t = false ∧
  (registerTask m1 t).1 = true ∧
  messageQueues_ m2 !! t = Some (MessageQueue_new t) ∧
  getMessageCount m2 t = 0 ∧
  (∀ other, other ≠ t → messageQueues_ m2 !! other = messageQueues_ m !! other) ∧
  nextMessageId_ m2 = nextMessageId_ m.
Proof.
  intros Hq. cbv zeta. unfold unregisterTask. rewrite Hq. cbn [fst snd].
  set (m1 := with_queues _ m).
  assert (Hgone : messageQueues_ m1 !! t = None) by apply lookup_delete_eq.
  unfold sendMessage, receiveMessage, hasMessages, registerTask, getMessageCount.
  rewrite Hgone. cbn [fst snd with_queues messageQueues_].
  rewrite lookup_insert_eq. split_and!; try done.
  intros other Hne. subst m1. cbn [with_queues messageQueues_].
  by rewrite lookup_insert_ne, lookup_delete_ne.
Qed.

(** X4 on a concrete manager: task 2 has one pending message. *)
Lemma unregister_discards_mailbox_witness :
  let m := (sendMessage (registerTask IPCManager_new 2).2 1 2 None 0 Data false).2 in
  getMessageCount m 2 = 1 ∧
  getMessageCount (registerTask (unregisterTask m 2).2 2).2 2 = 0.
Proof.
  cbv zeta. split; [vm_compute; reflexivity|].
  apply (unregister_discards_mailbox
           (sendMessage (registerTask IPCManager_new 2).2 1 2 None 0 Data false).2 2
           (mkQueue 2 [mkMessage 1 1 2 Data [] false])).
  vm_compute. reflexivity.
Defined.

(** The first poll of sendAndWaitReply when the head of the sender's
    mailbox comes from the receiver: the head is taken out. *)
Lemma first_poll_takes_head (m : IPCManager) (sender receiver : Z)
    (q qs : MessageQueue) (h : Message) (pending : list Message)
    (data : option (list Z)) (sz : Z) :
  messageQueues_ m !! receiver = Some q →
  sender ≠ receiver →
  messageQueues_ m !! sender = Some qs →
  messages_ qs = h :: pending →
  senderId h = receiver →
  let sent := (sendMessage m sender receiver data sz Request true).2 in
  ∃ m',
    receiveMessageFrom sent sender receiver false = (Some h, m') ∧
    messageQueues_ m' !! sender = Some (mkQueue (owner_ qs) pending) ∧
    messageQueues_ m' !! receiver = messageQueues_ sent !! receiver ∧
    messages_ <$> messageQueues_ sent !! receiver
      = Some (messages_ q ++ [mkMessage (nextMessageId_ m) sender receiver Request
                                        (delivered_payload data sz) true]).
Proof.
  intros Hq Hne Hqs Hmsgs Hfrom. cbv zeta.
  rewrite (sendMessage_registered _ _ _ q) by done. cbn [snd].
  set (sent := mkIPC _ _ _ _).
  assert (Hqs' : messageQueues_ sent !! sender = Some qs).
  { subst sent. cbn [messageQueues_]. by rewrite lookup_insert_ne. }
  unfold receiveMessageFrom, peek, dequeue. rewrite Hqs', Hmsgs. cbn [head].
  rewrite decide_True by done.
  eexists. split; [reflexivity|]. cbn [with_queues messageQueues_].
  rewrite lookup_insert_eq, lookup_insert_ne by done.
  split_and!; [done..|]. subst sent. cbn [messageQueues_].
  by rewrite lookup_insert_eq.
Qed.

(** X5: a reply that is already waiting is returned at the first poll.
    When the head of the sender's mailbox is a Response from the receiver
    and the clock has not reached the deadline, sendAndWaitReply queues its
    Request on the receiver, takes that Response out of the sender's
    mailbox and returns it, after two clock readings. *)
Theorem waiting_reply_is_returned (m : IPCManager) (sender receiver : Z)
    (q qs : MessageQueue) (reply : Message) (pending : list Message)
    (data : option (list Z)) (sz timeout startTime now : Z) (clock : Clock) :
  messageQueues_ m !! receiver = Some q →
  sender ≠ receiver →
  nextMessageId_ m ≠ 0 →
  messageQueues_ m !! sender = Some qs →
  messages_ qs = reply :: pending →
  senderId reply = receiver →
  type reply = Response →
  now - startTime < ns_of_ms timeout →
  ∃ m' request,
    sendAndWaitReply m sender receiver data sz timeout (startTime :: now :: clock)
      = Some (Some reply, m', clock) ∧
    messages_ <$> messageQueues_ m' !! sender = Some pending ∧
    messages_ <$> messageQueues_ m' !! receiver = Some (messages_ q ++ [request]) ∧
    type request = Request ∧ senderId request = sender ∧
    id request = nextMessageId_ m.
Proof.
  intros Hq Hne Hnz Hqs Hmsgs Hfrom Htype Hnow.
  destruct (first_poll_takes_head m sender receiver q qs reply pending data sz)
    as (m' & Hpoll & Hsender & Hreceiver & Hbox); [done..|].
  exists m'. eexists. split_and!.
  - unfold sendAndWaitReply.
    destruct (sendMessage m sender receiver data sz Request true) as [msgId sent] eqn:Hsend.
    assert (msgId = nextMessageId_ m) as ->.
    { rewrite (sendMessage_registered _ _ _ q) in Hsend by done. by injection Hsend. }
    rewrite decide_False by done. cbn [waitReply].
    rewrite decide_True by done. cbn [snd] in Hpoll. rewrite Hpoll.
    by rewrite decide_True.
  - by rewrite Hsender.
  - rewrite Hreceiver. exact Hbox.
  - done.
  - done.
  - done.
Qed.

(** X5 on a concrete run: task 2 answered before task 1 asked. *)
Lemma waiting_reply_is_returned_witness :
  let m0 := (registerTask (registerTask IPCManager_new 1).2 2).2 in
  let m := (sendMessage m0 2 1 (Some [5]) 1 Response false).2 in
  ∃ m', sendAndWaitReply m 1 2 None 0 50 [0; 1000; 2000]
        = Some (Some (mkMessage 1 2 1 Response [5] false), m', [2000]).
Proof.
  cbv zeta.
  destruct (waiting_reply_is_returned
              (sendMessage (registerTask (registerTask IPCManager_new 1).2 2).2
                           2 1 (Some [5]) 1 Response false).2
              1 2 (MessageQueue_new 2)
              (mkQueue 1 [mkMessage 1 2 1 Response [5] false])
              (mkMessage 1 2 1 Response [5] false) [] None 0 50 0 1000 [2000])
    as (m' & request & Hrun & _).
  - vm_compute. reflexivity.
  - discriminate.
  - vm_compute. discriminate.
  - vm_compute. reflexivity.
  - reflexivity.
  - reflexivity.
  - reflexivity.
  - vm_compute. reflexivity.
  - exists m'. exact Hrun.
Defined.

(** X6: sendAndWaitReply loses what is not a Response. When the head of
    the sender's mailbox comes from the receiver but is not a Response, the
    first poll takes it out and drops it; with nothing else from the
    receiver at the head the call then times out, and the message is in no
    mailbox any more. *)
Theorem non_response_from_receiver_is_dropped (m : IPCManager)
    (sender receiver : Z) (q qs : MessageQueue) (other : Message)
    (pending : list Message) (data : option (list Z))
    (sz timeout startTime now late : Z) (early rest : Clock) :
  messageQueues_ m !! receiver = Some q →
  sender ≠ receiver →
  nextMessageId_ m ≠ 0 →
  messageQueues_ m !! sender = Some qs →
  messages_ qs = other :: pending →
  senderId other = receiver →
  type other ≠ Response →
  (∀ msg, head pending = Some msg → senderId msg ≠ receiver) →
  now - startTime < ns_of_ms timeout →
  Forall (λ t, t - startTime < ns_of_ms timeout) early →
  late - startTime >= ns_of_ms timeout →
  ∃ m' request,
    sendAndWaitReply m sender receiver data sz timeout
      (startTime :: now :: early ++ late :: rest) = Some (None, m', rest) ∧
    messages_ <$> messageQueues_ m' !! sender = Some pending ∧
    messages_ <$> messageQueues_ m' !! receiver = Some (messages_ q ++ [request]) ∧
    type request = Request.
Proof.
  intros Hq Hne Hnz Hqs Hmsgs Hfrom Htype Hpending Hnow Hearly Hlate.
  destruct (first_poll_takes_head m sender receiver q qs other pending data sz)
    as (m' & Hpoll & Hsender & Hreceiver & Hbox); [done..|].
  exists m'. eexists. split_and!.
  - unfold sendAndWaitReply.
    destruct (sendMessage m sender receiver data sz Request true) as [msgId sent] eqn:Hsend.
    assert (msgId = nextMessageId_ m) as ->.
    { rewrite (sendMessage_registered _ _ _ q) in Hsend by done. by injection Hsend. }
    rewrite decide_False by done. cbn [waitReply].
    rewrite decide_True by done. cbn [snd] in Hpoll. rewrite Hpoll.
    rewrite decide_False by done.
    apply waitReply_times_out; [|done..].
    intros q' msg Hq' Hpeek. rewrite Hsender in Hq'. injection Hq' as <-.
    by apply Hpending.
  - by rewrite Hsender.
  - rewrite Hreceiver. exact Hbox.
  - done.
Qed.

(** X6 on a concrete run: a Data message from task 2 heads task 1's mailbox. *)
Lemma non_response_from_receiver_is_dropped_witness :
  let m0 := (registerTask (registerTask IPCManager_new 1).2 2).2 in
  let m := (sendMessage m0 2 1 (Some [5]) 1 Data false).2 in
  ∃ m', sendAndWaitReply m 1 2 None 0 50 [0; 1000; 2000; 50000000; 7]
        = Some (None, m', [7]) ∧
        getMessageCount m 1 = 1 ∧ getMessageCount m' 1 = 0.
Proof.
  cbv zeta.
  destruct (non_response_from_receiver_is_dropped
              (sendMessage (registerTask (registerTask IPCManager_new 1).2 2).2
                           2 1 (Some [5]) 1 Data false).2
              1 2 (MessageQueue_new 2)
              (mkQueue 1 [mkMessage 1 2 1 Data [5] false])
              (mkMessage 1 2 1 Data [5] false) [] None 0 50 0 1000 50000000
              [2000] [7])
    as (m' & request & Hrun & Hsender & _).
  - vm_compute. reflexivity.
  - discriminate.
  - vm_compute. discriminate.
  - vm_compute. reflexivity.
  - reflexivity.
  - reflexivity.
  - discriminate.
  - intros msg Hmsg. discriminate.
  - vm_compute. reflexivity.
  - repeat constructor.
  - vm_compute. discriminate.
  - exists m'. split; [exact Hrun|]. split; [vm_compute; reflexivity|].
    unfold getMessageCount.
    destruct (messageQueues_ m' !! 1) as [q1|]; [|done].
    cbn in Hsender. injection Hsender as ->. done.
Defined.

End IPCManagerMore.

(** ** Further properties of the memory manager *)

Section MemoryManagerMore.
Import MM MMSpec MMExt MMCalls.

Lemma count_le_length (fm : list bool) : count fm ≤ Z.of_nat (length fm).
Proof. unfold count. pose proof (length_filter (λ b : bool, b = true) fm). lia. Qed.

Lemma count_full_iff (fm : list bool) :
  count fm = Z.of_nat (length fm) ↔ list_find (λ b : bool, b = false) fm = None.
Proof.
  rewrite list_find_None. unfold count. induction fm as [|b fm IH].
  - split; [constructor|done].
  - pose proof (length_filter (λ b : bool, b = true) fm) as Hle.
    destruct b.
    + rewrite filter_cons_True by done. cbn [length]. rewrite Forall_cons.
      split.
      * intros H. split; [done|]. apply IH. lia.
      * intros [_ H]. apply IH in H. lia.
    + rewrite filter_cons_False by done. cbn [length]. rewrite Forall_cons.
      split; [lia|]. intros [H _]. by destruct H.
Qed.

Lemma translateAddress_entry (m : MemoryManager) (t p : Z) :
  (translateAddress m t p).1 =
  match entry_of m t p with
  | Some e => if present e then Some (frameNumber e) else None
  | None => None
  end.
Proof.
  unfold translateAddress, entry_of.
  destruct (pageTables_ m !! t) as [pt|]; [|done]. cbn.
  by destruct (entries pt !! p) as [[f [] d a pr]|].
Qed.

Lemma getProtection_entry (m : MemoryManager) (t p : Z) :
  getProtection m t p = protection <$> entry_of m t p.
Proof.
  unfold getProtection, entry_of.
  destruct (pageTables_ m !! t) as [pt|]; [|done]. cbn.
  by destruct (entries pt !! p).
Qed.

(** X7: when allocatePage succeeds. With the bitmap at its 1024 bits, the
    call returns an address exactly when the task has an address space,
    the page is not presently mapped and a frame is free; when it does not
    return one, the manager is left as it was. *)
Theorem allocatePage_succeeds_iff (m : MemoryManager) (t p : Z)
    (prot : MemoryProtection) :
  length (frameAllocationMap_ m) = Z.to_nat TOTAL_PHYSICAL_FRAMES →
  (is_Some (allocatePage m t p prot).1 ↔
   (∃ pt, pageTables_ m !! t = Some pt ∧
          ∀ e, entries pt !! p = Some e → present e = false) ∧
   getFreeFrameCount m > 0) ∧
  ((allocatePage m t p prot).1 = None → (allocatePage m t p prot).2 = m).
Proof.
  intros Hw. split.
  - assert (Hfree : getFreeFrameCount m > 0 ↔
              list_find (λ b : bool, b = false) (frameAllocationMap_ m) ≠ None).
    { rewrite <- count_full_iff. unfold getFreeFrameCount.
      pose proof (count_le_length (frameAllocationMap_ m)) as Hle.
      rewrite Hw in *. unfold TOTAL_PHYSICAL_FRAMES in *. lia. }
    rewrite Hfree. unfold allocatePage, allocateFrame.
    destruct (pageTables_ m !! t) as [pt|] eqn:Hpt.
    + destruct (list_find _ _) as [[i b]|] eqn:Hfind.
      * destruct (entries pt !! p) as [[f [] d a pr]|] eqn:He; cbn.
        -- split; [by intros [? ?]|]. intros [(pt' & [= <-] & Hnp) _].
           by specialize (Hnp _ He).
        -- split; [|by eauto]. intros _. split; [|done].
           exists pt. split; [done|]. intros e. rewrite He. by intros [= <-].
        -- split; [|by eauto]. intros _. split; [|done].
           exists pt. split; [done|]. intros e. by rewrite He.
      * destruct (entries pt !! p) as [[f [] d a pr]|]; cbn;
          (split; [by intros [? ?]|by intros [_ ?]]).
    + cbn. split; [by intros [? ?]|]. by intros [(pt & ? & _) _].
  - destruct (allocatePage m t p prot) as [[addr|] m'] eqn:Hal; [done|].
    intros _. by apply allocatePage_None in Hal.
Qed.

(** X7 on a fresh manager: no address space, then one. *)
Lemma allocatePage_succeeds_iff_witness :
  (allocatePage (MemoryManager_new 0) 1 5 Prot_ReadWrite).1 = None ∧
  is_Some (allocatePage (createAddressSpace (MemoryManager_new 0) 1).2 1 5
                        Prot_ReadWrite).1.
Proof.
  split; [vm_compute; reflexivity|].
  apply (allocatePage_succeeds_iff (createAddressSpace (MemoryManager_new 0) 1).2
           1 5 Prot_ReadWrite).
  - vm_compute. reflexivity.
  - split.
    + exists (mkPageTable ∅ 1). split; [vm_compute; reflexivity|].
      intros e He. vm_compute in He. discriminate.
    + vm_compute. reflexivity.
Defined.

Lemma allocateFrame_lowest (m m1 : MemoryManager) (f : Z) :
  allocateFrame m = (Some f, m1) →
  ∀ j, (j < Z.to_nat f)%nat → (j < length (frameAllocationMap_ m))%nat →
       frameAllocationMap_ m !! j = Some true.
Proof.
  unfold allocateFrame.
  destruct (list_find _ _) as [[i b]|] eqn:Hf; [|done].
  intros [= <- <-] j Hj Hlen. rewrite Nat2Z.id in Hj.
  apply list_find_Some in Hf as (_ & _ & Hmin).
  destruct (frameAllocationMap_ m !! j) as [[]|] eqn:Hbit; [done| |].
  - by destruct (Hmin j false Hbit Hj).
  - apply lookup_ge_None in Hbit. lia.
Qed.

Lemma allocatePage_frame (m m' : MemoryManager) (t p : Z) (prot : MemoryProtection)
    (addr : Z) :
  allocatePage m t p prot = (Some addr, m') →
  ∃ f m1, allocateFrame m = (Some f, m1) ∧
          addr = physicalMemory_data m + f * PAGE_SIZE ∧
          entry_of m' t p = Some (mkPTE f true false false prot).
Proof.
  unfold allocatePage, entry_of.
  destruct (pageTables_ m !! t) as [pt|] eqn:Hpt; [|done].
  destruct (allocateFrame m) as [[f|] m1] eqn:Hfr.
  - assert (Hm1 : pageTables_ m1 = pageTables_ m).
    { apply allocateFrame_Some in Hfr as (i & _ & _ & ->). done. }
    destruct (entries pt !! p) as [[f0 [] d a pr]|]; [done| |];
      intros [= <- <-]; exists f, m1; (split_and!; [done..|]);
      cbn; rewrite lookup_insert_eq; cbn; by rewrite lookup_insert_eq.
  - by destruct (entries pt !! p) as [[f0 [] d a pr]|].
Qed.

(** X8: allocatePage hands out the lowest free frame, and translateAddress
    finds it. When the call succeeds, the address it returns is the arena
    base plus PAGE_SIZE times a frame number below 1024 whose bit was clear
    while every lower bit was set, and translateAddress of the same page
    then returns that frame number. *)
Theorem allocatePage_maps_lowest_free_frame (m m' : MemoryManager) (t p : Z)
    (prot : MemoryProtection) (addr : Z) :
  length (frameAllocationMap_ m) = Z.to_nat TOTAL_PHYSICAL_FRAMES →
  allocatePage m t p prot = (Some addr, m') →
  ∃ i : nat,
    addr = physicalMemory_data m + Z.of_nat i * PAGE_SIZE ∧
    Z.of_nat i < TOTAL_PHYSICAL_FRAMES ∧
    frameAllocationMap_ m !! i = Some false ∧
    (∀ j, (j < i)%nat → frameAllocationMap_ m !! j = Some true) ∧
    frameAllocationMap_ m' !! i = Some true ∧
    (translateAddress m' t p).1 = Some (Z.of_nat i) ∧
    getProtection m' t p = Some prot.
Proof.
  intros Hw Hal.
  destruct (allocatePage_frame _ _ _ _ _ _ Hal) as (f & m1 & Hfr & Haddr & Hentry).
  pose proof (allocateFrame_lowest _ _ _ Hfr) as Hlow.
  apply allocateFrame_Some in Hfr as (i & -> & Hi & ->).
  apply allocatePage_Some in Hal as (pt & i' & _ & _ & Hi' & Haddr' & ->).
  assert (i' = i) as ->.
  { unfold PAGE_SIZE in *. lia. }
  assert (Hlt : (i < length (frameAllocationMap_ m))%nat)
    by (by eapply lookup_lt_Some).
  exists i. split_and!; try done.
  - rewrite Hw in Hlt. lia.
  - intros j Hj. apply Hlow; [by rewrite Nat2Z.id|lia].
  - cbn [frameAllocationMap_]. by apply list_lookup_insert_eq.
  - by rewrite translateAddress_entry, Hentry.
  - by rewrite getProtection_entry, Hentry.
Qed.

(** X8 on a concrete manager: frames 0 and 1 taken, 0 freed again. *)
Lemma allocatePage_maps_lowest_free_frame_witness :
  let m := after 0 [CreateAddressSpace 1; AllocatePage 1 5 3; AllocatePage 1 6 3;
                    FreePage 1 5] in
  ∃ m', allocatePage m 1 9 Prot_Read = (Some 0, m') ∧
        (translateAddress m' 1 9).1 = Some 0.
Proof.
  cbv zeta.
  destruct (allocatePage (after 0 [CreateAddressSpace 1; AllocatePage 1 5 3;
                                   AllocatePage 1 6 3; FreePage 1 5]) 1 9 Prot_Read)
    as [addr m'] eqn:Hal.
  assert (addr = Some 0) as -> by (vm_compute in Hal; by injection Hal as <- _).
  destruct (allocatePage_maps_lowest_free_frame _ m' 1 9 Prot_Read 0
              (consistent_after 0 _).(cons_width _) Hal)
    as (i & Haddr & _ & _ & _ & _ & Htr & _).
  exists m'. split; [done|]. rewrite Htr. f_equal.
  change (physicalMemory_data _) with 0 in Haddr.
  unfold PAGE_SIZE in Haddr. lia.
Defined.

Lemma entry_of_perform_other (m : MemoryManager) (c : Call) (t p : Z) :
  ¬ concerns c t p → entry_of (perform m c) t p = entry_of m t p.
Proof.
  intros Hc. unfold entry_of.
  assert (Hins : ∀ t0 pt (es' : gmap Z PageTableEntry),
            pageTables_ m !! t0 = Some pt →
            (t0 = t → es' !! p = entries pt !! p) →
            (<[t0 := with_entries es' pt]> (pageTables_ m) !! t ≫= λ pt', entries pt' !! p)
            = (pageTables_ m !! t ≫= λ pt', entries pt' !! p)).
  { intros t0 pt es' Hpt Hes. destruct (decide (t0 = t)) as [->|Hne].
    - rewrite lookup_insert_eq, Hpt. cbn. by apply Hes.
    - by rewrite lookup_insert_ne. }
  destruct c as [t0|t0|t0 p0 prot|t0 p0|t0 p0|t0 p0|t0 p0 prot|t0 p0];
    cbn [perform concerns] in *.
  - unfold createAddressSpace. destruct (pageTables_ m !! t0) eqn:Ht0; [done|].
    cbn. by rewrite lookup_insert_ne.
  - unfold destroyAddressSpace. destruct (pageTables_ m !! t0) as [pt|] eqn:Ht0; [|done].
    cbn [snd pageTables_ with_pageTables]. unfold freeFramesOf.
    destruct (freeFrames_fold (entries_in_key_order (entries pt)) m) as (-> & _).
    by rewrite lookup_delete_ne.
  - destruct (allocatePage m t0 p0 prot) as [[addr|] m'] eqn:Hal; cbn [snd];
      [|by apply allocatePage_None in Hal; subst].
    apply allocatePage_Some in Hal as (pt & i & Hpt & _ & _ & _ & ->).
    cbn [pageTables_]. apply Hins; [done|]. intros ->.
    rewrite lookup_insert_ne; [done|]. intros ->. by apply Hc.
  - destruct (freePage m t0 p0) as [[] m'] eqn:Hfree; cbn [snd];
      [|by apply freePage_false in Hfree; subst].
    apply freePage_true in Hfree as (pt & e & Hpt & _ & _ & ->).
    cbn [pageTables_]. apply Hins; [done|]. intros ->.
    rewrite lookup_delete_ne; [done|]. intros ->. by apply Hc.
  - unfold translateAddress. destruct (pageTables_ m !! t0) as [pt|] eqn:Hpt; [|done].
    destruct (entries pt !! p0) as [[f [] d a pr]|]; [|done..].
    cbn [snd pageTables_ with_pageTables]. apply Hins; [done|]. intros ->.
    rewrite lookup_alter_ne; [done|]. intros ->. by apply Hc.
  - unfold handlePageFault.
    destruct (allocatePage (with_pageFaultCount _ m) t0 p0 Prot_ReadWrite)
      as [[addr|] m'] eqn:Hal; cbn [snd].
    + apply allocatePage_Some in Hal as (pt & i & Hpt & _ & _ & _ & ->).
      cbn [pageTables_ with_pageFaultCount] in *. apply Hins; [done|]. intros ->.
      rewrite lookup_insert_ne; [done|]. intros ->. by apply Hc.
    + apply allocatePage_None in Hal. by subst.
  - unfold setProtection. destruct (pageTables_ m !! t0) as [pt|] eqn:Hpt; [|done].
    destruct (entries pt !! p0); [|done].
    cbn [snd pageTables_ with_pageTables]. apply Hins; [done|]. intros ->.
    rewrite lookup_alter_ne; [done|]. intros ->. by apply Hc.
  - done.
Qed.

(** X9: a call changes no mapping but the one it names. After any call of
    the manager, in any state, translateAddress and getProtection answer
    as before for every page of every other task, and for every other
    page of the same task when the call names a page. *)
Theorem calls_leave_other_mappings (m : MemoryManager) (c : Call) (t p : Z) :
  ¬ concerns c t p →
  (translateAddress (perform m c) t p).1 = (translateAddress m t p).1 ∧
  getProtection (perform m c) t p = getProtection m t p.
Proof.
  intros Hc. rewrite !translateAddress_entry, !getProtection_entry.
  by rewrite entry_of_perform_other.
Qed.

(** X9 on a concrete manager: task 2's page survives what task 1 does. *)
Lemma calls_leave_other_mappings_witness :
  let m := after 0 [CreateAddressSpace 1; CreateAddressSpace 2; AllocatePage 2 7 1] in
  (translateAddress (perform (perform m (AllocatePage 1 7 3)) (DestroyAddressSpace 1)) 2 7).1
  = Some 0.
Proof.
  cbv zeta.
  destruct (calls_leave_other_mappings
              (perform (after 0 [CreateAddressSpace 1; CreateAddressSpace 2;
                                 AllocatePage 2 7 1]) (AllocatePage 1 7 3))
              (DestroyAddressSpace 1) 2 7) as (-> & _).
  - cbn. discriminate.
  - vm_compute. reflexivity.
Defined.

(** X11: setProtection and getProtection. A setProtection that returns
    true is read back by getProtection and leaves the translation of the
    page as it was; one that returns false found no entry, getProtection
    finds none either, and the manager is unchanged. *)
Theorem setProtection_then_getProtection (m : MemoryManager) (t p : Z)
    (prot : MemoryProtection) :
  let r := setProtection m t p prot in
  if r.1
  then getProtection r.2 t p = Some prot ∧
       (translateAddress r.2 t p).1 = (translateAddress m t p).1 ∧
       frameAllocationMap_ r.2 = frameAllocationMap_ m
  else r.2 = m ∧ getProtection m t p = None.
Proof.
  cbv zeta. rewrite !translateAddress_entry, !getProtection_entry.
  unfold setProtection, entry_of.
  destruct (pageTables_ m !! t) as [pt|] eqn:Hpt; [|done]. cbn [mbind option_bind].
  destruct (entries pt !! p) as [e|] eqn:He; [|done].
  cbn [fst snd pageTables_ with_pageTables]. rewrite lookup_insert_eq.
  cbn. rewrite lookup_alter_eq, He. done.
Qed.

(** X12: a page fault is served by allocation. handlePageFault always
    advances the fault counter; when it returns true the page translates
    and carries read-write protection; when it returns false nothing else
    has changed. *)
Theorem handlePageFault_maps_page (m : MemoryManager) (t p : Z) :
  let r := handlePageFault m t p in
  pageFaultCount_ r.2 = wrap64 (pageFaultCount_ m + 1) ∧
  if r.1
  then is_Some (translateAddress r.2 t p).1 ∧
       getProtection r.2 t p = Some Prot_ReadWrite
  else pageTables_ r.2 = pageTables_ m ∧
       frameAllocationMap_ r.2 = frameAllocationMap_ m ∧
       totalAllocatedPages_ r.2 = totalAllocatedPages_ m.
Proof.
  cbv zeta. unfold handlePageFault.
  set (m1 := with_pageFaultCount _ m).
  destruct (allocatePage m1 t p Prot_ReadWrite) as [[addr|] m'] eqn:Hal; cbn [fst snd].
  - destruct (allocatePage_frame _ _ _ _ _ _ Hal) as (f & m2 & _ & _ & Hentry).
    rewrite translateAddress_entry, getProtection_entry, Hentry.
    apply allocatePage_Some in Hal as (pt & i & _ & _ & _ & _ & ->).
    rewrite bool_decide_eq_true_2 by eauto. split_and!; by eauto.
  - apply allocatePage_None in Hal as ->.
    by rewrite bool_decide_eq_false_2 by (by intros [? ?]).
Qed.

Lemma count_clear_bit (fm : list bool) (i : nat) :
  fm !! i = Some true → count (<[i := false]> fm) = count fm - 1.
Proof.
  unfold count. revert i. induction fm as [|b l IH]; intros [|i] Hi; try done.
  - injection Hi as ->.
    change (<[0%nat := false]> (true :: l)) with (false :: l).
    rewrite (filter_cons_False _ false), (filter_cons_True _ true) by done.
    cbn [length]. lia.
  - change (<[S i := false]> (b :: l)) with (b :: <[i := false]> l).
    specialize (IH i Hi). destruct b.
    + rewrite !filter_cons_True by done. cbn [length]. lia.
    + rewrite !filter_cons_False by done. lia.
Qed.

(** The loop of destroyAddressSpace over present entries that hold
    distinct frames whose bits are set: every step clears one set bit. *)
Lemma freeFrames_fold_count (L : list (Z * PageTableEntry)) (m : MemoryManager) :
  (∀ pe, pe ∈ L → present pe.2 = true ∧
                  0 ≤ frameNumber pe.2 < TOTAL_PHYSICAL_FRAMES ∧
                  frameAllocationMap_ m !! Z.to_nat (frameNumber pe.2) = Some true) →
  NoDup ((λ pe, frameNumber pe.2) <$> L) →
  count (frameAllocationMap_
           (foldl (λ acc pe, if present pe.2
                             then (freeFrame acc (frameNumber pe.2)).2 else acc) m L))
  = count (frameAllocationMap_ m) - Z.of_nat (length L).
Proof.
  revert m. induction L as [|x L IH]; intros m Hall Hnd.
  - cbn. lia.
  - rewrite fmap_cons in Hnd. apply NoDup_cons in Hnd as [Hx Hnd].
    cbn [foldl length].
    destruct (Hall x) as (Hpr & Hrange & Hbit); [by left|].
    rewrite Hpr. unfold freeFrame at 2. rewrite decide_False by lia. cbn [snd].
    set (m1 := with_frameMap _ m).
    assert (Hall1 : ∀ pe, pe ∈ L → present pe.2 = true ∧
                      0 ≤ frameNumber pe.2 < TOTAL_PHYSICAL_FRAMES ∧
                      frameAllocationMap_ m1 !! Z.to_nat (frameNumber pe.2) = Some true).
    { intros pe Hpe. destruct (Hall pe) as (Hpr' & Hrange' & Hbit'); [by right|].
      split; [done|]. split; [done|].
      subst m1. cbn [frameAllocationMap_ with_frameMap].
      rewrite list_lookup_insert_ne; [done|].
      intros Heq. apply Hx. apply list_elem_of_fmap. exists pe. split; [lia|done]. }
    rewrite (IH m1 Hall1 Hnd). subst m1. cbn [frameAllocationMap_ with_frameMap].
    rewrite count_clear_bit by done. lia.
Qed.

(** X10: destroyAddressSpace gives back every frame of the task. In any
    state the manager reaches, destroying an existing address space
    returns true, removes the page table, raises the free-frame count by
    the number of entries the table had, and clears exactly the bits of
    the frames the task held. *)
Theorem destroyAddressSpace_releases_frames (arenaBase : Z) (calls : list Call)
    (t : Z) (pt : PageTable) :
  let m := after arenaBase calls in
  pageTables_ m !! t = Some pt →
  let r := destroyAddressSpace m t in
  r.1 = true ∧
  pageTables_ r.2 !! t = None ∧
  (∀ p, (translateAddress r.2 t p).1 = None) ∧
  getFreeFrameCount r.2 = getFreeFrameCount m + Z.of_nat (size (entries pt)) ∧
  (∀ i, bit_set r.2 i ↔ bit_set m i ∧ ∀ p, ¬ references m i t p).
Proof.
  intros m Hpt. cbv zeta.
  pose proof (consistent_after arenaBase calls) as [Hw He Ho Hh]. fold m in Hw, He, Ho, Hh.
  unfold destroyAddressSpace. rewrite Hpt. cbn [fst snd].
  unfold freeFramesOf.
  destruct (freeFrames_fold (entries_in_key_order (entries pt)) m)
    as (Hpts & Hlen & Hbits).
  assert (Hmem : ∀ pe, pe ∈ entries_in_key_order (entries pt) ↔
                       entries pt !! pe.1 = Some pe.2).
  { intros [p0 e0]. unfold entries_in_key_order.
    rewrite merge_sort_Permutation. apply elem_of_map_to_list. }
  assert (Hown : ∀ pe, pe ∈ entries_in_key_order (entries pt) →
                       holds m t pe.1 pe.2).
  { intros pe Hpe%Hmem. by exists pt. }
  assert (Hcount := freeFrames_fold_count (entries_in_key_order (entries pt)) m).
  set (m1 := foldl _ m _) in *.
  split_and!.
  - done.
  - cbn [pageTables_ with_pageTables]. apply lookup_delete_eq.
  - intros p. rewrite translateAddress_entry. unfold entry_of.
    cbn [pageTables_ with_pageTables]. by rewrite lookup_delete_eq.
  - unfold getFreeFrameCount. cbn [frameAllocationMap_ with_pageTables].
    rewrite Hcount.
    + unfold entries_in_key_order.
      rewrite merge_sort_Permutation, length_map_to_list. lia.
    + intros pe Hpe. destruct (He _ _ _ (Hown pe Hpe)) as (Hpr & Hnn & Hbit).
      split_and!; [done|done| |done].
      apply lookup_lt_Some in Hbit. rewrite Hw in Hbit. lia.
    + apply NoDup_fmap_2_strong.
      * intros [p1 e1] [p2 e2] H1 H2 Hf. cbn [snd] in Hf.
        destruct (Ho _ _ _ _ _ _ (Hown _ H1) (Hown _ H2) Hf) as [_ Hp].
        cbn [fst] in Hp. subst p2. apply Hmem in H1, H2. cbn [fst snd] in H1, H2.
        congruence.
      * unfold entries_in_key_order. rewrite merge_sort_Permutation.
        apply NoDup_map_to_list.
  - intros i. unfold bit_set. cbn [frameAllocationMap_ with_pageTables].
    rewrite Hbits. split.
    + intros [Hi Hfree]. split; [done|].
      intros p (e & (pt' & Hpt' & Hep) & Hf & Hpr)%references_holds.
      rewrite Hpt in Hpt'. injection Hpt' as <-.
      apply (Hfree (p, e)); cbn [snd].
      * by apply Hmem.
      * done.
      * destruct (He t p e) as (_ & _ & Hbit); [by exists pt|].
        apply lookup_lt_Some in Hbit. rewrite Hw in Hbit. lia.
      * rewrite Hf. apply Nat2Z.id.
    + intros [Hi Hnone]. split; [done|].
      intros [p e] Hpe Hpr Hlt Heq. cbn [snd] in *.
      destruct (He _ _ _ (Hown _ Hpe)) as (_ & Hnn & _). cbn [fst snd] in Hnn.
      apply (Hnone p). apply references_holds. exists e. split_and!; [|lia|done].
      by apply (Hown (p, e)).
Qed.

(** X10 on a concrete manager: task 1 holds frames 0 and 2, task 2 frame 1. *)
Lemma destroyAddressSpace_releases_frames_witness :
  let m := after 0 [CreateAddressSpace 1; CreateAddressSpace 2; AllocatePage 1 5 3;
                    AllocatePage 2 5 3; AllocatePage 1 6 3] in
  getFreeFrameCount m = 1021 ∧
  getFreeFrameCount (destroyAddressSpace m 1).2 = 1023.
Proof.
  cbv zeta. split; [vm_compute; reflexivity|].
  destruct (destroyAddressSpace_releases_frames 0
              [CreateAddressSpace 1; CreateAddressSpace 2; AllocatePage 1 5 3;
               AllocatePage 2 5 3; AllocatePage 1 6 3] 1
              (mkPageTable (<[6 := mkPTE 2 true false false 3]>
                              (<[5 := mkPTE 0 true false false 3]> ∅)) 1))
    as (_ & _ & _ & Hcount & _).
  - vm_compute. reflexivity.
  - rewrite Hcount. vm_compute. reflexivity.
Defined.

Lemma wrap64_range (x : Z) : 0 ≤ wrap64 x < 2 ^ 64.
Proof. unfold wrap64. apply Z.mod_pos_bound. lia. Qed.

Lemma countPresent_fold (L : list (Z * PageTableEntry)) (c : Z) :
  0 ≤ c < 2 ^ 64 →
  foldl (λ count pe, if present pe.2 then wrap64 (count + 1) else count) c L
  = wrap64 (c + Z.of_nat (length (filter (λ pe : Z * PageTableEntry,
                                            present pe.2 = true) L))).
Proof.
  revert c. induction L as [|x L IH]; intros c Hc.
  - cbn. unfold wrap64. rewrite Z.add_0_r. symmetry. by apply Z.mod_small.
  - cbn [foldl]. destruct (present x.2) eqn:Hpr.
    + rewrite filter_cons_True by done. cbn [length].
      rewrite IH by apply wrap64_range. unfold wrap64.
      rewrite Zplus_mod_idemp_l. f_equal. lia.
    + rewrite filter_cons_False by (by rewrite Hpr). by apply IH.
Qed.

Lemma countPresent_eq (es : gmap Z PageTableEntry) :
  countPresent es = wrap64 (Z.of_nat (present_entries es)).
Proof.
  unfold countPresent, present_entries. rewrite countPresent_fold by lia.
  unfold entries_in_key_order. by rewrite merge_sort_Permutation.
Qed.

Lemma present_entries_insert (es : gmap Z PageTableEntry) (p : Z)
    (e : PageTableEntry) :
  present_entries (<[p := e]> es)
  = ((if present e then 1 else 0)
     + present_entries (delete p es))%nat.
Proof.
  unfold present_entries. rewrite <- insert_delete_eq.
  rewrite map_to_list_insert by apply lookup_delete_eq.
  destruct (present e) eqn:Hpr.
  - by rewrite filter_cons_True.
  - by rewrite filter_cons_False by (cbn; by rewrite Hpr).
Qed.

Lemma present_entries_delete (es : gmap Z PageTableEntry) (p : Z) :
  present_entries es
  = ((match es !! p with Some e => if present e then 1 else 0 | None => 0 end)
     + present_entries (delete p es))%nat.
Proof.
  destruct (es !! p) as [e|] eqn:He.
  - unfold present_entries. rewrite <- (map_to_list_delete es p e He).
    destruct (present e) eqn:Hpr.
    + by rewrite filter_cons_True.
    + by rewrite filter_cons_False by (cbn; by rewrite Hpr).
  - by rewrite delete_id.
Qed.

Lemma usage_step (n : nat) :
  wrap64 (wrap64 (Z.of_nat (S n)) * PAGE_SIZE)
  = wrap64 (wrap64 (wrap64 (Z.of_nat n) * PAGE_SIZE) + PAGE_SIZE).
Proof.
  unfold wrap64, PAGE_SIZE.
  rewrite Zplus_mod_idemp_l, Z.mul_mod_idemp_l by lia.
  rewrite <- (Zplus_mod_idemp_l (_ * 4096)), Z.mul_mod_idemp_l by lia.
  rewrite Zplus_mod_idemp_l. f_equal. lia.
Qed.

(** X13: getTaskMemoryUsage follows the allocations. A successful
    allocatePage raises the usage of its task by PAGE_SIZE and a
    successful freePage lowers it by PAGE_SIZE (in 64-bit arithmetic);
    the usage of every other task stays as it was. *)
Theorem getTaskMemoryUsage_tracks_pages (m : MemoryManager) (t p : Z)
    (prot : MemoryProtection) :
  let a := allocatePage m t p prot in
  let f := freePage m t p in
  (is_Some a.1 →
   getTaskMemoryUsage a.2 t = wrap64 (getTaskMemoryUsage m t + PAGE_SIZE)) ∧
  (f.1 = true →
   getTaskMemoryUsage m t = wrap64 (getTaskMemoryUsage f.2 t + PAGE_SIZE)) ∧
  (∀ t', t' ≠ t →
         getTaskMemoryUsage a.2 t' = getTaskMemoryUsage m t' ∧
         getTaskMemoryUsage f.2 t' = getTaskMemoryUsage m t').
Proof.
  cbv zeta. split_and!.
  - destruct (allocatePage m t p prot) as [[addr|] m'] eqn:Hal; cbn [fst snd];
      [intros _|by intros [? ?]].
    apply allocatePage_Some in Hal as (pt & i & Hpt & Hfresh & _ & _ & ->).
    unfold getTaskMemoryUsage. cbn [pageTables_]. rewrite lookup_insert_eq, Hpt.
    cbn [entries with_entries]. rewrite !countPresent_eq.
    rewrite present_entries_insert, (present_entries_delete (entries pt) p).
    cbn [present].
    destruct (entries pt !! p) as [e|] eqn:He.
    + rewrite (Hfresh e eq_refl). apply usage_step.
    + apply usage_step.
  - destruct (freePage m t p) as [[] m'] eqn:Hfree; cbn [fst snd]; [intros _|done].
    apply freePage_true in Hfree as (pt & e & Hpt & He & Hpr & ->).
    unfold getTaskMemoryUsage. cbn [pageTables_]. rewrite lookup_insert_eq, Hpt.
    cbn [entries with_entries]. rewrite !countPresent_eq.
    rewrite (present_entries_delete (entries pt) p), He, Hpr.
    apply usage_step.
  - intros t' Hne. unfold getTaskMemoryUsage. split.
    + destruct (allocatePage m t p prot) as [[addr|] m'] eqn:Hal; cbn [snd].
      * apply allocatePage_Some in Hal as (pt & i & Hpt & _ & _ & _ & ->).
        cbn [pageTables_]. by rewrite lookup_insert_ne.
      * apply allocatePage_None in Hal. by subst.
    + destruct (freePage m t p) as [[] m'] eqn:Hfree; cbn [snd].
      * apply freePage_true in Hfree as (pt & e & Hpt & _ & _ & ->).
        cbn [pageTables_]. by rewrite lookup_insert_ne.
      * apply freePage_false in Hfree. by subst.
Qed.

End MemoryManagerMore.
(** ** Further properties of the scheduler *)

Section SchedulerMore.
Import Sched SchedSpec SchedCalls.

(** *** What the helpers do to the fields *)

Lemma addToReadyQueue_fields (s : Scheduler) (i : Z) :
  type_ (addToReadyQueue s i) = type_ s ∧
  tasks_ (addToReadyQueue s i) = tasks_ s ∧
  nextTaskId_ (addToReadyQueue s i) = nextTaskId_ s ∧
  currentTaskId_ (addToReadyQueue s i) = currentTaskId_ s.
Proof.
  unfold addToReadyQueue. destruct (tasks_ s !! i); [|done].
  destruct (type_ s) eqn:Hty; [case_decide|]; by destruct s.
Qed.

Lemma removeFromReadyQueue_fields (s : Scheduler) (i : Z) :
  type_ (removeFromReadyQueue s i) = type_ s ∧
  tasks_ (removeFromReadyQueue s i) = tasks_ s ∧
  nextTaskId_ (removeFromReadyQueue s i) = nextTaskId_ s ∧
  currentTaskId_ (removeFromReadyQueue s i) = currentTaskId_ s.
Proof. unfold removeFromReadyQueue. destruct (type_ s) eqn:Hty; by destruct s. Qed.

Lemma update_task_fields (s : Scheduler) (i : Z) f :
  type_ (update_task i f s) = type_ s ∧
  tasks_ (update_task i f s) = alter f i (tasks_ s) ∧
  nextTaskId_ (update_task i f s) = nextTaskId_ s ∧
  currentTaskId_ (update_task i f s) = currentTaskId_ s ∧
  readyQueue_ (update_task i f s) = readyQueue_ s ∧
  priorityQueues_ (update_task i f s) = priorityQueues_ s.
Proof. by destruct s. Qed.

Lemma in_ready_queued (s : Scheduler) (i : Z) :
  in_ready_structure s i → queued_anywhere s i.
Proof.
  unfold in_ready_structure, queued_anywhere. destruct (type_ s); eauto.
Qed.

Lemma elem_of_snoc_inv (q : list Z) (i j : Z) : j ∈ q ++ [i] → j ∈ q ∨ j = i.
Proof.
  intros [?|Hj%list_elem_of_singleton]%elem_of_app; eauto.
Qed.

Lemma addToReadyQueue_queued (s : Scheduler) (i j : Z) :
  queued_anywhere (addToReadyQueue s i) j →
  queued_anywhere s j ∨ (j = i ∧ is_Some (tasks_ s !! i)).
Proof.
  unfold addToReadyQueue. destruct (tasks_ s !! i) as [tcb|] eqn:Htcb; [|by left].
  destruct s as [ty nxt cur ts rq pq tc run]; cbn in *.
  destruct ty; [case_decide; [by left|]|]; unfold queued_anywhere; cbn.
  - intros [[?| ->]%elem_of_snoc_inv|?]; eauto.
  - intros [?|(p & queue & Hp & Hj)]; [by eauto|].
    destruct (decide (p = priority tcb)) as [->|Hne].
    + rewrite lookup_insert_eq in Hp. injection Hp as <-.
      destruct (pq !! priority tcb) as [q0|] eqn:Hq0; cbn in Hj.
      * case_decide; [by eauto 10|].
        apply elem_of_snoc_inv in Hj as [?| ->]; eauto 10.
      * rewrite decide_False in Hj by apply not_elem_of_nil.
        apply list_elem_of_singleton in Hj as ->. eauto.
    + rewrite lookup_insert_ne in Hp by done. eauto 10.
Qed.

Lemma removeFromReadyQueue_queued (s : Scheduler) (i j : Z) :
  queued_anywhere (removeFromReadyQueue s i) j → queued_anywhere s j.
Proof.
  unfold removeFromReadyQueue, queued_anywhere.
  destruct s as [ty nxt cur ts rq pq tc run]; destruct ty;
    cbn [type_ readyQueue_ priorityQueues_ with_readyQueue with_priorityQueues].
  - intros [Hj|?]; [|by right]. left. by eapply erase_first_subseteq.
  - intros [?|(p & queue & Hp & Hj)]; [by left|]. right.
    destruct (removeFromPriorityQueues_member _ _ _ _ _ _ Hp Hj) as (q0 & ? & ?).
    by exists p, q0.
Qed.

(** *** Every call returns *)

Lemma safe_new (ty : SchedulerType) : safe (Scheduler_new ty).
Proof.
  split.
  - intros i [Hi|(p & queue & Hp & _)]; cbn in *.
    + by apply elem_of_nil in Hi.
    + by rewrite lookup_empty in Hp.
  - intros i tcb Hi. cbn in Hi. by rewrite lookup_empty in Hi.
Qed.

Lemma is_Some_alter (ts : gmap Z TaskControlBlock) f (i j : Z) :
  is_Some (alter f i ts !! j) ↔ is_Some (ts !! j).
Proof.
  destruct (decide (i = j)) as [->|Hne].
  - rewrite lookup_alter_eq. by rewrite fmap_is_Some.
  - by rewrite lookup_alter_ne.
Qed.

Lemma schedule_safe (s : Scheduler) :
  safe s → ∃ s', schedule s = Some s' ∧ safe s'.
Proof.
  intros [Hq Hr]. unfold schedule.
  set (next := selectNextTask s).
  case_decide as Hvalid; [by eauto using mkSafe|].
  case_decide as Hother; [by eauto using mkSafe|].
  assert (Hnext : is_Some (tasks_ s !! next)).
  { apply Hq, in_ready_queued.
    by destruct (selectNextTask_member s) as [?|?]. }
  set (s1 := match getCurrentTask s with
             | Some cur =>
                 if decide (state cur = Running)
                 then addToReadyQueue
                        (update_task (currentTaskId_ s) (set_state Ready) s)
                        (currentTaskId_ s)
                 else s
             | None => s
             end).
  assert (Hcases :
    (tasks_ s1 = tasks_ s ∨
     tasks_ s1 = alter (set_state Ready) (currentTaskId_ s) (tasks_ s)) ∧
    (∀ j, queued_anywhere s1 j → is_Some (tasks_ s !! j)) ∧
    (∀ i tcb, tasks_ s1 !! i = Some tcb → state tcb ≠ Running)).
  { subst s1. unfold getCurrentTask.
    assert (Hrun : ∀ i tcb, tasks_ s !! i = Some tcb → state tcb = Running →
                            getCurrentTask s = Some tcb).
    { intros i tcb Hi Hst. destruct (Hr i tcb Hi Hst) as [Hc Hne].
      unfold getCurrentTask. rewrite Hc. by rewrite decide_False. }
    unfold getCurrentTask in Hrun.
    case_decide as Hinv.
    { split; [by left|]. split; [done|].
      intros i tcb Hi Hst. by specialize (Hrun i tcb Hi Hst). }
    destruct (tasks_ s !! currentTaskId_ s) as [cur|] eqn:Hcur.
    2:{ split; [by left|]. split; [done|].
        intros i tcb Hi Hst. by specialize (Hrun i tcb Hi Hst). }
    case_decide as Hst.
    2:{ split; [by left|]. split; [done|].
        intros i tcb Hi Hst'. specialize (Hrun i tcb Hi Hst'). congruence. }
    destruct (addToReadyQueue_fields
                (update_task (currentTaskId_ s) (set_state Ready) s)
                (currentTaskId_ s)) as (_ & Hts & _).
    destruct (update_task_fields s (currentTaskId_ s) (set_state Ready))
      as (_ & Hts' & _ & _ & Hrq & Hpq).
    rewrite Hts, Hts'. split; [by right|]. split.
    - intros j [Hj|[-> _]]%addToReadyQueue_queued.
      + apply Hq. revert Hj. unfold queued_anywhere. by rewrite Hrq, Hpq.
      + by rewrite Hcur.
    - intros i tcb Hi Hrunning.
      destruct (decide (i = currentTaskId_ s)) as [->|Hne].
      + rewrite lookup_alter_eq, Hcur in Hi. injection Hi as <-. done.
      + rewrite lookup_alter_ne in Hi by done.
        destruct (Hr i tcb Hi Hrunning). congruence. }
  clearbody s1. destruct Hcases as (Hts1 & Hq1 & Hr1).
  unfold getTask. destruct Hnext as [tn Htn]. rewrite Htn.
  eexists. split; [done|].
  set (f := λ t, set_timeSliceRemaining TIME_QUANTUM_MS (set_state Running t)).
  destruct (removeFromReadyQueue_fields
              (update_task next f (with_currentTaskId next s1)) next)
    as (_ & Hts & _ & Hc).
  split.
  - intros j Hj%removeFromReadyQueue_queued. rewrite Hts.
    assert (Hj1 : queued_anywhere s1 j) by (by destruct s1).
    apply Hq1 in Hj1. destruct s1; cbn in *. apply is_Some_alter.
    destruct Hts1 as [->| ->]; [done|]. by apply is_Some_alter.
  - intros i tcb. rewrite Hts, Hc.
    destruct s1 as [ty1 nxt1 cur1 ts1 rq1 pq1 tc1 run1]; cbn in *.
    destruct (decide (i = next)) as [->|Hne]; [done|].
    rewrite lookup_alter_ne by done. intros Hi Hst. by destruct (Hr1 i tcb Hi).
Qed.

Lemma safe_update_task (s : Scheduler) (i : Z) f :
  (∀ t, state (f t) = Running → state t = Running) →
  safe s → safe (update_task i f s).
Proof.
  intros Hf [Hq Hr]. destruct s as [ty nxt cur ts rq pq tc run]. split; cbn.
  - intros j Hj. apply is_Some_alter. by apply Hq.
  - intros j tcb. destruct (decide (i = j)) as [->|Hne].
    + rewrite lookup_alter_eq. destruct (ts !! j) as [t|] eqn:Ht; [|done].
      cbn. intros [= <-] Hst. eapply (Hr j t); eauto.
    + rewrite lookup_alter_ne by done. apply Hr.
Qed.

Lemma safe_addToReadyQueue (s : Scheduler) (i : Z) :
  safe s → safe (addToReadyQueue s i).
Proof.
  intros [Hq Hr].
  destruct (addToReadyQueue_fields s i) as (_ & Hts & _ & Hc). split.
  - rewrite Hts. intros j [?|[-> ?]]%addToReadyQueue_queued; eauto.
  - rewrite Hts, Hc. apply Hr.
Qed.

Lemma safe_removeFromReadyQueue (s : Scheduler) (i : Z) :
  safe s → safe (removeFromReadyQueue s i).
Proof.
  intros [Hq Hr].
  destruct (removeFromReadyQueue_fields s i) as (_ & Hts & _ & Hc). split.
  - rewrite Hts. intros j ?%removeFromReadyQueue_queued. eauto.
  - rewrite Hts, Hc. apply Hr.
Qed.

Lemma safe_createTask (s : Scheduler) (taskName : string) (prio : TaskPriority) :
  safe s → safe (createTask s taskName prio).2.
Proof.
  intros [Hq Hr]. unfold createTask. cbn [snd].
  apply safe_addToReadyQueue.
  destruct s as [ty nxt cur ts rq pq tc run]. split; cbn.
  - intros j Hj. destruct (decide (nxt = j)) as [->|Hne].
    + by rewrite lookup_insert_eq.
    + rewrite lookup_insert_ne by done. by apply Hq.
  - intros j tcb. destruct (decide (nxt = j)) as [->|Hne].
    + rewrite lookup_insert_eq. by intros [= <-].
    + rewrite lookup_insert_ne by done. apply Hr.
Qed.

Lemma safe_terminateTask (s : Scheduler) (i : Z) :
  safe s → ∃ r s', terminateTask s i = Some (r, s') ∧ safe s'.
Proof.
  intros Hs. unfold terminateTask.
  destruct (tasks_ s !! i) as [tcb|] eqn:Htcb; [|by eauto].
  set (s1 := removeFromReadyQueue (update_task i (set_state Terminated) s) i).
  assert (Hs1 : safe s1).
  { by apply safe_removeFromReadyQueue, safe_update_task. }
  case_decide as Hc; [|by eauto].
  destruct (schedule_safe (with_currentTaskId INVALID_TASK_ID s1)) as (s2 & -> & ?);
    [|by cbn; eauto].
  destruct Hs1 as [Hq1 Hr1]. split; [by destruct s1|].
  intros j t Hj Hst. assert (Hj1 : tasks_ s1 !! j = Some t) by (by destruct s1).
  destruct (Hr1 j t Hj1 Hst) as [Hcj _]. exfalso.
  assert (j = i) as -> by congruence.
  subst s1.
  destruct (removeFromReadyQueue_fields (update_task i (set_state Terminated) s) i)
    as (_ & Hts & _).
  rewrite Hts in Hj1. destruct s; cbn in Hj1.
  rewrite lookup_alter_eq in Hj1. cbn in Htcb. rewrite Htcb in Hj1.
  injection Hj1 as <-. done.
Qed.

Lemma safe_blockTask (s : Scheduler) (i : Z) :
  safe s → ∃ r s', blockTask s i = Some (r, s') ∧ safe s'.
Proof.
  intros Hs. unfold blockTask.
  destruct (tasks_ s !! i) as [tcb|] eqn:Htcb; [|by eauto].
  case_decide; [by eauto|].
  set (s1 := removeFromReadyQueue (update_task i (set_state Blocked) s) i).
  assert (Hs1 : safe s1).
  { by apply safe_removeFromReadyQueue, safe_update_task. }
  case_decide as Hc; [|by eauto].
  destruct (schedule_safe s1) as (s2 & -> & ?); [done|]. cbn. eauto.
Qed.

Lemma safe_unblockTask (s : Scheduler) (i : Z) :
  safe s → safe (unblockTask s i).2.
Proof.
  intros Hs. unfold unblockTask.
  destruct (tasks_ s !! i) as [tcb|] eqn:Htcb; [|done].
  case_decide; [done|]. cbn [snd].
  by apply safe_addToReadyQueue, safe_update_task.
Qed.

Lemma safe_with_tickCount (s : Scheduler) (n : Z) :
  safe s → safe (with_tickCount n s).
Proof. intros [Hq Hr]. by destruct s. Qed.

Lemma safe_tick (s : Scheduler) : safe s → ∃ s', tick s = Some s' ∧ safe s'.
Proof.
  intros Hs%(safe_with_tickCount _ (wrap64 (tickCount_ s + 1))). unfold tick.
  set (s1 := with_tickCount _ s) in *. clearbody s1.
  destruct (getCurrentTask s1) as [current|]; [|by apply schedule_safe].
  set (s2 := if decide (timeSliceRemaining current > 0) then _ else s1).
  assert (Hs2 : safe s2).
  { subst s2. case_decide; [|done]. by apply safe_update_task. }
  clearbody s2. destruct (getCurrentTask s2) as [current'|]; [|by eauto].
  case_decide; [by apply schedule_safe|by eauto].
Qed.

Lemma safe_yield (s : Scheduler) : safe s → ∃ s', yield s = Some s' ∧ safe s'.
Proof.
  intros Hs. unfold yield. destruct (getCurrentTask s); [|by eauto].
  by apply schedule_safe, safe_update_task.
Qed.

Lemma safe_setSchedulerType (s : Scheduler) (ty : SchedulerType) :
  safe s → safe (setSchedulerType s ty).
Proof.
  rewrite setSchedulerType_fields. intros [Hq Hr]. by destruct s.
Qed.

Lemma safe_perform (s : Scheduler) (c : Call) :
  safe s → ∃ s', perform s c = Some s' ∧ safe s'.
Proof.
  intros Hs. destruct c; cbn [perform].
  - eauto using safe_createTask.
  - destruct (safe_terminateTask s i Hs) as (r & s' & -> & ?). cbn. eauto.
  - destruct (safe_blockTask s i Hs) as (r & s' & -> & ?). cbn. eauto.
  - eauto using safe_unblockTask.
  - by apply schedule_safe.
  - by apply safe_tick.
  - by apply safe_yield.
  - eauto using safe_setSchedulerType.
Qed.

(** X14: no sequence of public calls, changes of discipline included,
    reaches the unchecked dereference in schedule: every call returns.
    In the state reached every id in the FIFO or in a priority queue has a
    TCB, and a task whose state is Running is the current task. *)
Theorem every_call_returns (ty : SchedulerType) (calls : list Call) :
  ∃ s, run (Scheduler_new ty) calls = Some s ∧
       (∀ i, queued_anywhere s i → is_Some (getTask s i)) ∧
       (∀ i tcb, getTask s i = Some tcb → state tcb = Running →
                 getCurrentTask s = Some tcb).
Proof.
  assert (Hrun : ∀ s, safe s → ∃ s', run s calls = Some s' ∧ safe s').
  { induction calls as [|c calls IH]; intros s Hs; cbn [run]; [by eauto|].
    destruct (safe_perform s c Hs) as (s1 & -> & Hs1). cbn. by apply IH. }
  destruct (Hrun _ (safe_new ty)) as (s & Hs & [Hq Hr]).
  exists s. split; [done|]. split; [done|].
  intros i tcb Hi Hst. destruct (Hr i tcb Hi Hst) as [Hc Hne].
  unfold getCurrentTask. rewrite Hc. by rewrite decide_False.
Qed.

(** *** The ready structure under one discipline *)

Lemma erase_first_notin (i : Z) (q : list Z) : i ∉ q → erase_first i q = q.
Proof.
  induction q as [|y q IH]; cbn; [done|].
  intros [Hne Hq]%not_elem_of_cons. rewrite decide_False by done.
  by rewrite IH.
Qed.

Lemma erase_first_elem_of (i j : Z) (q : list Z) :
  NoDup q → j ∈ erase_first i q ↔ j ∈ q ∧ j ≠ i.
Proof.
  induction q as [|y q IH]; cbn.
  - intros _. split; [by intros ?%elem_of_nil|by intros [?%elem_of_nil _]].
  - intros [Hy Hq]%NoDup_cons. case_decide as Heq.
    + subst y. rewrite elem_of_cons. split.
      * intros Hj. split; [by right|]. by intros ->.
      * by intros [[?|?] ?].
    + rewrite !elem_of_cons, IH by done. split.
      * intros [->|[? ?]]; [by split; [left|]|by split; [right|]].
      * intros [[->|?] ?]; [by left|by right].
Qed.

Lemma erase_first_NoDup (i : Z) (q : list Z) : NoDup q → NoDup (erase_first i q).
Proof.
  induction q as [|y q IH]; cbn; [done|].
  intros [Hy Hq]%NoDup_cons. case_decide; [done|].
  apply NoDup_cons. split; [|by apply IH].
  intros Hin. by apply erase_first_subseteq in Hin.
Qed.

(** When one queue at most holds the id, the loop of removeFromReadyQueue
    erases it from every queue. *)
Lemma removeFromPriorityQueues_lookup (i : Z) (keys : list TaskPriority)
    (pq : gmap TaskPriority (list Z)) :
  (∀ p q, pq !! p = Some q → i ∈ q → p ∈ keys) →
  (∀ p1 p2 q1 q2, pq !! p1 = Some q1 → i ∈ q1 →
                  pq !! p2 = Some q2 → i ∈ q2 → p1 = p2) →
  ∀ p, removeFromPriorityQueues i keys pq !! p = erase_first i <$> pq !! p.
Proof.
  intros Hkeys Huniq. induction keys as [|k keys IH]; cbn.
  - intros p. destruct (pq !! p) as [q|] eqn:Hq; [|done]. cbn.
    rewrite erase_first_notin; [done|].
    intros Hi. specialize (Hkeys p q Hq Hi). by apply elem_of_nil in Hkeys.
  - destruct (pq !! k) as [qk|] eqn:Hk.
    + case_decide as Hin.
      * intros p. destruct (decide (k = p)) as [<-|Hne].
        { by rewrite lookup_insert_eq, Hk. }
        rewrite lookup_insert_ne by done.
        destruct (pq !! p) as [q|] eqn:Hq; [|done]. cbn.
        rewrite erase_first_notin; [done|].
        intros Hi. by specialize (Huniq k p qk q Hk Hin Hq Hi).
      * apply IH. intros p q Hq Hi.
        specialize (Hkeys p q Hq Hi).
        apply elem_of_cons in Hkeys as [->|?]; [|done]. congruence.
    + apply IH. intros p q Hq Hi.
      specialize (Hkeys p q Hq Hi).
      apply elem_of_cons in Hkeys as [->|?]; [|done]. congruence.
Qed.

Lemma priorities_ascending_all (p : TaskPriority) : p ∈ priorities_ascending.
Proof. unfold priorities_ascending. destruct p; set_solver. Qed.

Lemma holds_exactly_add (s : Scheduler) (i : Z) (R : Z → Prop) :
  is_Some (tasks_ s !! i) → holds_exactly s R →
  holds_exactly (addToReadyQueue s i) (λ j, R j ∨ j = i).
Proof.
  intros [tcb Htcb] [Hst Hiff]. unfold addToReadyQueue. rewrite Htcb.
  unfold holds_exactly, structured, in_ready_structure in *.
  destruct s as [ty nxt cur ts rq pq tc run]; cbn in *. destruct ty; cbn.
  - case_decide as Hin; cbn.
    + split; [done|]. intros j. rewrite Hiff. split; [by left|].
      intros [?| ->]; [done|]. by apply Hiff.
    + split.
      * apply NoDup_app. split; [done|]. split; [|apply NoDup_singleton].
        intros x Hx ->%list_elem_of_singleton. done.
      * intros j. rewrite elem_of_app, list_elem_of_singleton. by rewrite Hiff.
  - set (queue := default [] (pq !! priority tcb)).
    set (queue' := if decide (i ∈ queue) then queue else queue ++ [i]).
    assert (Hqueue : NoDup queue ∧
                     ∀ j, j ∈ queue → ∃ t, ts !! j = Some t ∧ priority t = priority tcb).
    { subst queue. destruct (pq !! priority tcb) as [q0|] eqn:Hq0; cbn.
      - by apply Hst.
      - split; [apply NoDup_nil_2|]. by intros j ?%elem_of_nil. }
    assert (Hmem : ∀ j, j ∈ queue' ↔ j ∈ queue ∨ j = i).
    { intros j. subst queue'. case_decide.
      - split; [by left|]. by intros [?| ->].
      - by rewrite elem_of_app, list_elem_of_singleton. }
    assert (Hin : ∀ j, j ∈ queue ↔ ∃ q0, pq !! priority tcb = Some q0 ∧ j ∈ q0).
    { intros j. subst queue. destruct (pq !! priority tcb) as [q0|]; cbn.
      - split; [by eauto|]. by intros (? & [= <-] & ?).
      - split; [by intros ?%elem_of_nil|]. by intros (? & [=] & _). }
    split.
    + intros p q Hp. destruct (decide (priority tcb = p)) as [<-|Hne].
      * rewrite lookup_insert_eq in Hp. injection Hp as <-.
        destruct Hqueue as [Hnd Htag]. split.
        { subst queue'. case_decide; [done|].
          apply NoDup_app. split; [done|]. split; [|apply NoDup_singleton].
          intros x Hx ->%list_elem_of_singleton. done. }
        intros j [Hj| ->]%Hmem; [by apply Htag|by eauto].
      * rewrite lookup_insert_ne in Hp by done. by apply Hst.
    + intros j. rewrite <- Hiff. split.
      * intros (p & q & Hp & Hj).
        destruct (decide (priority tcb = p)) as [<-|Hne].
        { rewrite lookup_insert_eq in Hp. injection Hp as <-.
          apply Hmem in Hj as [Hj| ->]; [|by right].
          apply Hin in Hj as (q0 & ? & ?). left. eauto. }
        rewrite lookup_insert_ne in Hp by done. left. eauto.
      * intros [(p & q & Hp & Hj)| ->].
        { destruct (decide (priority tcb = p)) as [<-|Hne].
          - exists (priority tcb), queue'. rewrite lookup_insert_eq.
            split; [done|]. apply Hmem. left. apply Hin. eauto.
          - exists p, q. by rewrite lookup_insert_ne. }
        exists (priority tcb), queue'. rewrite lookup_insert_eq.
        split; [done|]. apply Hmem. by right.
Qed.

Lemma holds_exactly_remove (s : Scheduler) (i : Z) (R : Z → Prop) :
  holds_exactly s R →
  holds_exactly (removeFromReadyQueue s i) (λ j, R j ∧ j ≠ i).
Proof.
  intros [Hst Hiff]. unfold removeFromReadyQueue.
  unfold holds_exactly, structured, in_ready_structure in *.
  destruct s as [ty nxt cur ts rq pq tc run]; destruct ty;
    cbn [type_ tasks_ readyQueue_ priorityQueues_ with_readyQueue
         with_priorityQueues] in *.
  - split; [by apply erase_first_NoDup|].
    intros j. by rewrite erase_first_elem_of, Hiff.
  - assert (Hlook : ∀ p, removeFromPriorityQueues i priorities_ascending pq !! p
                         = erase_first i <$> pq !! p).
    { apply removeFromPriorityQueues_lookup.
      - intros. apply priorities_ascending_all.
      - intros p1 p2 q1 q2 Hq1 Hi1 Hq2 Hi2.
        destruct (Hst p1 q1 Hq1) as [_ Ht1]. destruct (Hst p2 q2 Hq2) as [_ Ht2].
        destruct (Ht1 i Hi1) as (t1 & ? & ?). destruct (Ht2 i Hi2) as (t2 & ? & ?).
        congruence. }
    split.
    + intros p q. rewrite Hlook.
      destruct (pq !! p) as [q0|] eqn:Hq0; [|done]. intros [= <-].
      destruct (Hst p q0 Hq0) as [Hnd Htag]. split; [by apply erase_first_NoDup|].
      intros j Hj. apply Htag. by eapply erase_first_subseteq.
    + intros j. rewrite <- Hiff. split.
      * intros (p & q & Hp & Hj). rewrite Hlook in Hp.
        destruct (pq !! p) as [q0|] eqn:Hq0; [|done]. injection Hp as <-.
        destruct (Hst p q0 Hq0) as [Hnd _].
        apply erase_first_elem_of in Hj as [? ?]; [|done]. eauto.
      * intros [(p & q & Hp & Hj) Hne]. exists p, (erase_first i q).
        rewrite Hlook, Hp. split; [done|].
        destruct (Hst p q Hp) as [Hnd _]. by apply erase_first_elem_of.
Qed.

Lemma holds_exactly_update (s : Scheduler) (i : Z) f (R : Z → Prop) :
  (∀ t, priority (f t) = priority t) →
  holds_exactly s R → holds_exactly (update_task i f s) R.
Proof.
  intros Hf [Hst Hiff].
  unfold holds_exactly, structured, in_ready_structure in *.
  destruct s as [ty nxt cur ts rq pq tc run]; destruct ty; cbn in *; [done|].
  split; [|done]. intros p q Hp. destruct (Hst p q Hp) as [Hnd Htag].
  split; [done|]. intros j Hj. destruct (Htag j Hj) as (t & Ht & Hpr).
  destruct (decide (i = j)) as [->|Hne].
  - exists (f t). rewrite lookup_alter_eq, Ht. by rewrite Hf.
  - exists t. by rewrite lookup_alter_ne.
Qed.

Lemma holds_exactly_iff (s : Scheduler) (R R' : Z → Prop) :
  (∀ j, R j ↔ R' j) → holds_exactly s R → holds_exactly s R'.
Proof.
  intros HR [Hst Hiff]. split; [done|]. intros j. by rewrite Hiff.
Qed.

Lemma has_state_update (s : Scheduler) (i j : Z) f (st : TaskState) :
  has_state (update_task i f s) j st ↔
  if decide (j = i) then ∃ t, tasks_ s !! i = Some t ∧ state (f t) = st
  else has_state s j st.
Proof.
  unfold has_state. destruct s as [ty nxt cur ts rq pq tc run]; cbn.
  case_decide as Hj.
  - subst j. rewrite lookup_alter_eq. destruct (ts !! i) as [t|]; cbn.
    + split; [intros (? & [= <-] & ?); eauto|intros (? & [= <-] & ?); eauto].
    + split; intros (? & [=] & _).
  - by rewrite lookup_alter_ne.
Qed.

Lemma has_state_add (s : Scheduler) (i j : Z) (st : TaskState) :
  has_state (addToReadyQueue s i) j st ↔ has_state s j st.
Proof.
  unfold has_state. destruct (addToReadyQueue_fields s i) as (_ & -> & _). done.
Qed.

Lemma has_state_remove (s : Scheduler) (i j : Z) (st : TaskState) :
  has_state (removeFromReadyQueue s i) j st ↔ has_state s j st.
Proof.
  unfold has_state. destruct (removeFromReadyQueue_fields s i) as (_ & -> & _). done.
Qed.

Lemma ids_below_add (s : Scheduler) (i : Z) :
  ids_below s → ids_below (addToReadyQueue s i).
Proof.
  unfold ids_below. by destruct (addToReadyQueue_fields s i) as (_ & -> & -> & _).
Qed.

Lemma ids_below_remove (s : Scheduler) (i : Z) :
  ids_below s → ids_below (removeFromReadyQueue s i).
Proof.
  unfold ids_below. by destruct (removeFromReadyQueue_fields s i) as (_ & -> & -> & _).
Qed.

Lemma ids_below_update (s : Scheduler) (i : Z) f :
  ids_below s → ids_below (update_task i f s).
Proof.
  unfold ids_below. destruct s as [ty nxt cur ts rq pq tc run]; cbn.
  intros [H0 H]. split; [done|]. intros j Hj. apply H. by apply is_Some_alter in Hj.
Qed.

Lemma ready_queued_set_ready (s : Scheduler) (i : Z) :
  is_Some (tasks_ s !! i) → ready_queued s →
  ready_queued (addToReadyQueue (update_task i (set_state Ready) s) i).
Proof.
  intros Hi [Hex Hids]. split; [|by apply ids_below_add, ids_below_update].
  eapply holds_exactly_iff;
    [|apply holds_exactly_add;
      [|apply holds_exactly_update; [done|exact Hex]]].
  - intros j. cbn beta. rewrite has_state_add, has_state_update.
    case_decide as Hj.
    + subst j. destruct Hi as [t Ht]. split; [eauto|by right].
    + split; [by intros [?|?]|by left].
  - destruct s; cbn in *. by apply is_Some_alter.
Qed.

Lemma ready_queued_unready (s : Scheduler) (i : Z) f :
  (∀ t, priority (f t) = priority t) → (∀ t, state (f t) ≠ Ready) →
  ready_queued s → ready_queued (removeFromReadyQueue (update_task i f s) i).
Proof.
  intros Hpr Hst [Hex Hids]. split; [|by apply ids_below_remove, ids_below_update].
  eapply holds_exactly_iff;
    [|apply holds_exactly_remove, holds_exactly_update; [done|exact Hex]].
  intros j. cbn beta. rewrite has_state_remove, has_state_update.
  case_decide as Hj.
  - subst j. split; [by intros [_ ?]|]. intros (t & _ & Ht). by apply Hst in Ht.
  - split; [by intros [? _]|done].
Qed.

Lemma ready_queued_keep (s : Scheduler) (i : Z) f :
  (∀ t, priority (f t) = priority t) → (∀ t, state (f t) = state t) →
  ready_queued s → ready_queued (update_task i f s).
Proof.
  intros Hpr Hst [Hex Hids]. split; [|by apply ids_below_update].
  eapply holds_exactly_iff; [|apply holds_exactly_update; [done|exact Hex]].
  intros j. cbn beta. rewrite has_state_update. case_decide as Hj; [|done].
  subst j. unfold has_state. setoid_rewrite Hst. done.
Qed.

Lemma ready_queued_with_currentTaskId (s : Scheduler) (c : Z) :
  ready_queued s → ready_queued (with_currentTaskId c s).
Proof. by destruct s. Qed.

Lemma ready_queued_with_tickCount (s : Scheduler) (n : Z) :
  ready_queued s → ready_queued (with_tickCount n s).
Proof. by destruct s. Qed.

Lemma update_task_lookup (s : Scheduler) (i j : Z) f (t : TaskControlBlock) :
  tasks_ s !! j = Some t →
  tasks_ (update_task i f s) !! j = Some (if decide (j = i) then f t else t).
Proof.
  destruct s as [ty nxt cur ts rq pq tc run]; cbn. intros Ht.
  case_decide as Hj.
  - subst j. by rewrite lookup_alter_eq, Ht.
  - by rewrite lookup_alter_ne.
Qed.

Lemma states_move_refl step (s : Scheduler) : states_move step s s.
Proof. intros i t Ht. eauto. Qed.

Lemma states_move_keep step (s s1 s2 : Scheduler) :
  states_move no_edge s s1 → states_move step s1 s2 → states_move step s s2.
Proof.
  intros H1 H2 i t Ht.
  destruct (H1 i t Ht) as (t1 & Ht1 & [Hst1|[]]).
  destruct (H2 i t1 Ht1) as (t2 & Ht2 & Hst2).
  exists t2. split; [done|]. by rewrite <- Hst1.
Qed.

Lemma states_move_update_keep (s : Scheduler) (i : Z) f :
  (∀ t, state (f t) = state t) → states_move no_edge s (update_task i f s).
Proof.
  intros Hf j t Ht. rewrite (update_task_lookup _ _ _ _ _ Ht).
  eexists. split; [done|]. left. by case_decide.
Qed.

Lemma schedule_ready (s : Scheduler) :
  ready_queued s →
  ∃ s', schedule s = Some s' ∧ ready_queued s' ∧ same_frame s s' ∧
        states_move switch_edge s s'.
Proof.
  intros Hrq. unfold schedule.
  set (next := selectNextTask s).
  assert (Hstay : ∃ s', Some s = Some s' ∧ ready_queued s' ∧ same_frame s s' ∧
                         states_move switch_edge s s').
  { exists s. split; [done|]. split; [done|]. split; [by split|].
    apply states_move_refl. }
  case_decide as Hvalid; [done|].
  case_decide as Hother; [done|]. clear Hstay.
  assert (Hnext : has_state s next Ready).
  { destruct Hrq as [[_ Hiff] _]. apply Hiff.
    by destruct (selectNextTask_member s) as [?|?]. }
  destruct Hnext as (tn & Htn & Hstn).
  set (s1 := match getCurrentTask s with
             | Some cur =>
                 if decide (state cur = Running)
                 then addToReadyQueue
                        (update_task (currentTaskId_ s) (set_state Ready) s)
                        (currentTaskId_ s)
                 else s
             | None => s
             end).
  assert (H1 : ready_queued s1 ∧ same_frame s s1 ∧
    ∀ i t, tasks_ s !! i = Some t →
           ∃ t', tasks_ s1 !! i = Some t' ∧
                 (state t' = state t ∨
                  (state t = Running ∧ state t' = Ready ∧ i ≠ next))).
  { assert (Hstay : ready_queued s ∧ same_frame s s ∧
      ∀ i t, tasks_ s !! i = Some t →
             ∃ t', tasks_ s !! i = Some t' ∧
                   (state t' = state t ∨
                    (state t = Running ∧ state t' = Ready ∧ i ≠ next))).
    { split; [done|]. split; [by split|]. eauto. }
    subst s1. destruct (getCurrentTask s) as [cur|] eqn:Hcur;
      [case_decide as Hst|]; [|done..]. clear Hstay.
    unfold getCurrentTask in Hcur. case_decide; [done|].
    split; [apply ready_queued_set_ready; by eauto|].
    destruct (addToReadyQueue_fields
                (update_task (currentTaskId_ s) (set_state Ready) s)
                (currentTaskId_ s)) as (Hty & Hts & Hnx & _).
    split; [split; [by rewrite Hty; destruct s|by rewrite Hnx; destruct s]|].
    intros i t Ht. rewrite Hts, (update_task_lookup _ _ _ _ _ Ht).
    eexists. split; [done|]. case_decide as Hi; [|by left].
    subst i. right. split; [congruence|]. split; [done|]. congruence. }
  clearbody s1. destruct H1 as (Hrq1 & [Hty1 Hnx1] & Hmv1).
  unfold getTask. rewrite Htn. eexists. split; [done|].
  set (f := λ t, set_timeSliceRemaining TIME_QUANTUM_MS (set_state Running t)).
  destruct (removeFromReadyQueue_fields
              (update_task next f (with_currentTaskId next s1)) next)
    as (Hty & Hts & Hnx & _).
  split; [|split; [split|]].
  - apply ready_queued_unready; [done|done|].
    by apply ready_queued_with_currentTaskId.
  - rewrite Hty, <- Hty1. by destruct s1.
  - rewrite Hnx, <- Hnx1. by destruct s1.
  - intros i t Ht. destruct (Hmv1 i t Ht) as (t1 & Ht1 & Hst1).
    rewrite Hts.
    assert (Ht1' : tasks_ (with_currentTaskId next s1) !! i = Some t1)
      by (by destruct s1).
    rewrite (update_task_lookup _ _ _ _ _ Ht1').
    eexists. split; [done|]. case_decide as Hi.
    + subst i. right. right. split; [congruence|done].
    + destruct Hst1 as [?|(? & ? & _)]; [by left|]. right. by left.
Qed.

Lemma switch_edge_life_cycle (a b : TaskState) :
  switch_edge a b → life_cycle_edge a b.
Proof. by intros [[-> ->]|[-> ->]]. Qed.

Lemma states_move_weaken (step step' : TaskState → TaskState → Prop)
    (s s' : Scheduler) :
  (∀ a b, step a b → step' a b) → states_move step s s' → states_move step' s s'.
Proof.
  intros Hstep H i t Ht. destruct (H i t Ht) as (t' & ? & [?|?]); eauto.
Qed.

Lemma with_currentTaskId_same (s : Scheduler) :
  with_currentTaskId (currentTaskId_ s) s = s.
Proof. by destruct s. Qed.

(** A task leaves the ready structure for state [st], and the scheduler
    may then be asked for a successor. *)
Lemma park_then_schedule (s : Scheduler) (i : Z) (tcb : TaskControlBlock)
    (st : TaskState) :
  st = Blocked ∨ st = Terminated →
  tasks_ s !! i = Some tcb →
  state tcb = st ∨ life_cycle_edge (state tcb) st →
  ready_queued s →
  let s1 := removeFromReadyQueue (update_task i (set_state st) s) i in
  (ready_queued s1 ∧ same_frame s s1 ∧ states_move life_cycle_edge s s1) ∧
  ∀ c, ∃ s2, schedule (with_currentTaskId c s1) = Some s2 ∧
             ready_queued s2 ∧ same_frame s s2 ∧
             states_move life_cycle_edge s s2.
Proof.
  intros Hst Htcb Hedge Hrq s1.
  assert (Hrq1 : ready_queued s1).
  { apply ready_queued_unready; [done| |done]. intros t. by destruct Hst as [-> | ->]. }
  destruct (removeFromReadyQueue_fields (update_task i (set_state st) s) i)
    as (Hty & Hts & Hnx & _). fold s1 in Hty, Hts, Hnx.
  assert (Hfr1 : same_frame s s1).
  { split; [rewrite Hty|rewrite Hnx]; by destruct s. }
  assert (Hlook : ∀ j t, tasks_ s !! j = Some t →
            tasks_ s1 !! j = Some (if decide (j = i) then set_state st t else t)).
  { intros j t Ht. rewrite Hts. by apply update_task_lookup. }
  split.
  - split; [done|]. split; [done|]. intros j t Ht.
    rewrite (Hlook j t Ht). eexists. split; [done|].
    case_decide as Hj; [|by left]. subst j. cbn.
    assert (t = tcb) as -> by congruence. destruct Hedge; eauto.
  - intros c.
    destruct (schedule_ready (with_currentTaskId c s1)) as (s2 & Hs2 & Hrq2 & Hfr2 & Hmv2);
      [by apply ready_queued_with_currentTaskId|].
    exists s2. split; [done|]. split; [done|]. split.
    { destruct Hfr1 as [? ?], Hfr2 as [Ha Hb]. split.
      - rewrite Ha. by destruct s1.
      - rewrite Hb. by destruct s1. }
    intros j t Ht.
    assert (Ht1 : tasks_ (with_currentTaskId c s1) !! j
                  = Some (if decide (j = i) then set_state st t else t)).
    { rewrite <- (Hlook j t Ht). by destruct s1. }
    destruct (Hmv2 _ _ Ht1) as (t2 & Ht2 & Hst2).
    exists t2. split; [done|]. case_decide as Hj.
    + subst j. cbn in Hst2. assert (t = tcb) as -> by congruence.
      destruct Hst2 as [->|[[? _]|[? _]]]; [|destruct Hst; congruence..].
      destruct Hedge; eauto.
    + destruct Hst2 as [?|?%switch_edge_life_cycle]; eauto.
Qed.

Lemma terminateTask_ready (s : Scheduler) (i : Z) :
  ready_queued s →
  ∃ r s', terminateTask s i = Some (r, s') ∧ ready_queued s' ∧ same_frame s s' ∧
          states_move life_cycle_edge s s'.
Proof.
  intros Hrq. unfold terminateTask.
  destruct (tasks_ s !! i) as [tcb|] eqn:Htcb.
  2:{ exists false, s. split; [done|]. split; [done|]. split; [by split|].
      apply states_move_refl. }
  destruct (park_then_schedule s i tcb Terminated) as [(? & ? & ?) Hsched];
    [by right|done| |done|].
  { destruct (state tcb); cbn; eauto. }
  case_decide as Hc; [|by eauto 10].
  destruct (Hsched INVALID_TASK_ID) as (s2 & -> & ? & ? & ?). cbn. eauto 10.
Qed.

Lemma blockTask_ready (s : Scheduler) (i : Z) :
  ready_queued s →
  ∃ r s', blockTask s i = Some (r, s') ∧ ready_queued s' ∧ same_frame s s' ∧
          states_move life_cycle_edge s s'.
Proof.
  intros Hrq. unfold blockTask.
  assert (Hstay : ∃ r s', Some (false, s) = Some (r, s') ∧ ready_queued s' ∧
                          same_frame s s' ∧ states_move life_cycle_edge s s').
  { exists false, s. split; [done|]. split; [done|]. split; [by split|].
    apply states_move_refl. }
  destruct (tasks_ s !! i) as [tcb|] eqn:Htcb; [|done].
  case_decide as Hbad; [done|]. clear Hstay.
  destruct (park_then_schedule s i tcb Blocked) as [(? & ? & ?) Hsched];
    [by left|done| |done|].
  { right. destruct (state tcb); cbn; try done; exfalso; apply Hbad; by split. }
  case_decide as Hc; [|by eauto 10].
  set (s1 := removeFromReadyQueue _ _) in *.
  destruct (Hsched (currentTaskId_ s1)) as (s2 & Hs2 & ? & ? & ?).
  rewrite with_currentTaskId_same in Hs2. rewrite Hs2. cbn. eauto 10.
Qed.

Lemma unblockTask_ready (s : Scheduler) (i : Z) :
  ready_queued s →
  ready_queued (unblockTask s i).2 ∧ same_frame s (unblockTask s i).2 ∧
  states_move life_cycle_edge s (unblockTask s i).2.
Proof.
  intros Hrq. unfold unblockTask.
  assert (Hstay : ready_queued s ∧ same_frame s s ∧ states_move life_cycle_edge s s).
  { split; [done|]. split; [by split|]. apply states_move_refl. }
  destruct (tasks_ s !! i) as [tcb|] eqn:Htcb; [|done].
  case_decide as Hst; [done|]. clear Hstay. cbn [snd].
  destruct (addToReadyQueue_fields (update_task i (set_state Ready) s) i)
    as (Hty & Hts & Hnx & _).
  split; [apply ready_queued_set_ready; by eauto|].
  split; [split; [rewrite Hty|rewrite Hnx]; by destruct s|].
  intros j t Ht. rewrite Hts, (update_task_lookup _ _ _ _ _ Ht).
  eexists. split; [done|]. case_decide as Hj; [|by left].
  subst j. assert (t = tcb) as -> by congruence. right. cbn.
  assert (state tcb = Blocked) as -> by (by destruct (decide (state tcb = Blocked))).
  done.
Qed.

Lemma tick_ready (s : Scheduler) :
  ready_queued s →
  ∃ s', tick s = Some s' ∧ ready_queued s' ∧ same_frame s s' ∧
        states_move life_cycle_edge s s'.
Proof.
  intros Hrq. unfold tick.
  set (s1 := with_tickCount _ s).
  assert (H1 : ready_queued s1 ∧ same_frame s s1 ∧ states_move no_edge s s1).
  { subst s1. split; [by apply ready_queued_with_tickCount|].
    split; [by destruct s|]. intros i t Ht. exists t. split; [by destruct s|by left]. }
  clearbody s1. destruct H1 as (Hrq1 & [Hty1 Hnx1] & Hmv1).
  assert (Hsched : ∀ s2, ready_queued s2 → same_frame s s2 → states_move no_edge s s2 →
            ∃ s', schedule s2 = Some s' ∧ ready_queued s' ∧ same_frame s s' ∧
                  states_move life_cycle_edge s s').
  { intros s2 Hrq2 [Hty2 Hnx2] Hmv2.
    destruct (schedule_ready s2 Hrq2) as (s' & -> & ? & [? ?] & Hmv).
    exists s'. split; [done|]. split; [done|].
    split; [split; congruence|].
    eapply states_move_keep; [done|].
    eapply states_move_weaken; [apply switch_edge_life_cycle|done]. }
  destruct (getCurrentTask s1) as [current|]; [|by apply Hsched].
  set (s2 := if decide (timeSliceRemaining current > 0) then _ else s1).
  assert (H2 : ready_queued s2 ∧ same_frame s s2 ∧ states_move no_edge s s2).
  { subst s2. case_decide; [|done].
    split; [by apply ready_queued_keep|].
    split; [by destruct s1|].
    eapply states_move_keep; [done|]. by apply states_move_update_keep. }
  clearbody s2. destruct H2 as (Hrq2 & Hfr2 & Hmv2).
  assert (Hstay : ∃ s', Some s2 = Some s' ∧ ready_queued s' ∧ same_frame s s' ∧
                        states_move life_cycle_edge s s').
  { exists s2. split; [done|]. split; [done|]. split; [done|].
    eapply states_move_weaken; [|done]. by intros ? ? []. }
  destruct (getCurrentTask s2) as [current'|]; [|done].
  case_decide; [by apply Hsched|done].
Qed.

Lemma yield_ready (s : Scheduler) :
  ready_queued s →
  ∃ s', yield s = Some s' ∧ ready_queued s' ∧ same_frame s s' ∧
        states_move life_cycle_edge s s'.
Proof.
  intros Hrq. unfold yield.
  destruct (getCurrentTask s) as [current|].
  2:{ exists s. split; [done|]. split; [done|]. split; [by split|].
      apply states_move_refl. }
  set (s1 := update_task _ _ s).
  destruct (schedule_ready s1) as (s' & -> & ? & [Hty Hnx] & Hmv);
    [by apply ready_queued_keep|].
  exists s'. split; [done|]. split; [done|].
  split; [split; [rewrite Hty|rewrite Hnx]; by destruct s|].
  apply (states_move_keep _ _ s1); [by apply states_move_update_keep|].
  eapply states_move_weaken; [apply switch_edge_life_cycle|done].
Qed.

Lemma createTask_ready (s : Scheduler) (taskName : string) (prio : TaskPriority) :
  nextTaskId_ s < INVALID_TASK_ID → ready_queued s →
  ready_queued (createTask s taskName prio).2 ∧
  type_ (createTask s taskName prio).2 = type_ s ∧
  nextTaskId_ (createTask s taskName prio).2 = nextTaskId_ s + 1 ∧
  states_move life_cycle_edge s (createTask s taskName prio).2.
Proof.
  intros Hbound [[Hst Hiff] [Hpos Hids]]. unfold createTask. cbn [snd].
  set (i := nextTaskId_ s) in *.
  set (tcb := set_state Ready (TaskControlBlock_new i taskName prio)).
  set (s2 := with_tasks _ _).
  assert (Hfresh : tasks_ s !! i = None).
  { destruct (tasks_ s !! i) eqn:Hi; [|done].
    assert (i < i) by (apply Hids; by rewrite Hi). lia. }
  assert (Hwrap : wrap32 (i + 1) = i + 1).
  { unfold wrap32. apply Z.mod_small. unfold INVALID_TASK_ID in Hbound. lia. }
  assert (Hts2 : tasks_ s2 = <[i := tcb]> (tasks_ s)) by (by destruct s).
  assert (Hex2 : holds_exactly s2 (λ j, has_state s j Ready)).
  { unfold holds_exactly, structured, in_ready_structure in *.
    subst s2. destruct s as [ty nxt cur ts rq pq tc run]; destruct ty; cbn in *;
      [done|].
    split; [|done]. intros p q Hp. destruct (Hst p q Hp) as [Hnd Htag].
    split; [done|]. intros j Hj. destruct (Htag j Hj) as (t & Ht & Hpr).
    exists t. rewrite lookup_insert_ne by congruence. done. }
  destruct (addToReadyQueue_fields s2 i) as (Hty & Hts & Hnx & _).
  split; [split|split; [|split]].
  - eapply holds_exactly_iff; [|apply holds_exactly_add; [|exact Hex2]].
    + intros j. cbn beta. unfold has_state. rewrite Hts, Hts2.
      destruct (decide (j = i)) as [->|Hj].
      * rewrite lookup_insert_eq. split; [by eauto|by right].
      * rewrite lookup_insert_ne by done. split; [by intros [?|?]|by left].
    + rewrite Hts2, lookup_insert_eq. by eauto.
  - unfold ids_below. rewrite Hts, Hnx, Hts2.
    assert (nextTaskId_ s2 = i + 1) as -> by (rewrite <- Hwrap; by destruct s).
    split; [lia|]. intros j Hj. destruct (decide (j = i)) as [->|Hne]; [lia|].
    rewrite lookup_insert_ne in Hj by done. apply Hids in Hj. lia.
  - rewrite Hty. by destruct s.
  - rewrite Hnx, <- Hwrap. by destruct s.
  - intros j t Ht. exists t. split; [|by left].
    rewrite Hts, Hts2, lookup_insert_ne; [done|]. congruence.
Qed.

Lemma perform_ready (s : Scheduler) (c : Call) :
  ready_queued s → keeps_discipline (type_ s) c →
  (is_create c = true → nextTaskId_ s < INVALID_TASK_ID) →
  ∃ s', perform s c = Some s' ∧ ready_queued s' ∧ type_ s' = type_ s ∧
        nextTaskId_ s' = nextTaskId_ s + (if is_create c then 1 else 0) ∧
        states_move life_cycle_edge s s'.
Proof.
  intros Hrq Hkeep Hbound. destruct c; cbn [perform is_create].
  - destruct (createTask_ready s taskName prio) as (? & ? & ? & ?); eauto 10.
  - destruct (terminateTask_ready s i Hrq) as (r & s' & -> & ? & [? ?] & ?).
    exists s'. cbn. rewrite Z.add_0_r. eauto 10.
  - destruct (blockTask_ready s i Hrq) as (r & s' & -> & ? & [? ?] & ?).
    exists s'. cbn. rewrite Z.add_0_r. eauto 10.
  - destruct (unblockTask_ready s i Hrq) as (? & [? ?] & ?).
    eexists. rewrite Z.add_0_r. eauto 10.
  - destruct (schedule_ready s Hrq) as (s' & -> & ? & [? ?] & ?).
    exists s'. rewrite Z.add_0_r.
    eauto 10 using states_move_weaken, switch_edge_life_cycle.
  - destruct (tick_ready s Hrq) as (s' & -> & ? & [? ?] & ?).
    exists s'. rewrite Z.add_0_r. eauto 10.
  - destruct (yield_ready s Hrq) as (s' & -> & ? & [? ?] & ?).
    exists s'. rewrite Z.add_0_r. eauto 10.
  - cbn in Hkeep. subst ty. exists s. rewrite Z.add_0_r.
    unfold setSchedulerType. rewrite decide_False by (by intros []).
    eauto 10 using states_move_refl.
Qed.

Lemma ready_queued_new (ty : SchedulerType) : ready_queued (Scheduler_new ty).
Proof.
  split; [split|split].
  - destruct ty; cbn; [apply NoDup_nil_2|]. intros p q Hp.
    by rewrite lookup_empty in Hp.
  - intros j. unfold in_ready_structure, has_state. destruct ty; cbn.
    + split; [by intros ?%elem_of_nil|]. intros (t & Ht & _).
      by rewrite lookup_empty in Ht.
    + split.
      * intros (p & q & Hp & _). by rewrite lookup_empty in Hp.
      * intros (t & Ht & _). by rewrite lookup_empty in Ht.
  - done.
  - intros i [t Ht]. cbn in Ht. by rewrite lookup_empty in Ht.
Qed.

Lemma creations_cons (c : Call) (calls : list Call) :
  creations (c :: calls)
  = ((if is_create c then 1 else 0) + creations calls)%nat.
Proof.
  unfold creations. destruct (is_create c) eqn:Hc.
  - by rewrite filter_cons_True.
  - rewrite filter_cons_False; [done|]. by rewrite Hc.
Qed.

Lemma run_ready (ty : SchedulerType) (calls : list Call) (s : Scheduler) :
  ready_queued s → type_ s = ty →
  Forall (keeps_discipline ty) calls →
  nextTaskId_ s + Z.of_nat (creations calls) ≤ INVALID_TASK_ID →
  ∃ s', run s calls = Some s' ∧ ready_queued s' ∧ type_ s' = ty.
Proof.
  revert s. induction calls as [|c calls IH]; intros s Hrq Hty Hkeep Hbound;
    cbn [run]; [by eauto|].
  apply Forall_cons in Hkeep as [Hc Hkeep].
  rewrite creations_cons in Hbound.
  destruct (perform_ready s c) as (s1 & -> & Hrq1 & Hty1 & Hnx1 & _).
  - done.
  - by rewrite Hty.
  - intros Hcr. rewrite Hcr in Hbound. lia.
  - cbn. apply IH; [done|congruence|done|].
    rewrite Hnx1. destruct (is_create c); lia.
Qed.

Lemma count_NoDup (i : Z) (l : list Z) :
  NoDup l →
  length (filter (λ j, j = i) l) = if decide (i ∈ l) then 1%nat else 0%nat.
Proof.
  induction l as [|x l IH]; [done|].
  intros [Hx Hl]%NoDup_cons. specialize (IH Hl).
  destruct (decide (x = i)) as [->|Hne].
  - rewrite filter_cons_True by done. cbn [length]. rewrite IH.
    rewrite decide_False by done. rewrite decide_True; [done|by left].
  - rewrite filter_cons_False by done. rewrite IH.
    destruct (decide (i ∈ l)) as [Hin|Hin].
    + rewrite decide_True; [done|by right].
    + rewrite decide_False; [done|]. intros [?|?]%elem_of_cons; congruence.
Qed.

Lemma NoDup_mjoin_fmap {A} (g : A → list Z) (ks : list A) :
  NoDup ks → (∀ k, NoDup (g k)) →
  (∀ k k' x, x ∈ g k → x ∈ g k' → k = k') →
  NoDup (mjoin (g <$> ks)).
Proof.
  intros Hks Hg Hdisj. induction ks as [|k ks IH]; cbn; [apply NoDup_nil_2|].
  apply NoDup_cons in Hks as [Hk Hks].
  apply NoDup_app. split; [done|]. split; [|by apply IH].
  intros x Hx (l & Hxl & (k' & -> & Hk')%list_elem_of_fmap)%list_elem_of_join.
  by rewrite (Hdisj k k' x Hx Hxl) in Hk.
Qed.

Lemma ready_ids_spec (s : Scheduler) (R : Z → Prop) :
  holds_exactly s R → NoDup (ready_ids s) ∧ ∀ i, i ∈ ready_ids s ↔ R i.
Proof.
  intros [Hst Hiff]. unfold ready_ids, structured, in_ready_structure in *.
  destruct (type_ s); [done|].
  set (g := λ p, default [] (priorityQueues_ s !! p)).
  assert (Hg : ∀ p x, x ∈ g p ↔ ∃ q, priorityQueues_ s !! p = Some q ∧ x ∈ q).
  { intros p x. subst g. cbn beta. destruct (priorityQueues_ s !! p) as [q|]; cbn.
    - split; [by eauto|]. by intros (? & [= <-] & ?).
    - split; [by intros ?%elem_of_nil|]. by intros (? & [=] & _). }
  split.
  - apply NoDup_mjoin_fmap.
    + unfold priorities_ascending. apply (bool_decide_unpack _). by compute.
    + intros p. subst g. cbn beta.
      destruct (priorityQueues_ s !! p) as [q|] eqn:Hq; cbn; [|apply NoDup_nil_2].
      by apply (Hst p q).
    + intros p p' x (q & Hq & Hx)%Hg (q' & Hq' & Hx')%Hg.
      destruct (Hst p q Hq) as [_ Ht]. destruct (Hst p' q' Hq') as [_ Ht'].
      destruct (Ht x Hx) as (t & ? & ?). destruct (Ht' x Hx') as (t' & ? & ?).
      congruence.
  - intros i. rewrite <- Hiff, list_elem_of_join. split.
    + intros (l & Hi & (p & -> & _)%list_elem_of_fmap).
      apply Hg in Hi as (q & ? & ?). eauto.
    + intros (p & q & Hq & Hi). exists (g p). split; [apply Hg; by eauto|].
      apply list_elem_of_fmap. exists p. split; [done|].
      apply priorities_ascending_all.
Qed.

(** X15: under one discipline the ready structure mirrors the task
    states. After any sequence of calls that keeps the discipline and
    creates fewer than 2^32 - 1 tasks, every call has returned, and a task
    whose state is Ready sits in the active ready structure exactly once,
    while no other id sits there at all. *)
Theorem ready_tasks_are_queued_once (ty : SchedulerType) (calls : list Call) :
  Forall (keeps_discipline ty) calls →
  Z.of_nat (creations calls) < INVALID_TASK_ID →
  ∃ s, run (Scheduler_new ty) calls = Some s ∧ type_ s = ty ∧
       ∀ i, (has_state s i Ready → occurrences s i = 1%nat) ∧
            (¬ has_state s i Ready → occurrences s i = 0%nat).
Proof.
  intros Hkeep Hbound.
  destruct (run_ready ty calls (Scheduler_new ty)) as (s & Hrun & [Hex _] & Hty);
    [apply ready_queued_new|done|done|cbn; lia|].
  exists s. split; [done|]. split; [done|].
  destruct (ready_ids_spec s _ Hex) as [Hnd Hmem].
  intros i. unfold occurrences. rewrite count_NoDup by done.
  split; intros Hi.
  - rewrite decide_True; [done|]. by apply Hmem.
  - rewrite decide_False; [done|]. by rewrite Hmem.
Qed.

(** X15, on a session under the priority discipline: three tasks, one
    scheduled, blocked and unblocked again. *)
Lemma ready_tasks_are_queued_once_witness :
  ∃ s, run (Scheduler_new Priority)
           [CreateTask "a" High; CreateTask "b" Low; CreateTask "c" High;
            Schedule; BlockTask 1; Tick; UnblockTask 1; Yield] = Some s ∧
       occurrences s 1 = 0%nat ∧ occurrences s 2 = 1%nat ∧
       occurrences s 3 = 1%nat.
Proof.
  destruct (ready_tasks_are_queued_once Priority
              [CreateTask "a" High; CreateTask "b" Low; CreateTask "c" High;
               Schedule; BlockTask 1; Tick; UnblockTask 1; Yield])
    as (s & Hrun & _ & Hocc).
  - repeat constructor.
  - vm_compute. reflexivity.
  - exists s. split; [done|].
    vm_compute in Hrun. injection Hrun as <-.
    split; [|split].
    + apply (Hocc 1). intros (t & Ht & Hst). vm_compute in Ht.
      injection Ht as <-. discriminate.
    + apply (Hocc 2). eexists. split; vm_compute; reflexivity.
    + apply (Hocc 3). eexists. split; vm_compute; reflexivity.
Defined.

(** X16: the task life cycle. Under one discipline and before the id
    counter wraps, a call never removes a task, and it leaves the state of
    a task as it is or moves it along one of these edges: Ready to
    Running, Running to Ready, Ready or Running to Blocked, Blocked to
    Ready, and any state but Terminated to Terminated. A terminated task
    is never revived. *)
Theorem task_life_cycle (ty : SchedulerType) (calls : list Call) (c : Call) :
  Forall (keeps_discipline ty) (calls ++ [c]) →
  Z.of_nat (creations (calls ++ [c])) < INVALID_TASK_ID →
  ∃ s s', run (Scheduler_new ty) calls = Some s ∧ perform s c = Some s' ∧
          ∀ i t, getTask s i = Some t →
                 ∃ t', getTask s' i = Some t' ∧
                       (state t' = state t ∨
                        life_cycle_edge (state t) (state t')).
Proof.
  intros [Hkeep Hc]%Forall_app Hbound. apply Forall_cons in Hc as [Hc _].
  unfold creations in Hbound. rewrite filter_app, length_app in Hbound.
  fold (creations calls) in Hbound. fold (creations [c]) in Hbound.
  assert (Hnext : ∀ calls s s', ready_queued s → type_ s = ty →
            Forall (keeps_discipline ty) calls →
            nextTaskId_ s + Z.of_nat (creations calls) ≤ INVALID_TASK_ID →
            run s calls = Some s' →
            nextTaskId_ s' = nextTaskId_ s + Z.of_nat (creations calls)).
  { clear. induction calls as [|c calls IH]; intros s s' Hrq Hty Hkeep Hbound;
      cbn [run].
    - intros [= <-]. unfold creations. cbn. lia.
    - apply Forall_cons in Hkeep as [Hc Hkeep].
      rewrite creations_cons in Hbound |- *.
      destruct (perform_ready s c) as (s1 & -> & Hrq1 & Hty1 & Hnx1 & _).
      + done.
      + by rewrite Hty.
      + intros Hcr. rewrite Hcr in Hbound. lia.
      + cbn. intros Hrun. rewrite (IH s1 s'); [|done|congruence|done| |done].
        * rewrite Hnx1. destruct (is_create c); lia.
        * rewrite Hnx1. destruct (is_create c); lia. }
  destruct (run_ready ty calls (Scheduler_new ty)) as (s & Hrun & Hrq & Hty);
    [apply ready_queued_new|done|done|cbn; lia|].
  specialize (Hnext calls _ s (ready_queued_new ty) eq_refl Hkeep).
  cbn [nextTaskId_ Scheduler_new] in Hnext.
  assert (Hnx : nextTaskId_ s = 1 + Z.of_nat (creations calls))
    by (apply Hnext; [lia|done]).
  destruct (perform_ready s c) as (s' & Hperf & _ & _ & _ & Hmv).
  - done.
  - by rewrite Hty.
  - intros Hcr. rewrite creations_cons, Hcr in Hbound.
    unfold creations at 2 in Hbound. cbn in Hbound.
    rewrite Hnx. lia.
  - exists s, s'. done.
Qed.

(** X16, at the end of a short session: terminating the running task. *)
Lemma task_life_cycle_witness :
  ∃ s s', run (Scheduler_new RoundRobin)
              [CreateTask "a" Normal; CreateTask "b" Normal; Schedule] = Some s ∧
          perform s (TerminateTask 1) = Some s' ∧
          state <$> getTask s' 1 = Some Terminated ∧
          state <$> getTask s' 2 = Some Running.
Proof.
  destruct (task_life_cycle RoundRobin
              [CreateTask "a" Normal; CreateTask "b" Normal; Schedule]
              (TerminateTask 1))
    as (s & s' & Hrun & Hperf & _).
  - repeat constructor.
  - vm_compute. reflexivity.
  - exists s, s'. split; [done|]. split; [done|].
    vm_compute in Hrun. injection Hrun as <-.
    vm_compute in Hperf. injection Hperf as <-.
    split; vm_compute; reflexivity.
Defined.

(** *** The time quantum *)

Lemma ticks_snoc (n : nat) (s : Scheduler) :
  ticks (S n) s = s' ← ticks n s; tick s'.
Proof.
  revert s. induction n as [|n IH]; intros s.
  - cbn. by destruct (tick s).
  - change (ticks (S (S n)) s) with (s' ← tick s; ticks (S n) s').
    change (ticks (S n) s) with (s' ← tick s; ticks n s').
    destruct (tick s) as [s1|]; [|done]. cbn. apply IH.
Qed.

Lemma selectNextTask_ext (s s' : Scheduler) :
  type_ s' = type_ s → readyQueue_ s' = readyQueue_ s →
  priorityQueues_ s' = priorityQueues_ s →
  selectNextTask s' = selectNextTask s.
Proof.
  intros Hty Hrq Hpq. unfold selectNextTask, selectRoundRobin, selectPriority.
  by rewrite Hty, Hrq, Hpq.
Qed.

Lemma in_ready_structure_ext (s s' : Scheduler) (i : Z) :
  type_ s' = type_ s → readyQueue_ s' = readyQueue_ s →
  priorityQueues_ s' = priorityQueues_ s →
  in_ready_structure s' i ↔ in_ready_structure s i.
Proof. intros Hty Hrq Hpq. unfold in_ready_structure. by rewrite Hty, Hrq, Hpq. Qed.

Lemma addToReadyQueue_member (s : Scheduler) (i : Z) :
  is_Some (tasks_ s !! i) → in_ready_structure (addToReadyQueue s i) i.
Proof.
  intros [tcb Htcb]. unfold addToReadyQueue. rewrite Htcb.
  unfold in_ready_structure.
  destruct s as [ty nxt cur ts rq pq tc run]; destruct ty; cbn.
  - case_decide; cbn; [done|]. apply elem_of_app. right. by left.
  - eexists _, _. rewrite lookup_insert_eq. split; [done|].
    case_decide; [done|]. apply elem_of_app. right. by left.
Qed.

Lemma erase_first_keeps (i j : Z) (q : list Z) :
  j ∈ q → j ≠ i → j ∈ erase_first i q.
Proof.
  induction q as [|y q IH]; cbn; [done|].
  intros [->|Hj]%elem_of_cons Hne.
  - rewrite decide_False by done. by left.
  - case_decide; [done|]. right. by apply IH.
Qed.

Lemma removeFromPriorityQueues_keeps (i j : Z) (keys : list TaskPriority)
    (pq : gmap TaskPriority (list Z)) (p : TaskPriority) (q : list Z) :
  pq !! p = Some q → j ∈ q → j ≠ i →
  ∃ q', removeFromPriorityQueues i keys pq !! p = Some q' ∧ j ∈ q'.
Proof.
  intros Hp Hj Hne. induction keys as [|k keys IH]; cbn; [by eauto|].
  destruct (pq !! k) as [qk|] eqn:Hk; [|done].
  case_decide; [|done].
  destruct (decide (k = p)) as [->|Hkp].
  - rewrite lookup_insert_eq. eexists. split; [done|].
    apply erase_first_keeps; [|done]. congruence.
  - rewrite lookup_insert_ne by done. eauto.
Qed.

Lemma removeFromReadyQueue_keeps (s : Scheduler) (i j : Z) :
  in_ready_structure s j → j ≠ i →
  in_ready_structure (removeFromReadyQueue s i) j.
Proof.
  unfold in_ready_structure, removeFromReadyQueue.
  destruct s as [ty nxt cur ts rq pq tc run]; destruct ty;
    cbn [type_ readyQueue_ priorityQueues_ with_readyQueue with_priorityQueues].
  - apply erase_first_keeps.
  - intros (p & q & Hp & Hj) Hne.
    destruct (removeFromPriorityQueues_keeps i j priorities_ascending pq p q)
      as (q' & ? & ?); eauto.
Qed.

(** A tick that leaves part of the time slice only charges the task. *)
Lemma tick_charges (s : Scheduler) (tcb : TaskControlBlock) :
  getCurrentTask s = Some tcb → timeSliceRemaining tcb > 1 →
  ∃ s', tick s = Some s' ∧
        type_ s' = type_ s ∧ currentTaskId_ s' = currentTaskId_ s ∧
        readyQueue_ s' = readyQueue_ s ∧
        priorityQueues_ s' = priorityQueues_ s ∧
        (∀ i, is_Some (tasks_ s !! i) → is_Some (tasks_ s' !! i)) ∧
        ∃ tcb', getCurrentTask s' = Some tcb' ∧ state tcb' = state tcb ∧
                timeSliceRemaining tcb' = timeSliceRemaining tcb - 1.
Proof.
  intros Hcur Hslice. unfold tick.
  assert (Hcur1 : getCurrentTask (with_tickCount (wrap64 (tickCount_ s + 1)) s)
                  = Some tcb) by (by destruct s).
  rewrite Hcur1. rewrite decide_True by lia.
  set (s1 := with_tickCount _ s) in *.
  set (g := λ t, set_cpuTimeMs _ (set_timeSliceRemaining _ t)).
  assert (Hcur2 : getCurrentTask (update_task (currentTaskId_ s1) g s1)
                  = Some (g tcb)).
  { unfold getCurrentTask in *. destruct s as [ty nxt cur ts rq pq tc run];
      cbn in *. case_decide; [done|]. by rewrite lookup_alter_eq, Hcur. }
  rewrite Hcur2. cbn [g timeSliceRemaining set_cpuTimeMs set_timeSliceRemaining].
  rewrite decide_False by lia. eexists. split; [done|].
  repeat (split; [by destruct s|]).
  split; [|by exists (g tcb)].
  intros i Hi. destruct s; cbn in *. by apply is_Some_alter.
Qed.

(** The tick that uses up the time slice hands over to schedule. *)
Lemma tick_expires (s : Scheduler) (tcb : TaskControlBlock) :
  getCurrentTask s = Some tcb → timeSliceRemaining tcb = 1 →
  tick s = schedule
             (update_task (currentTaskId_ s)
                (λ t, set_cpuTimeMs (wrap64 (cpuTimeMs t + 1))
                        (set_timeSliceRemaining (timeSliceRemaining t - 1) t))
                (with_tickCount (wrap64 (tickCount_ s + 1)) s)).
Proof.
  intros Hcur Hslice. unfold tick.
  assert (Hcur1 : getCurrentTask (with_tickCount (wrap64 (tickCount_ s + 1)) s)
                  = Some tcb) by (by destruct s).
  rewrite Hcur1. rewrite decide_True by lia.
  set (s1 := with_tickCount _ s) in *.
  set (g := λ t, set_cpuTimeMs _ (set_timeSliceRemaining _ t)).
  assert (Hcur2 : getCurrentTask (update_task (currentTaskId_ s1) g s1)
                  = Some (g tcb)).
  { unfold getCurrentTask in *. destruct s as [ty nxt cur ts rq pq tc run];
      cbn in *. case_decide; [done|]. by rewrite lookup_alter_eq, Hcur. }
  rewrite Hcur2. cbn [g timeSliceRemaining set_cpuTimeMs set_timeSliceRemaining].
  rewrite decide_True by lia. by destruct s.
Qed.

Lemma ticks_charge (n : nat) (s : Scheduler) (tcb : TaskControlBlock) :
  getCurrentTask s = Some tcb → Z.of_nat n < timeSliceRemaining tcb →
  ∃ s', ticks n s = Some s' ∧
        type_ s' = type_ s ∧ currentTaskId_ s' = currentTaskId_ s ∧
        readyQueue_ s' = readyQueue_ s ∧
        priorityQueues_ s' = priorityQueues_ s ∧
        (∀ i, is_Some (tasks_ s !! i) → is_Some (tasks_ s' !! i)) ∧
        ∃ tcb', getCurrentTask s' = Some tcb' ∧ state tcb' = state tcb ∧
                timeSliceRemaining tcb' = timeSliceRemaining tcb - Z.of_nat n.
Proof.
  revert s tcb. induction n as [|n IH]; intros s tcb Hcur Hn.
  - exists s. cbn [ticks]. repeat (split; [done|]). exists tcb.
    split; [done|]. split; [done|]. lia.
  - destruct (tick_charges s tcb Hcur) as
      (s1 & Hs1 & Hty1 & Hc1 & Hrq1 & Hpq1 & Hk1 & tcb1 & Hcur1 & Hst1 & Hsl1);
      [lia|].
    destruct (IH s1 tcb1 Hcur1) as
      (s' & Hs' & Hty & Hc & Hrq & Hpq & Hk & tcb' & Hcur' & Hst' & Hsl'); [lia|].
    exists s'. cbn [ticks]. rewrite Hs1. cbn. split; [done|].
    repeat (split; [congruence|]). split; [by eauto|]. exists tcb'.
    split; [done|]. split; [congruence|]. lia.
Qed.

(** X17: the time quantum. While ticks remain in the slice of the
    running task, a tick only charges it: the task stays current and the
    ready structure is untouched. The tick that brings the slice to zero
    switches to the task the discipline selects: that task becomes the
    current one, Running with a full quantum, and the task that was running
    is Ready, out of time, and back in the ready structure. *)
Theorem quantum_then_switch (s : Scheduler) (tcb : TaskControlBlock)
    (k : nat) (j : Z) :
  getCurrentTask s = Some tcb → state tcb = Running →
  timeSliceRemaining tcb = Z.of_nat (S k) →
  selectNextTask s = j → j ≠ INVALID_TASK_ID → j ≠ currentTaskId_ s →
  is_Some (getTask s j) →
  (∀ n, (n ≤ k)%nat →
        ∃ s', ticks n s = Some s' ∧ currentTaskId_ s' = currentTaskId_ s ∧
              state <$> getCurrentTask s' = Some Running ∧
              timeSliceRemaining <$> getCurrentTask s'
                = Some (Z.of_nat (S k) - Z.of_nat n) ∧
              selectNextTask s' = j) ∧
  ∃ s', ticks (S k) s = Some s' ∧ currentTaskId_ s' = j ∧
        state <$> getCurrentTask s' = Some Running ∧
        timeSliceRemaining <$> getCurrentTask s' = Some TIME_QUANTUM_MS ∧
        state <$> getTask s' (currentTaskId_ s) = Some Ready ∧
        timeSliceRemaining <$> getTask s' (currentTaskId_ s) = Some 0 ∧
        in_ready_structure s' (currentTaskId_ s).
Proof.
  intros Hcur Hrun Hslice Hsel Hvalid Hother Htj.
  assert (Hmid : ∀ n, (n ≤ k)%nat →
    ∃ s', ticks n s = Some s' ∧
          type_ s' = type_ s ∧ currentTaskId_ s' = currentTaskId_ s ∧
          readyQueue_ s' = readyQueue_ s ∧
          priorityQueues_ s' = priorityQueues_ s ∧
          (∀ i, is_Some (tasks_ s !! i) → is_Some (tasks_ s' !! i)) ∧
          ∃ tcb', getCurrentTask s' = Some tcb' ∧ state tcb' = state tcb ∧
                  timeSliceRemaining tcb' = timeSliceRemaining tcb - Z.of_nat n).
  { intros n Hn. apply ticks_charge; [done|lia]. }
  split.
  - intros n Hn.
    destruct (Hmid n Hn)
      as (s' & Hs' & Hty & Hc & Hrq & Hpq & _ & tcb' & Hcur' & Hst' & Hsl').
    exists s'. split; [done|]. split; [done|]. rewrite Hcur'. cbn.
    split; [congruence|]. split; [congruence|].
    rewrite <- Hsel. by apply selectNextTask_ext.
  - destruct (Hmid k (le_n k))
      as (s1 & Hs1 & Hty & Hc & Hrq & Hpq & Hkeys & tcb1 & Hcur1 & Hst1 & Hsl1).
    rewrite ticks_snoc, Hs1. cbn [mbind option_bind].
    rewrite (tick_expires s1 tcb1) by (done || lia).
    set (g := λ t, set_cpuTimeMs _ (set_timeSliceRemaining _ t)).
    set (s2 := update_task _ g _).
    set (c := currentTaskId_ s) in *.
    assert (Hc2 : currentTaskId_ s2 = c) by (subst s2; by destruct s1).
    assert (Hcnv : c ≠ INVALID_TASK_ID).
    { intros Heq. unfold getCurrentTask in Hcur. fold c in Hcur.
      by rewrite decide_True in Hcur. }
    assert (Hcur2 : tasks_ s2 !! c = Some (g tcb1)).
    { subst s2. unfold getCurrentTask in Hcur1. rewrite Hc in Hcur1.
      rewrite decide_False in Hcur1 by done.
      destruct s1 as [ty1 nxt1 cur1 ts1 rq1 pq1 tc1 run1]; cbn in *.
      subst cur1. by rewrite lookup_alter_eq, Hcur1. }
    assert (Htj2 : is_Some (tasks_ s2 !! j)).
    { apply Hkeys in Htj. subst s2. destruct s1; cbn in *.
      by apply is_Some_alter. }
    assert (Hsel2 : selectNextTask s2 = j).
    { rewrite <- Hsel. transitivity (selectNextTask s1).
      - apply selectNextTask_ext; subst s2; by destruct s1.
      - by apply selectNextTask_ext. }
    clearbody s2. clear Hs1 Hcur1.
    unfold schedule. rewrite Hsel2, Hc2.
    rewrite decide_False by done. rewrite decide_False by done.
    unfold getCurrentTask at 1. rewrite Hc2, decide_False by done.
    rewrite Hcur2.
    assert (state (g tcb1) = Running) as Hst2 by (cbn; congruence).
    rewrite decide_True by done.
    set (s3 := addToReadyQueue (update_task c (set_state Ready) s2) c).
    destruct (addToReadyQueue_fields (update_task c (set_state Ready) s2) c)
      as (_ & Hts3 & _ & _). fold s3 in Hts3.
    assert (Hin3 : in_ready_structure s3 c).
    { apply addToReadyQueue_member. destruct s2; cbn in *.
      apply is_Some_alter. by rewrite Hcur2. }
    assert (Hcur3 : tasks_ s3 !! c = Some (set_state Ready (g tcb1))).
    { rewrite Hts3. by rewrite (update_task_lookup _ _ _ _ _ Hcur2), decide_True. }
    unfold getTask. destruct Htj2 as [tj2 Htj2]. rewrite Htj2.
    assert (Htj3 : tasks_ s3 !! j = Some tj2).
    { rewrite Hts3. by rewrite (update_task_lookup _ _ _ _ _ Htj2), decide_False. }
    clearbody s3.
    set (f := λ t, set_timeSliceRemaining TIME_QUANTUM_MS (set_state Running t)).
    eexists. split; [done|].
    destruct (removeFromReadyQueue_fields
                (update_task j f (with_currentTaskId j s3)) j)
      as (_ & Hts & _ & Hcj).
    assert (Hcur' : currentTaskId_
              (removeFromReadyQueue (update_task j f (with_currentTaskId j s3)) j)
              = j) by (rewrite Hcj; by destruct s3).
    assert (Htasks : tasks_
              (removeFromReadyQueue (update_task j f (with_currentTaskId j s3)) j)
              = alter f j (tasks_ s3)) by (rewrite Hts; by destruct s3).
    split; [done|].
    unfold getCurrentTask. rewrite Hcur', decide_False by done.
    rewrite Htasks, lookup_alter_eq, Htj3.
    rewrite lookup_alter_ne, Hcur3 by done. cbn.
    repeat (split; [done|]). split; [f_equal; lia|].
    apply removeFromReadyQueue_keeps; [|congruence].
    revert Hin3. unfold in_ready_structure. by destruct s3.
Qed.

(** X17, on a fresh round-robin scheduler with two tasks: the first runs
    for the 100 ticks of its quantum, then the second takes over. *)
Lemma quantum_then_switch_witness :
  let s0 := (createTask (createTask (Scheduler_new RoundRobin) "a" Normal).2
                        "b" Normal).2 in
  ∃ s s', schedule s0 = Some s ∧ ticks 100 s = Some s' ∧
          currentTaskId_ s = 1 ∧ currentTaskId_ s' = 2 ∧
          in_ready_structure s' 1.
Proof.
  cbv zeta. eexists _. 
  destruct (quantum_then_switch
              (mkScheduler RoundRobin 3 1
                 {[ 1 := set_state Running (TaskControlBlock_new 1 "a" Normal);
                    2 := set_state Ready (TaskControlBlock_new 2 "b" Normal) ]}
                 [2] ∅ 0 false)
              (set_state Running (TaskControlBlock_new 1 "a" Normal)) 99 2)
    as [_ (s' & Hticks & Hc & _ & _ & _ & _ & Hin)].
  - vm_compute. reflexivity.
  - reflexivity.
  - reflexivity.
  - reflexivity.
  - vm_compute. discriminate.
  - vm_compute. discriminate.
  - vm_compute. eauto.
  - exists s'. split; [vm_compute; reflexivity|].
    split; [exact Hticks|]. split; [reflexivity|]. split; [exact Hc|exact Hin].
Defined.

(** *** A current task at the head of the FIFO *)

Lemma heads_schedule (s : Scheduler) (c : Z) :
  current_heads_queue s c → schedule s = Some s.
Proof.
  intros (Hty & Hc & Hhd). unfold schedule, selectNextTask, selectRoundRobin.
  rewrite Hty. destruct (readyQueue_ s) as [|front rest]; [done|].
  injection Hhd as ->. case_decide; [done|]. by rewrite decide_True.
Qed.

Lemma heads_update_task (s : Scheduler) (c i : Z) f :
  current_heads_queue s c → current_heads_queue (update_task i f s) c.
Proof. by destruct s. Qed.

Lemma heads_addToReadyQueue (s : Scheduler) (c i : Z) :
  current_heads_queue s c → current_heads_queue (addToReadyQueue s i) c.
Proof.
  intros (Hty & Hc & Hhd). unfold addToReadyQueue.
  destruct (tasks_ s !! i); [|done]. rewrite Hty.
  case_decide; [done|]. destruct s as [ty nxt cur ts rq pq tc run]; cbn in *.
  split; [done|]. split; [done|]. by destruct rq.
Qed.

Lemma heads_removeFromReadyQueue (s : Scheduler) (c i : Z) :
  i ≠ c → current_heads_queue s c →
  current_heads_queue (removeFromReadyQueue s i) c.
Proof.
  intros Hne (Hty & Hc & Hhd). unfold removeFromReadyQueue. rewrite Hty.
  destruct s as [ty nxt cur ts rq pq tc run]; cbn in *.
  split; [done|]. split; [done|]. destruct rq as [|front rest]; [done|].
  injection Hhd as ->. cbn. by rewrite decide_False.
Qed.

Lemma heads_perform (s : Scheduler) (c : Z) (call : Call) :
  current_heads_queue s c → spares c call →
  ∃ s', perform s call = Some s' ∧ current_heads_queue s' c.
Proof.
  intros Hs Hcall. destruct call; cbn [perform spares] in *.
  - eexists. split; [done|]. unfold createTask. cbn [snd].
    apply heads_addToReadyQueue. by destruct s.
  - unfold terminateTask. destruct (tasks_ s !! i); [|by eauto].
    set (s1 := removeFromReadyQueue _ i).
    assert (Hs1 : current_heads_queue s1 c)
      by (by apply heads_removeFromReadyQueue, heads_update_task).
    rewrite decide_False by (destruct Hs1 as (_ & -> & _); congruence).
    cbn. eauto.
  - unfold blockTask. destruct (tasks_ s !! i); [|by eauto].
    case_decide; [by eauto|].
    set (s1 := removeFromReadyQueue _ i).
    assert (Hs1 : current_heads_queue s1 c)
      by (by apply heads_removeFromReadyQueue, heads_update_task).
    rewrite decide_False by (destruct Hs1 as (_ & -> & _); congruence).
    cbn. eauto.
  - eexists. split; [done|]. unfold unblockTask.
    destruct (tasks_ s !! i); [|done]. case_decide; [done|]. cbn [snd].
    by apply heads_addToReadyQueue, heads_update_task.
  - rewrite (heads_schedule s c) by done. eauto.
  - unfold tick. set (s1 := with_tickCount _ s).
    assert (Hs1 : current_heads_queue s1 c) by (by destruct s).
    clearbody s1.
    destruct (getCurrentTask s1) as [current|];
      [|rewrite (heads_schedule s1 c) by done; by eauto].
    set (s2 := if decide (timeSliceRemaining current > 0) then _ else s1).
    assert (Hs2 : current_heads_queue s2 c).
    { subst s2. case_decide; [|done]. by apply heads_update_task. }
    clearbody s2. destruct (getCurrentTask s2); [|by eauto].
    case_decide; [|by eauto]. rewrite (heads_schedule s2 c) by done. eauto.
  - unfold yield. destruct (getCurrentTask s); [|by eauto].
    rewrite (heads_schedule _ c) by (by apply heads_update_task). eexists.
    split; [done|]. by apply heads_update_task.
  - subst ty. exists s. split; [|done]. destruct Hs as (Hty & _).
    unfold setSchedulerType. by rewrite decide_False by (by rewrite Hty; intros []).
Qed.

(** X18: a current task at the head of the round-robin FIFO is never
    switched away from. Once the current task is also the first entry of
    the FIFO, schedule finds nothing to do, so no task creation, unblock,
    tick, yield or schedule call changes the current task, and the tasks
    queued behind it do not run: only blocking or terminating the current
    task itself ends this. *)
Theorem current_at_head_is_never_preempted (s : Scheduler) (c : Z)
    (calls : list Call) :
  current_heads_queue s c → Forall (spares c) calls →
  ∃ s', run s calls = Some s' ∧ currentTaskId_ s' = c ∧
        head (readyQueue_ s') = Some c.
Proof.
  revert s. induction calls as [|call calls IH]; intros s Hs Hcalls; cbn [run].
  - exists s. by destruct Hs as (_ & ? & ?).
  - apply Forall_cons in Hcalls as [Hcall Hcalls].
    destruct (heads_perform s c call Hs Hcall) as (s1 & -> & Hs1). cbn.
    by apply IH.
Qed.

(** X18, reached through the public calls: the only task is scheduled,
    blocked and unblocked; a second task created afterwards never runs,
    whatever number of yields and ticks follow. *)
Lemma current_at_head_is_never_preempted_witness :
  ∃ s s', run (Scheduler_new RoundRobin)
              [CreateTask "a" Normal; Schedule; BlockTask 1; UnblockTask 1]
            = Some s ∧
          run s [CreateTask "b" Normal; Yield; Tick; Schedule; Yield] = Some s' ∧
          currentTaskId_ s' = 1 ∧ state <$> getTask s' 1 = Some Ready ∧
          readyQueue_ s' = [1; 2].
Proof.
  eexists _. 
  destruct (current_at_head_is_never_preempted
              (mkScheduler RoundRobin 2 1
                 {[ 1 := set_state Ready
                           (set_state Running (TaskControlBlock_new 1 "a" Normal)) ]}
                 [1] ∅ 0 false)
              1 [CreateTask "b" Normal; Yield; Tick; Schedule; Yield])
    as (s' & Hrun & Hc & _).
  - repeat split.
  - repeat constructor.
  - exists s'. split; [vm_compute; reflexivity|]. split; [exact Hrun|].
    split; [exact Hc|]. vm_compute in Hrun. injection Hrun as <-.
    split; vm_compute; reflexivity.
Defined.

(** *** The priority discipline *)

Lemma run_app (s : Scheduler) (calls1 calls2 : list Call) :
  run s (calls1 ++ calls2) = s' ← run s calls1; run s' calls2.
Proof.
  revert s. induction calls1 as [|c calls1 IH]; intros s; [done|].
  cbn [app run]. destruct (perform s c) as [s1|]; [|done]. cbn. apply IH.
Qed.

Lemma run_safe (s : Scheduler) (calls : list Call) :
  safe s → ∃ s', run s calls = Some s' ∧ safe s'.
Proof.
  revert s. induction calls as [|c calls IH]; intros s Hs; cbn [run]; [by eauto|].
  destruct (safe_perform s c Hs) as (s1 & -> & Hs1). cbn. by apply IH.
Qed.

Lemma createTask_priority_queue (s : Scheduler) (taskName : string)
    (prio : TaskPriority) :
  type_ s = Priority →
  (∀ p q i, priorityQueues_ s !! p = Some q → i ∈ q → i < nextTaskId_ s) →
  0 < nextTaskId_ s < INVALID_TASK_ID →
  type_ (createTask s taskName prio).2 = Priority ∧
  currentTaskId_ (createTask s taskName prio).2 = currentTaskId_ s ∧
  nextTaskId_ (createTask s taskName prio).2 = nextTaskId_ s + 1 ∧
  (∀ p, default [] (priorityQueues_ (createTask s taskName prio).2 !! p)
        = default [] (priorityQueues_ s !! p)
          ++ (if decide (prio = p) then [nextTaskId_ s] else [])) ∧
  (∀ p q i, priorityQueues_ (createTask s taskName prio).2 !! p = Some q →
            i ∈ q → i < nextTaskId_ s + 1).
Proof.
  intros Hty Hlt Hbound. unfold createTask, addToReadyQueue. cbn [snd].
  destruct s as [ty nxt cur ts rq pq tc run]; cbn in *. subst ty.
  rewrite lookup_insert_eq. cbn.
  assert (Hwrap : wrap32 (nxt + 1) = nxt + 1).
  { unfold wrap32. apply Z.mod_small. unfold INVALID_TASK_ID in Hbound. lia. }
  assert (Hnotin : nxt ∉ default [] (pq !! prio)).
  { destruct (pq !! prio) as [q|] eqn:Hq; cbn; [|apply not_elem_of_nil].
    intros Hin. specialize (Hlt prio q nxt Hq Hin). lia. }
  rewrite decide_False by done.
  split; [done|]. split; [done|]. split; [done|]. split.
  - intros p. case_decide as Hp.
    + subst p. by rewrite lookup_insert_eq.
    + rewrite lookup_insert_ne by done. by rewrite app_nil_r.
  - intros p q i Hq Hi. destruct (decide (prio = p)) as [<-|Hp].
    + rewrite lookup_insert_eq in Hq. injection Hq as <-.
      apply elem_of_snoc_inv in Hi as [Hi| ->]; [|lia].
      destruct (pq !! prio) as [q0|] eqn:Hq0; cbn in Hi.
      * specialize (Hlt prio q0 i Hq0 Hi). lia.
      * by apply elem_of_nil in Hi.
    + rewrite lookup_insert_ne in Hq by done. specialize (Hlt p q i Hq Hi). lia.
Qed.

Lemma create_calls_queues (specs : list (string * TaskPriority)) (s : Scheduler) :
  type_ s = Priority →
  (∀ p q i, priorityQueues_ s !! p = Some q → i ∈ q → i < nextTaskId_ s) →
  0 < nextTaskId_ s →
  nextTaskId_ s + Z.of_nat (length specs) ≤ INVALID_TASK_ID →
  ∃ s', run s (create_calls specs) = Some s' ∧
        type_ s' = Priority ∧ currentTaskId_ s' = currentTaskId_ s ∧
        ∀ p, default [] (priorityQueues_ s' !! p)
             = default [] (priorityQueues_ s !! p)
               ++ ids_of_priority p specs (nextTaskId_ s).
Proof.
  revert s. induction specs as [|[taskName prio] specs IH];
    intros s Hty Hlt Hpos Hbound.
  - exists s. cbn. repeat (split; [done|]). intros p. by rewrite app_nil_r.
  - cbn [length] in Hbound.
    destruct (createTask_priority_queue s taskName prio Hty Hlt)
      as (Hty1 & Hc1 & Hnx1 & Hq1 & Hlt1); [lia|].
    destruct (IH (createTask s taskName prio).2) as (s' & Hrun & Hty' & Hc' & Hq');
      [done|by rewrite Hnx1|lia|lia|].
    exists s'. cbn [create_calls fmap list_fmap run perform fst snd].
    cbn [mbind option_bind]. split; [exact Hrun|]. split; [done|].
    split; [congruence|]. intros p. rewrite Hq', Hq1, Hnx1, <- app_assoc.
    f_equal. cbn [ids_of_priority snd]. by destruct (decide (prio = p)).
Qed.

Lemma ids_of_priority_nil (p : TaskPriority)
    (specs : list (string * TaskPriority)) (first : Z) :
  ids_of_priority p specs first = [] →
  ∀ k sp, specs !! k = Some sp → sp.2 ≠ p.
Proof.
  revert first. induction specs as [|sp0 specs IH]; intros first Hnil k sp Hk.
  - by rewrite lookup_nil in Hk.
  - cbn in Hnil. case_decide as Hp; [done|]. destruct k as [|k].
    + cbn in Hk. by injection Hk as <-.
    + by eapply IH.
Qed.

Lemma ids_of_priority_head (p : TaskPriority)
    (specs : list (string * TaskPriority)) (first x : Z) (rest : list Z) :
  ids_of_priority p specs first = x :: rest →
  ∃ k sp, specs !! k = Some sp ∧ sp.2 = p ∧ x = first + Z.of_nat k ∧
          ∀ k' sp', specs !! k' = Some sp' → sp'.2 = p → (k ≤ k')%nat.
Proof.
  revert first. induction specs as [|sp0 specs IH]; intros first Hcons; [done|].
  cbn in Hcons. case_decide as Hp.
  - injection Hcons as <- _. exists 0%nat, sp0.
    split; [done|]. split; [done|]. split; [lia|]. intros. lia.
  - destruct (IH _ Hcons) as (k & sp & Hk & Hsp & -> & Hmin).
    exists (S k), sp. split; [done|]. split; [done|]. split; [lia|].
    intros [|k'] sp' Hk' Hsp'.
    + cbn in Hk'. injection Hk' as <-. done.
    + specialize (Hmin k' sp' Hk' Hsp'). lia.
Qed.

(** The loop of selectPriority returns the head of the first queue in its
    scan order that is not empty. *)
Lemma selectPriority_from_first (before after : list TaskPriority)
    (p : TaskPriority) (pq : gmap TaskPriority (list Z)) (x : Z) (rest : list Z) :
  (∀ p', p' ∈ before → default [] (pq !! p') = []) →
  default [] (pq !! p) = x :: rest →
  selectPriority_from (before ++ p :: after) pq = x.
Proof.
  intros Hbefore Hp. induction before as [|p0 before IH]; cbn.
  - destruct (pq !! p) as [[|front q]|]; cbn in Hp; congruence.
  - assert (Hp0 : default [] (pq !! p0) = []) by (apply Hbefore; by left).
    destruct (pq !! p0) as [[|front q]|]; cbn in Hp0; [|done|].
    + apply IH. intros p' Hp'. apply Hbefore. by right.
    + apply IH. intros p' Hp'. apply Hbefore. by right.
Qed.

Lemma schedule_switches (s : Scheduler) (j : Z) :
  selectNextTask s = j → j ≠ INVALID_TASK_ID → j ≠ currentTaskId_ s →
  is_Some (tasks_ s !! j) →
  ∃ s', schedule s = Some s' ∧ currentTaskId_ s' = j ∧
        state <$> getCurrentTask s' = Some Running.
Proof.
  intros Hsel Hvalid Hother [tj Htj]. unfold schedule. rewrite Hsel.
  rewrite !decide_False by done. unfold getTask. rewrite Htj.
  set (s1 := match getCurrentTask s with Some _ => _ | None => s end).
  assert (Htj1 : is_Some (tasks_ s1 !! j)).
  { subst s1. destruct (getCurrentTask s); [case_decide|]; [|by eauto..].
    destruct (addToReadyQueue_fields
                (update_task (currentTaskId_ s) (set_state Ready) s)
                (currentTaskId_ s)) as (_ & -> & _).
    destruct s; cbn in *. apply is_Some_alter. by eauto. }
  clearbody s1. destruct Htj1 as [tj1 Htj1].
  eexists. split; [done|].
  set (f := λ t, set_timeSliceRemaining TIME_QUANTUM_MS (set_state Running t)).
  destruct (removeFromReadyQueue_fields
              (update_task j f (with_currentTaskId j s1)) j)
    as (_ & Hts & _ & Hc).
  assert (Hc' : currentTaskId_
            (removeFromReadyQueue (update_task j f (with_currentTaskId j s1)) j)
            = j) by (rewrite Hc; by destruct s1).
  split; [done|]. unfold getCurrentTask. rewrite Hc', decide_False by done.
  rewrite Hts. destruct s1; cbn in *. by rewrite lookup_alter_eq, Htj1.
Qed.

(** X19: the priority discipline starts with the best task. When tasks
    are created on a fresh priority scheduler and schedule is called, the
    task that becomes current is the earliest created one among those of
    the highest priority present. *)
Theorem highest_priority_runs_first (specs : list (string * TaskPriority)) :
  specs ≠ [] → Z.of_nat (length specs) < INVALID_TASK_ID - 1 →
  ∃ s k sp,
    run (Scheduler_new Priority) (create_calls specs ++ [Schedule]) = Some s ∧
    specs !! k = Some sp ∧ currentTaskId_ s = Z.of_nat k + 1 ∧
    state <$> getCurrentTask s = Some Running ∧
    ∀ k' sp', specs !! k' = Some sp' →
              (priority_rank sp'.2 ≤ priority_rank sp.2)%nat ∧
              (sp'.2 = sp.2 → (k ≤ k')%nat).
Proof.
  intros Hne Hlen.
  destruct (create_calls_queues specs (Scheduler_new Priority))
    as (s1 & Hrun1 & Hty1 & Hc1 & Hq1).
  { done. }
  { intros p q i Hq. cbn in Hq. by rewrite lookup_empty in Hq. }
  { done. }
  { cbn. lia. }
  cbn [priorityQueues_ nextTaskId_ currentTaskId_ Scheduler_new] in Hq1, Hc1.
  assert (Hq : ∀ p, default [] (priorityQueues_ s1 !! p) = ids_of_priority p specs 1).
  { intros p. rewrite Hq1, lookup_empty. done. }
  clear Hq1.
  destruct (run_safe (Scheduler_new Priority) (create_calls specs) (safe_new _))
    as (s1' & Hrun1' & [Hsafe _]).
  assert (s1' = s1) as -> by congruence. clear Hrun1'.
  rewrite run_app, Hrun1. cbn [mbind option_bind run perform].
  assert (Hpick : ∃ before after p x rest,
    reverse priorities_ascending = before ++ p :: after ∧
    (∀ p', p' ∈ before → ids_of_priority p' specs 1 = []) ∧
    ids_of_priority p specs 1 = x :: rest ∧
    (∀ p', p' ∉ before → (priority_rank p' ≤ priority_rank p)%nat)).
  { destruct (ids_of_priority RealTime specs 1) as [|x4 r4] eqn:H4.
    2:{ exists [], [High; Normal; Low; Idle], RealTime, x4, r4.
        split; [done|]. split; [by intros ? ?%elem_of_nil|]. split; [done|].
        intros []; cbn; lia. }
    destruct (ids_of_priority High specs 1) as [|x3 r3] eqn:H3.
    2:{ exists [RealTime], [Normal; Low; Idle], High, x3, r3.
        split; [done|]. split; [apply Forall_forall; by repeat constructor|].
        split; [done|]. intros [] Hp'; cbn; try lia. destruct Hp'. by left. }
    destruct (ids_of_priority Normal specs 1) as [|x2 r2] eqn:H2.
    2:{ exists [RealTime; High], [Low; Idle], Normal, x2, r2.
        split; [done|]. split; [apply Forall_forall; by repeat constructor|].
        split; [done|].
        intros [] Hp'; cbn; try lia; destruct Hp'; set_solver. }
    destruct (ids_of_priority Low specs 1) as [|x1 r1] eqn:H1.
    2:{ exists [RealTime; High; Normal], [Idle], Low, x1, r1.
        split; [done|].
        split; [apply Forall_forall; by repeat constructor|].
        split; [done|].
        intros [] Hp'; cbn; try lia; destruct Hp'; set_solver. }
    destruct (ids_of_priority Idle specs 1) as [|x0 r0] eqn:H0.
    2:{ exists [RealTime; High; Normal; Low], [], Idle, x0, r0.
        split; [done|].
        split; [apply Forall_forall; by repeat constructor|].
        split; [done|].
        intros [] Hp'; cbn; try lia; destruct Hp'; set_solver. }
    exfalso. destruct specs as [|[n0 p0] specs]; [done|].
    destruct p0.
    - by eapply (ids_of_priority_nil Idle _ 1 H0 0%nat).
    - by eapply (ids_of_priority_nil Low _ 1 H1 0%nat).
    - by eapply (ids_of_priority_nil Normal _ 1 H2 0%nat).
    - by eapply (ids_of_priority_nil High _ 1 H3 0%nat).
    - by eapply (ids_of_priority_nil RealTime _ 1 H4 0%nat). }
  destruct Hpick as (before & after & p & x & rest & Horder & Hempty & Hhead & Hrank).
  destruct (ids_of_priority_head p specs 1 x rest Hhead)
    as (k & sp & Hk & Hsp & Hx & Hmin).
  assert (Hklen : (k < length specs)%nat) by (by eapply lookup_lt_Some).
  assert (Hsel : selectNextTask s1 = x).
  { unfold selectNextTask, selectPriority. rewrite Hty1, Horder.
    apply (selectPriority_from_first _ _ _ _ _ rest).
    - intros p' Hp'. rewrite Hq. by apply Hempty.
    - by rewrite Hq. }
  destruct (schedule_switches s1 x) as (s & Hs & Hc & Hst).
  - done.
  - unfold INVALID_TASK_ID in *. lia.
  - rewrite Hc1. unfold INVALID_TASK_ID in *. lia.
  - apply Hsafe. right.
    specialize (Hq p). rewrite Hhead in Hq.
    destruct (priorityQueues_ s1 !! p) as [q|] eqn:Hqp; cbn in Hq; [|done].
    exists p, q. split; [done|]. rewrite Hq. by left.
  - exists s, k, sp. split; [by rewrite Hs|]. split; [done|]. split; [lia|].
    split; [done|]. intros k' sp' Hk'. rewrite Hsp. split.
    + apply Hrank. intros Hin.
      by eapply (ids_of_priority_nil _ _ _ (Hempty _ Hin) k').
    + intros Hp'. by apply (Hmin k' sp').
Qed.

(** X19, for four tasks: the first of the two High tasks runs. *)
Lemma highest_priority_runs_first_witness :
  ∃ s, run (Scheduler_new Priority)
           (create_calls [("a", Low); ("b", High); ("c", Normal); ("d", High)]
            ++ [Schedule]) = Some s ∧
       currentTaskId_ s = 2.
Proof.
  destruct (highest_priority_runs_first
              [("a", Low); ("b", High); ("c", Normal); ("d", High)])
    as (s & k & sp & Hrun & _).
  - done.
  - vm_compute. reflexivity.
  - exists s. split; [exact Hrun|].
    vm_compute in Hrun. injection Hrun as <-. reflexivity.
Defined.

End SchedulerMore.
